(** * NodeLogInsight: the log ingestion pipeline of [main.go]

    A shallow embedding of the Go program: the line parser
    ([parseAndStore]), the document store it writes to, the gap detector
    held in the global [lastCommittedState], the historical scanner
    ([processHistoricalLogs], [processSingleFile]), the tailer
    ([watchLogFile]) and the indexes at startup with their repair
    ([ensureIndexes], [createUniqueIndex], [removeDuplicates]).

    Go strings are byte sequences: [bytes] is [list ascii].  Integers of
    the program are [Z] with the 64-bit bounds written out where the
    program meets them.  The [float64] of [BlockTimeGap.TimeDiff] is the
    kernel's binary64 [float].

    The functions of the Go libraries the program calls ([regexp],
    [strconv], [strings], [time], [bufio], [os], [path/filepath], [fsnotify]
    and the MongoDB driver) are embedded as far as the program uses them.
    The bootstrap in [main] (the environment read by [getEnv], the
    connection to the server) is not part of the embedding. *)

From Stdlib Require Import ZArith List Ascii String Bool Lia.
From Stdlib Require Import Floats Uint63 Permutation Sorted.
Import ListNotations.

Local Open Scope Z_scope.
Local Open Scope list_scope.

Definition bytes := list ascii.

(** A string literal of the source as a byte sequence. *)
Definition B (s : string) : bytes := list_ascii_of_string s.

Definition byte_eqb (a b : ascii) : bool := Ascii.eqb a b.

Fixpoint bytes_eqb (a b : bytes) : bool :=
  match a, b with
  | [], [] => true
  | x :: a', y :: b' => byte_eqb x y && bytes_eqb a' b'
  | _, _ => false
  end.

Definition code (c : ascii) : Z := Z.of_nat (nat_of_ascii c).

Definition in_range (lo hi : Z) (c : ascii) : bool :=
  (lo <=? code c) && (code c <=? hi).

Definition isDigit (c : ascii) : bool := in_range 48 57 c.

Definition digit_val (c : ascii) : Z := code c - 48.

(** [strings.HasPrefix] followed by the slice past the prefix. *)
Fixpoint strip_prefix (l s : bytes) : option bytes :=
  match l, s with
  | [], _ => Some s
  | x :: l', y :: s' => if byte_eqb x y then strip_prefix l' s' else None
  | _ :: _, [] => None
  end.

(** [strings.Contains]. *)
Fixpoint Contains (s sub : bytes) : bool :=
  match strip_prefix sub s with
  | Some _ => true
  | None => match s with
            | [] => false
            | _ :: s' => Contains s' sub
            end
  end.

(** ** UTF-8: the width of the first rune, as [utf8.DecodeRuneInString]
    decides it (an invalid or truncated sequence is one byte wide). *)
Module Utf8.

Definition cont (lo hi : Z) (s : bytes) : option bytes :=
  match s with
  | c :: s' => if in_range lo hi c then Some s' else None
  | [] => None
  end.

Definition tail (n : nat) (lo hi : Z) (s : bytes) : option bytes :=
  match cont lo hi s with
  | None => None
  | Some s1 =>
      match n with
      | O => Some s1
      | S O => cont 128 191 s1
      | S (S _) =>
          match cont 128 191 s1 with
          | Some s2 => cont 128 191 s2
          | None => None
          end
      end
  end.

(** The rest of the string after its first rune; [None] on the empty
    string. *)
Definition skip_rune (s : bytes) : option bytes :=
  match s with
  | [] => None
  | c :: s' =>
      let x := code c in
      let seq :=
        if x <? 194 then None
        else if x <=? 223 then tail 0 128 191 s'
        else if x =? 224 then tail 1 160 191 s'
        else if x <=? 236 then tail 1 128 191 s'
        else if x =? 237 then tail 1 128 159 s'
        else if x <=? 239 then tail 1 128 191 s'
        else if x =? 240 then tail 2 144 191 s'
        else if x <=? 243 then tail 2 128 191 s'
        else if x =? 244 then tail 2 128 143 s'
        else None in
      match seq with
      | Some r => Some r
      | None => Some s'
      end
  end.

End Utf8.

(** ** The regular expressions of the program

    The two patterns of [main.go] use literals, the dot, the lazy and the
    greedy captured star of the dot, one or more white space, one or more
    captured digits, and the two anchors: the matcher below is the backtracking
    matcher for these nodes, which gives Go's leftmost-first match.  The
    loops over the dot step byte by byte; their captures agree with stepping
    rune by rune because every node that follows such a loop in the two
    patterns starts on an ASCII byte or ends the pattern. *)
Module Regexp.

Inductive node : Type :=
| Lit (l : bytes)       (* literal text *)
| AnyChar               (* the dot: one rune other than newline *)
| LazyAny               (* captured lazy star of the dot *)
| GreedyAny             (* captured greedy star of the dot *)
| Spaces                (* one or more white space, greedy *)
| Digits                (* captured one or more digits, greedy *)
| Eol.                  (* end of text *)

(** A pattern: whether it starts with a caret, and its nodes. *)
Record t : Type := mk { bol : bool; nodes : list node }.

(** The result of a match from a position: the groups and the rest of the
    input after the match. *)
Definition result : Type := (list bytes * bytes)%type.

Definition is_newline (c : ascii) : bool := code c =? 10.

(** The dot without the s flag. *)
Definition dot (c : ascii) : bool := negb (is_newline c).

(** The class of white space: tab, newline, form feed, return, space. *)
Definition space (c : ascii) : bool :=
  let x := code c in
  (x =? 9) || (x =? 10) || (x =? 12) || (x =? 13) || (x =? 32).

Definition capture (acc : bytes) (r : option result) : option result :=
  match r with
  | Some (caps, rest) => Some (rev acc :: caps, rest)
  | None => None
  end.

(** A lazy star over a class, then [k]: prefers the shortest repetition. *)
Fixpoint lazy_star (cls : ascii -> bool) (k : bytes -> option result)
    (acc s : bytes) : option result :=
  match capture acc (k s) with
  | Some r => Some r
  | None =>
      match s with
      | c :: s' => if cls c then lazy_star cls k (c :: acc) s' else None
      | [] => None
      end
  end.

(** A greedy star over a class, then [k]: prefers the longest repetition. *)
Fixpoint greedy_star (cls : ascii -> bool) (k : bytes -> option result)
    (acc s : bytes) : option result :=
  match s with
  | c :: s' =>
      if cls c then
        match greedy_star cls k (c :: acc) s' with
        | Some r => Some r
        | None => capture acc (k s)
        end
      else capture acc (k s)
  | [] => capture acc (k s)
  end.

Definition drop_group (r : option result) : option result :=
  match r with
  | Some (_ :: caps, rest) => Some (caps, rest)
  | _ => None
  end.

Fixpoint match_here (p : list node) (s : bytes) {struct p} : option result :=
  match p with
  | [] => Some ([], s)
  | Lit l :: p' =>
      match strip_prefix l s with
      | Some s' => match_here p' s'
      | None => None
      end
  | AnyChar :: p' =>
      match s with
      | c :: _ =>
          if is_newline c then None
          else match Utf8.skip_rune s with
               | Some s' => match_here p' s'
               | None => None
               end
      | [] => None
      end
  | LazyAny :: p' => lazy_star dot (match_here p') [] s
  | GreedyAny :: p' => greedy_star dot (match_here p') [] s
  | Spaces :: p' =>
      match s with
      | c :: s' =>
          if space c
          then drop_group (greedy_star space (match_here p') [] s')
          else None
      | [] => None
      end
  | Digits :: p' =>
      match s with
      | c :: s' =>
          if isDigit c then greedy_star isDigit (match_here p') [c] s'
          else None
      | [] => None
      end
  | Eol :: p' =>
      match s with
      | [] => match_here p' s
      | _ :: _ => None
      end
  end.

(** The leftmost start position at which the nodes match. *)
Fixpoint search (p : list node) (s : bytes) : option (bytes * result) :=
  match match_here p s with
  | Some r => Some (s, r)
  | None =>
      match s with
      | [] => None
      | _ :: s' => search p s'
      end
  end.

Definition find (re : t) (s : bytes) : option (bytes * result) :=
  if bol re then
    match match_here (nodes re) s with
    | Some r => Some (s, r)
    | None => None
    end
  else search (nodes re) s.

(** [Regexp.FindStringSubmatch]: [None] is the nil slice; otherwise
    element 0 is the text of the whole match and the groups follow. *)
Definition FindStringSubmatch (re : t) (s : bytes) : option (list bytes) :=
  match find re s with
  | Some (from, (caps, rest)) =>
      Some (firstn (List.length from - List.length rest) from :: caps)
  | None => None
  end.

(** [Regexp.MatchString]. *)
Definition MatchString (re : t) (s : bytes) : bool :=
  match find re s with
  | Some _ => true
  | None => false
  end.

End Regexp.

(** The pattern compiled in [parseAndStore], node by node: the groups are
    the timestamp, the module, the height, the txs and the appHash. *)
Definition committedStateRegex : Regexp.t :=
  Regexp.mk false
    [ Regexp.Lit (B "I["); Regexp.LazyAny;
      Regexp.Lit (B "] Committed State"); Regexp.Spaces;
      Regexp.Lit (B "module="); Regexp.LazyAny; Regexp.Spaces;
      Regexp.Lit (B "height="); Regexp.LazyAny; Regexp.Spaces;
      Regexp.Lit (B "txs="); Regexp.LazyAny; Regexp.Spaces;
      Regexp.Lit (B "appHash="); Regexp.GreedyAny ].

(** ** [strconv]: [ParseInt (s, 10, 64)] and [Atoi] on a 64-bit platform *)
Module Strconv.

Inductive NumError : Type := ErrSyntax | ErrRange.

Definition maxUint64 : Z := 18446744073709551615.
Definition maxInt64 : Z := 9223372036854775807.
Definition minInt64 : Z := -9223372036854775808.

(** The digit loop of [ParseUint] in base 10: a byte that is no digit is a
    syntax error with value 0; the loop leaves at the first digit that
    overflows, with the largest value and a range error. *)
Fixpoint ParseUint_loop (s : bytes) (n : Z) : Z * option NumError :=
  match s with
  | [] => (n, None)
  | c :: s' =>
      if isDigit c then
        if maxUint64 / 10 + 1 <=? n then (maxUint64, Some ErrRange)
        else
          let n1 := n * 10 + digit_val c in
          if maxUint64 <? n1 then (maxUint64, Some ErrRange)
          else ParseUint_loop s' n1
      else (0, Some ErrSyntax)
  end.

Definition ParseUint (s : bytes) : Z * option NumError :=
  match s with
  | [] => (0, Some ErrSyntax)
  | _ :: _ => ParseUint_loop s 0
  end.

Definition ParseInt (s : bytes) : Z * option NumError :=
  match s with
  | [] => (0, Some ErrSyntax)
  | c :: s' =>
      let neg := byte_eqb c "-" in
      let body := if byte_eqb c "+" || neg then s' else s in
      match ParseUint body with
      | (_, Some ErrSyntax) => (0, Some ErrSyntax)
      | (un, _) =>
          let cutoff := 9223372036854775808 in
          if negb neg && (cutoff <=? un) then (cutoff - 1, Some ErrRange)
          else if neg && (cutoff <? un) then (- cutoff, Some ErrRange)
          else (if neg then - un else un, None)
      end
  end.

(** The fast path of [Atoi] for strings shorter than 19 bytes. *)
Fixpoint Atoi_loop (s : bytes) (n : Z) : option Z :=
  match s with
  | [] => Some n
  | c :: s' => if isDigit c then Atoi_loop s' (n * 10 + digit_val c) else None
  end.

Definition Atoi (s : bytes) : Z * option NumError :=
  if (0 <? List.length s)%nat && (List.length s <? 19)%nat then
    match s with
    | [] => (0, Some ErrSyntax)
    | c :: s' =>
        let neg := byte_eqb c "-" in
        let body := if neg || byte_eqb c "+" then s' else s in
        match body with
        | [] => (0, Some ErrSyntax)
        | _ :: _ =>
            match Atoi_loop body 0 with
            | Some n => (if neg then - n else n, None)
            | None => (0, Some ErrSyntax)
            end
        end
    end
  else ParseInt s.

End Strconv.

(** ** [strings.TrimSpace] *)
Module Strings.

Definition of_codes (l : list nat) : bytes := map ascii_of_nat l.

(** The UTF-8 encodings of the runes [unicode.IsSpace] accepts. *)
Definition space_encodings : list bytes :=
  map of_codes
    [ [9]; [10]; [11]; [12]; [13]; [32]; [194; 133]; [194; 160];
      [225; 154; 128];
      [226; 128; 128]; [226; 128; 129]; [226; 128; 130]; [226; 128; 131];
      [226; 128; 132]; [226; 128; 133]; [226; 128; 134]; [226; 128; 135];
      [226; 128; 136]; [226; 128; 137]; [226; 128; 138];
      [226; 128; 168]; [226; 128; 169]; [226; 128; 175];
      [226; 129; 159]; [227; 128; 128] ]%nat.

Fixpoint strip_any (table : list bytes) (s : bytes) : option bytes :=
  match table with
  | [] => None
  | e :: table' =>
      match strip_prefix e s with
      | Some s' => Some s'
      | None => strip_any table' s
      end
  end.

Fixpoint trim_fuel (table : list bytes) (n : nat) (s : bytes) : bytes :=
  match n with
  | O => s
  | S n' =>
      match strip_any table s with
      | Some s' => trim_fuel table n' s'
      | None => s
      end
  end.

Definition TrimLeft (s : bytes) : bytes :=
  trim_fuel space_encodings (List.length s) s.

(** The trailing side decodes the last rune: the same table read from the
    end. *)
Definition TrimRight (s : bytes) : bytes :=
  rev (trim_fuel (map (@rev ascii) space_encodings) (List.length s) (rev s)).

Definition TrimSpace (s : bytes) : bytes := TrimRight (TrimLeft s).

End Strings.

(** ** [time]: instants, [Parse] for the layout of the program, [Sub] and
    [Seconds]

    An instant is the number of nanoseconds since January 1 of year 1,
    00:00:00 UTC, so that the zero [time.Time] is [0]. *)
Module Time.

Definition Time : Type := Z.
Definition Duration : Type := Z.

Definition zero : Time := 0.

Definition Second : Duration := 1000000000.
Definition minDuration : Duration := -9223372036854775808.
Definition maxDuration : Duration := 9223372036854775807.

Definition bind {A C : Type} (x : option A) (f : A -> option C) : option C :=
  match x with
  | Some a => f a
  | None => None
  end.

Notation "'do' x <- e ; k" := (bind e (fun x => k))
  (at level 10, x pattern, e at level 100, k at level 200).

(** [getnum]: one or two digits; with [fixed] exactly two. *)
Definition getnum (s : bytes) (fixed : bool) : option (Z * bytes) :=
  match s with
  | c0 :: s1 =>
      if isDigit c0 then
        match s1 with
        | c1 :: s2 =>
            if isDigit c1 then Some (digit_val c0 * 10 + digit_val c1, s2)
            else if fixed then None else Some (digit_val c0, s1)
        | [] => if fixed then None else Some (digit_val c0, s1)
        end
      else None
  | [] => None
  end.

(** [leadingInt] on the short strings [Parse] hands to [atoi]: the value
    of the leading digits and the rest. *)
Fixpoint leadingInt (s : bytes) (x : Z) : Z * bytes :=
  match s with
  | c :: s' => if isDigit c then leadingInt s' (x * 10 + digit_val c) else (x, s)
  | [] => (x, s)
  end.

(** [atoi] of package time: an optional sign, then digits only. *)
Definition atoi (s : bytes) : option Z :=
  let neg := match s with c :: _ => byte_eqb c "-" | [] => false end in
  let body :=
    match s with
    | c :: s' => if byte_eqb c "-" || byte_eqb c "+" then s' else s
    | [] => s
    end in
  match leadingInt body 0 with
  | (q, []) => Some (if neg then - q else q)
  | (_, _ :: _) => None
  end.

Definition literal (l : string) (s : bytes) : option bytes :=
  strip_prefix (B l) s.

Definition isLeap (year : Z) : bool :=
  (year mod 4 =? 0) && (negb (year mod 100 =? 0) || (year mod 400 =? 0)).

Definition daysIn (month year : Z) : Z :=
  if (month =? 2) && isLeap year then 29
  else nth (Z.to_nat (month - 1)) [31; 28; 31; 30; 31; 30; 31; 31; 30; 31; 30; 31] 0.

Definition daysBefore (month : Z) : Z :=
  nth (Z.to_nat (month - 1)) [0; 31; 59; 90; 120; 151; 181; 212; 243; 273; 304; 334] 0.

(** [time.Date] in UTC, for fields already in range. *)
Definition Date (year month day hour min sec nsec : Z) : Time :=
  let y := year - 1 in
  let days :=
    365 * y + y / 4 - y / 100 + y / 400
    + daysBefore month + (if (2 <? month) && isLeap year then 1 else 0)
    + (day - 1) in
  (((days * 24 + hour) * 60 + min) * 60 + sec) * Second + nsec.

(** [parseNanoseconds (value, 4)]: a period or a comma, then [atoi] of
    three bytes, scaled to nanoseconds; a negative value is out of range. *)
Definition parseNanoseconds (s : bytes) : option (Z * bytes) :=
  match s with
  | c :: d1 :: d2 :: d3 :: rest =>
      if byte_eqb c "." || byte_eqb c "," then
        do ns <- atoi [d1; d2; d3];
        if ns <? 0 then None else Some (ns * 1000000, rest)
      else None
  | _ => None
  end.

(** [time.Parse ("2006-01-02|15:04:05.000", value)]: [None] stands for any
    error, where Go returns the zero [Time]. *)
Definition Parse (value : bytes) : option Time :=
  match value with
  | y0 :: y1 :: y2 :: y3 :: v1 =>
      if isDigit y0 then
        do year <- atoi [y0; y1; y2; y3];
        do v2 <- literal "-" v1;
        do (month, v3) <- getnum v2 true;
        if (month <=? 0) || (12 <? month) then None else
        do v4 <- literal "-" v3;
        do (day, v5) <- getnum v4 true;
        do v6 <- literal "|" v5;
        do (hour, v7) <- getnum v6 false;
        if (hour <? 0) || (24 <=? hour) then None else
        do v8 <- literal ":" v7;
        do (min, v9) <- getnum v8 true;
        if (min <? 0) || (60 <=? min) then None else
        do v10 <- literal ":" v9;
        do (sec, v11) <- getnum v10 true;
        if (sec <? 0) || (60 <=? sec) then None else
        do (nsec, v12) <- parseNanoseconds v11;
        match v12 with
        | _ :: _ => None
        | [] =>
            if (day <? 1) || (daysIn month year <? day) then None
            else Some (Date year month day hour min sec nsec)
        end
      else None
  | _ => None
  end.

(** [t.Sub (u)]: the difference, saturated to the range of [Duration]. *)
Definition Sub (t u : Time) : Duration :=
  let d := t - u in
  if d <? minDuration then minDuration
  else if maxDuration <? d then maxDuration
  else d.

Definition float64 (z : Z) : float :=
  if z <? 0 then PrimFloat.opp (PrimFloat.of_uint63 (Uint63.of_Z (- z)))
  else PrimFloat.of_uint63 (Uint63.of_Z z).

(** [d.Seconds ()]: the whole seconds plus the remaining nanoseconds over
    1e9, in binary64. *)
Definition Seconds (d : Duration) : float :=
  PrimFloat.add (float64 (Z.quot d Second))
                (PrimFloat.div (float64 (Z.rem d Second)) 1e9%float).

End Time.

(** ** The data model *)

Record CommittedState : Type := mkCommittedState {
  Timestamp : Time.Time;
  Module_ : bytes;
  Height : Z;
  Txs : Z;
  AppHash : bytes
}.

Record BlockTimeGap : Type := mkBlockTimeGap {
  gTimestamp : Time.Time;
  gHeight : Z;
  gTxs : Z;
  TimeDiff : float;
  PreviousHeight : Z
}.

(** ** The document store

    A collection is the list of its documents in natural order, each with
    its [_id], and whether the unique index on [height] exists.  What the
    server or the network may refuse is scripted in [faults]: every call of
    the driver takes the head of the script, [Some msg] makes that call
    fail with the message, [None] (or an empty script) lets it through. *)
Module Mongo.

Inductive WriteError : Type :=
| DuplicateKey                 (* code 11000 *)
| OtherError (msg : bytes).

(** [mongo.IsDuplicateKeyError]. *)
Definition IsDuplicateKeyError (e : WriteError) : bool :=
  match e with
  | DuplicateKey => true
  | OtherError _ => false
  end.

Record Collection (A : Type) : Type := mkCollection {
  docs : list (nat * A);
  unique : bool;
  next_id : nat
}.
Arguments mkCollection {A}.
Arguments docs {A}.
Arguments unique {A}.
Arguments next_id {A}.

Definition empty {A : Type} : Collection A := mkCollection [] false 0%nat.

Definition heights {A : Type} (height : A -> Z) (c : Collection A) : list Z :=
  map (fun d => height (snd d)) (docs c).

Definition has_height {A : Type} (height : A -> Z) (c : Collection A) (h : Z) : bool :=
  existsb (Z.eqb h) (heights height c).

(** [InsertOne] when the call reaches the server. *)
Definition insert {A : Type} (height : A -> Z) (c : Collection A) (d : A)
  : Collection A * option WriteError :=
  if unique c && has_height height c (height d) then (c, Some DuplicateKey)
  else (mkCollection (docs c ++ [(next_id c, d)]) (unique c) (S (next_id c)), None).

(** [DeleteOne] by [_id]: the first document with that [_id] goes. *)
Fixpoint delete_id {A : Type} (id : nat) (l : list (nat * A)) : list (nat * A) :=
  match l with
  | [] => []
  | d :: l' => if Nat.eqb (fst d) id then l' else d :: delete_id id l'
  end.

Fixpoint has_dup (l : list Z) : bool :=
  match l with
  | [] => false
  | h :: l' => existsb (Z.eqb h) l' || has_dup l'
  end.

(** The message of the server when a unique index cannot be built. *)
Definition dup_key_message : bytes :=
  B "(DuplicateKey) Index build failed: E11000 duplicate key error collection: index: height_1 dup key".

(** [Indexes().CreateOne] of the unique index on [height], when the call
    reaches the server: it fails on a collection that holds a height
    twice. *)
Definition create_unique {A : Type} (height : A -> Z) (c : Collection A)
  : Collection A * option bytes :=
  if unique c then (c, None)
  else if has_dup (heights height c) then (c, Some dup_key_message)
  else (mkCollection (docs c) true (next_id c), None).

(** The pipeline of [removeDuplicates]: one group per height, in the order
    the heights are first met, with the [_id]s pushed in the order the
    documents are met; then only the groups of more than one. *)
Fixpoint add_to_group (h : Z) (id : nat) (gs : list (Z * list nat)) : list (Z * list nat) :=
  match gs with
  | [] => [(h, [id])]
  | (h', ids) :: gs' =>
      if Z.eqb h' h then (h', ids ++ [id]) :: gs'
      else (h', ids) :: add_to_group h id gs'
  end.

Definition group_by_height {A : Type} (height : A -> Z) (l : list (nat * A))
  : list (Z * list nat) :=
  fold_left (fun gs d => add_to_group (height (snd d)) (fst d) gs) l [].

Definition aggregate_duplicates {A : Type} (height : A -> Z) (c : Collection A)
  : list (Z * list nat) :=
  filter (fun g => (1 <? List.length (snd g))%nat) (group_by_height height (docs c)).

End Mongo.

Record DB : Type := mkDB {
  committed_state : Mongo.Collection CommittedState;
  block_time_gap : Mongo.Collection BlockTimeGap;
  faults : list (option bytes)
}.

(** One call of the driver: the head of the script decides whether it
    reaches the server. *)
Definition next_fault (d : DB) : option bytes * DB :=
  match faults d with
  | [] => (None, d)
  | f :: fs => (f, mkDB (committed_state d) (block_time_gap d) fs)
  end.

(** The lines [log.Printf] writes, one constructor per call site. *)
Inductive LogEntry : Type :=
| LogCommittedWriteError (e : Mongo.WriteError)
| LogGapWriteError (e : Mongo.WriteError)
| LogGapDetected (timeDiff : float) (previous height txs : Z)
| LogReadDirError (dir : bytes)
| LogHistoricalStart
| LogHistoricalFile (path : bytes)
| LogHistoricalDone
| LogOpenError (path : bytes)
| LogReadError (path : bytes)
| LogWatchOpenError (path : bytes)
| LogWatchStart (path : bytes)
| LogRotation
| LogWatchReadError
| LogWatcherError
| LogDuplicatesFound (collection field : bytes)
| LogIndexCreated (collection : bytes)
| LogIndexExists (collection : bytes)
| LogDeleteError
| LogDuplicatesCleaned (count : nat).

(** The state the functions of [main.go] share: the database, the global
    [lastCommittedState] and the log written so far. *)
Record State : Type := mkState {
  db : DB;
  lastCommittedState : option CommittedState;
  log : list LogEntry
}.

Definition InsertCommitted (d : DB) (e : CommittedState) : DB * option Mongo.WriteError :=
  match next_fault d with
  | (Some msg, d') => (d', Some (Mongo.OtherError msg))
  | (None, d') =>
      let (c, err) := Mongo.insert Height (committed_state d') e in
      (mkDB c (block_time_gap d') (faults d'), err)
  end.

Definition InsertGap (d : DB) (g : BlockTimeGap) : DB * option Mongo.WriteError :=
  match next_fault d with
  | (Some msg, d') => (d', Some (Mongo.OtherError msg))
  | (None, d') =>
      let (c, err) := Mongo.insert gHeight (block_time_gap d') g in
      (mkDB (committed_state d') c (faults d'), err)
  end.

(** ** [parseAndStore] *)

Definition add_log (e : LogEntry) (st : State) : State :=
  mkState (db st) (lastCommittedState st) (log st ++ [e]).

Definition set_db (d : DB) (st : State) : State :=
  mkState d (lastCommittedState st) (log st).

Definition or_zero {A : Type} (zero : A) (x : option A) : A :=
  match x with
  | Some a => a
  | None => zero
  end.

(** The entry built from the groups of a match; every parse error is
    dropped and the value the library returned with it is kept. *)
Definition entry_of_matches (matches : list bytes) : CommittedState :=
  let timestamp := or_zero Time.zero (Time.Parse (nth 1 matches [])) in
  let height := fst (Strconv.ParseInt (nth 3 matches [])) in
  let txs := fst (Strconv.Atoi (nth 4 matches [])) in
  {| Timestamp := timestamp;
     Module_ := nth 2 matches [];
     Height := height;
     Txs := txs;
     AppHash := Strings.TrimSpace (nth 5 matches []) |}.

(** The line parser: the entry of a line that matches, [None] otherwise. *)
Definition parse_line (line : bytes) : option CommittedState :=
  match Regexp.FindStringSubmatch committedStateRegex line with
  | Some matches =>
      if (0 <? List.length matches)%nat then Some (entry_of_matches matches)
      else None
  | None => None
  end.

(** The insert into [committed_state]: only an error that is no duplicate
    key is logged. *)
Definition store_committed (entry : CommittedState) (st : State) : State :=
  let (d, err) := InsertCommitted (db st) entry in
  let st1 := set_db d st in
  match err with
  | Some e =>
      if Mongo.IsDuplicateKeyError e then st1
      else add_log (LogCommittedWriteError e) st1
  | None => st1
  end.

Definition timeDiff_of (entry last : CommittedState) : float :=
  Time.Seconds (Time.Sub (Timestamp entry) (Timestamp last)).

Definition gapEntry_of (entry last : CommittedState) : BlockTimeGap :=
  {| gTimestamp := Timestamp entry;
     gHeight := Height entry;
     gTxs := Txs entry;
     TimeDiff := timeDiff_of entry last;
     PreviousHeight := Height last |}.

(** The check against [lastCommittedState]. *)
Definition check_gap (entry : CommittedState) (st : State) : State :=
  match lastCommittedState st with
  | Some last =>
      let timeDiff := timeDiff_of entry last in
      if PrimFloat.leb 5%float timeDiff then
        let (d, err) := InsertGap (db st) (gapEntry_of entry last) in
        let st1 := set_db d st in
        match err with
        | Some e =>
            if Mongo.IsDuplicateKeyError e then st1
            else add_log (LogGapWriteError e) st1
        | None =>
            add_log (LogGapDetected timeDiff (Height last) (Height entry) (Txs entry)) st1
        end
      else st
  | None => st
  end.

Definition set_last (entry : CommittedState) (st : State) : State :=
  mkState (db st) (Some entry) (log st).

Definition process_entry (entry : CommittedState) (st : State) : State :=
  set_last entry (check_gap entry (store_committed entry st)).

Definition parseAndStore (line : bytes) (st : State) : State :=
  match parse_line line with
  | Some entry => process_entry entry st
  | None => st
  end.

(** The database once [ensureIndexes] has run on an empty store. *)
Definition fresh_db : DB :=
  mkDB (Mongo.mkCollection [] true 0) (Mongo.mkCollection [] true 0) [].

Definition initial_state : State := mkState fresh_db None [].

Definition line10 : bytes :=
  B "I[2024-01-01|00:00:05.000] Committed State module=x height=10 txs=3 appHash=abc".
Definition line11 : bytes :=
  B "I[2024-01-01|00:00:11.000] Committed State module=x height=11 txs=1 appHash=def".

Definition event10 : CommittedState :=
  mkCommittedState (Time.Date 2024 1 1 0 0 5 0) (B "x") 10 3 (B "abc").
Definition event11 : CommittedState :=
  mkCommittedState (Time.Date 2024 1 1 0 0 11 0) (B "x") 11 1 (B "def").

(** ** [bufio.Scanner] with [ScanLines]

    The scanner is read to its end: it yields every line up to its
    newline, without one trailing carriage return, and at the end of the
    input the last line without a newline too, when it is not empty.  A
    line of [MaxScanTokenSize] bytes or more before its newline stops the
    scanner with [ErrTooLong], after it has read those bytes. *)
Module Bufio.

Definition MaxScanTokenSize : Z := 65536.

Definition dropCR (l : bytes) : bytes :=
  match rev l with
  | c :: r => if code c =? 13 then rev r else l
  | [] => l
  end.

(** The result of a scan: the tokens, the number of bytes read from the
    reader, and whether the scanner stopped with [ErrTooLong]. *)
Definition scan_result : Type := (list bytes * Z * bool)%type.

Definition read_one (r : scan_result) : scan_result :=
  let '(toks, k, e) := r in (toks, k + 1, e).

Definition emit (tok : bytes) (r : scan_result) : scan_result :=
  let '(toks, k, e) := r in (tok :: toks, k + 1, e).

(** [cur] is the line read so far, last byte first, and [n] its length. *)
Fixpoint scan_from (cur : bytes) (n : Z) (data : bytes) : scan_result :=
  if MaxScanTokenSize <=? n then ([], 0, true)
  else
    match data with
    | [] => (match cur with [] => [] | _ :: _ => [dropCR (rev cur)] end, 0, false)
    | c :: rest =>
        if Regexp.is_newline c then emit (dropCR (rev cur)) (scan_from [] 0 rest)
        else read_one (scan_from (c :: cur) (n + 1) rest)
    end.

Definition Scan (data : bytes) : scan_result := scan_from [] 0 data.

End Bufio.

(** ** The file system

    The world outside the program: the one directory the program reads,
    with its entries as [os.ReadDir] lists them, and the content of every
    inode.  A path of the program is [filepath.Join] of that directory and
    a name. *)
Module Fs.

Record Node : Type := mkNode {
  Name : bytes;
  IsDir : bool;
  ino : nat;
  readable : bool
}.

Record FS : Type := mkFS {
  dir : bytes;
  listable : bool;
  entries : list Node;
  content : nat -> bytes
}.

(** [filepath.Clean] where the separator is the slash.  The elements of a
    path are the runs of bytes between separators. *)
Definition is_sep (c : ascii) : bool := byte_eqb c "/".

Fixpoint elements_from (cur path : bytes) : list bytes :=
  match path with
  | [] => [rev cur]
  | c :: rest =>
      if is_sep c then rev cur :: elements_from [] rest
      else elements_from (c :: cur) rest
  end.

Definition elements (path : bytes) : list bytes := elements_from [] path.

(** One element in the loop of [Clean]; [out] holds the elements written
    so far, the last one first.  An empty element and the single period
    are skipped.  The double period takes back the last element written,
    unless that is a double period itself or nothing is written: then it
    is written when the path is not rooted and dropped when it is (a
    rooted path never has a double period written). *)
Definition clean_element (rooted : bool) (out : list bytes) (e : bytes) : list bytes :=
  if bytes_eqb e [] || bytes_eqb e (B ".") then out
  else if bytes_eqb e (B "..") then
    match out with
    | last :: out' =>
        if bytes_eqb last (B "..") then (if rooted then out else e :: out) else out'
    | [] => if rooted then [] else [e]
    end
  else e :: out.

Fixpoint join_elements (l : list bytes) : bytes :=
  match l with
  | [] => []
  | [e] => e
  | e :: l' => e ++ B "/" ++ join_elements l'
  end.

Definition Clean (path : bytes) : bytes :=
  match path with
  | [] => B "."
  | c :: _ =>
      let rooted := is_sep c in
      let out := fold_left (clean_element rooted) (elements path) [] in
      let body := join_elements (rev out) in
      let text := if rooted then B "/" ++ body else body in
      match text with
      | [] => B "."
      | _ :: _ => text
      end
  end.

(** [filepath.Join] of two elements: the elements from the first one that
    is not empty on, joined by the separator and cleaned. *)
Definition Join (d name : bytes) : bytes :=
  match d, name with
  | [], [] => []
  | [], _ :: _ => Clean name
  | _ :: _, _ => Clean (d ++ B "/" ++ name)
  end.

Definition ReadDir (fs : FS) (d : bytes) : option (list Node) :=
  if bytes_eqb d (dir fs) && listable fs then Some (entries fs) else None.

Inductive OpenError : Type := ErrNotExist | ErrPermission.

(** [os.IsNotExist]. *)
Definition IsNotExist (e : OpenError) : bool :=
  match e with
  | ErrNotExist => true
  | ErrPermission => false
  end.

(** An open file: the inode it was opened on and the offset of the
    descriptor. *)
Record File : Type := mkFile {
  f_node : Node;
  f_pos : Z
}.

Definition lookup (fs : FS) (path : bytes) : option Node :=
  find (fun e => bytes_eqb (Join (dir fs) (Name e)) path) (entries fs).

(** [os.Open]: the descriptor starts at offset 0. *)
Definition Open (fs : FS) (path : bytes) : File + OpenError :=
  match lookup fs path with
  | None => inr ErrNotExist
  | Some e => if readable e then inl (mkFile e 0) else inr ErrPermission
  end.

(** [os.Stat] then [Size]. *)
Definition Size (fs : FS) (path : bytes) : option Z :=
  match lookup fs path with
  | None => None
  | Some e => Some (Z.of_nat (List.length (content fs (ino e))))
  end.

(** What a reader on the file gets from its offset on; [None] is the read
    error of a directory. *)
Definition remaining (fs : FS) (f : File) : option bytes :=
  if IsDir (f_node f) then None
  else Some (skipn (Z.to_nat (f_pos f)) (content fs (ino (f_node f)))).

End Fs.

(** The loop [for scanner.Scan() { parseAndStore(scanner.Text(), db) }]. *)
Definition feed (lines : list bytes) (st : State) : State :=
  fold_left (fun s line => parseAndStore line s) lines st.

(** ** [processSingleFile] *)
Definition processSingleFile (fs : Fs.FS) (filePath : bytes) (st : State) : State :=
  match Fs.Open fs filePath with
  | inr err =>
      if negb (Fs.IsNotExist err) then add_log (LogOpenError filePath) st
      else st
  | inl file =>
      match Fs.remaining fs file with
      | None => add_log (LogReadError filePath) st
      | Some data =>
          let '(lines, _, tooLong) := Bufio.Scan data in
          let st1 := feed lines st in
          if tooLong then add_log (LogReadError filePath) st1 else st1
      end
  end.

(** ** [processHistoricalLogs] *)

(** The bytes that are operators of Go's pattern syntax. *)
Definition is_meta (c : ascii) : bool :=
  existsb (byte_eqb c) (B "\.+*?()|[]{}^$").

(** [mainLogName] as it is read when it is pasted into the pattern without
    quoting: a period is the dot, any other ASCII byte that is no operator
    stands for itself.  Names with other operators or with bytes outside
    ASCII are outside this embedding ([None]). *)
Fixpoint name_nodes (name : bytes) : option (list Regexp.node) :=
  match name with
  | [] => Some []
  | c :: name' =>
      match name_nodes name' with
      | None => None
      | Some ns =>
          if byte_eqb c "." then Some (Regexp.AnyChar :: ns)
          else if is_meta c || (128 <=? code c) then None
          else Some (Regexp.Lit [c] :: ns)
      end
  end.

(** The pattern of [processHistoricalLogs]: a caret, the name as pasted,
    a quoted period, one or more captured digits, the end of the text. *)
Definition historicalRegex (mainLogName : bytes) : option Regexp.t :=
  match name_nodes mainLogName with
  | Some ns =>
      Some (Regexp.mk true (ns ++ [Regexp.Lit (B "."); Regexp.Digits; Regexp.Eol]))
  | None => None
  end.

(** [strconv.Atoi] of group 1, the error dropped. *)
Definition suffix_number (re : Regexp.t) (name : bytes) : Z :=
  match Regexp.FindStringSubmatch re name with
  | Some ms => fst (Strconv.Atoi (nth 1 ms []))
  | None => 0
  end.

(** [sort.Slice]: Go promises a sorted permutation and no more (the sort is
    not stable); the embedding takes the insertion sort, which is one.  Up
    to twelve elements it is the sort Go runs; beyond, Go may leave
    elements that compare equal in another order. *)
Fixpoint insert_by {A : Type} (less : A -> A -> bool) (x : A) (l : list A) : list A :=
  match l with
  | [] => [x]
  | y :: l' => if less y x then y :: insert_by less x l' else x :: y :: l'
  end.

Definition sort_Slice {A : Type} (less : A -> A -> bool) (l : list A) : list A :=
  fold_right (insert_by less) [] l.

(** The names the first loop keeps. *)
Definition historicalLogs (re : Regexp.t) (files : list Fs.Node) : list bytes :=
  map Fs.Name
    (filter (fun file => negb (Fs.IsDir file) && Regexp.MatchString re (Fs.Name file)) files).

Definition less_suffix (re : Regexp.t) (a b : bytes) : bool :=
  suffix_number re a <? suffix_number re b.

(** The last loop: every file is announced in the log and processed. *)
Definition process_files (fs : Fs.FS) (logDir : bytes) (names : list bytes) (st : State)
  : State :=
  fold_left
    (fun s fileName =>
       let filePath := Fs.Join logDir fileName in
       processSingleFile fs filePath (add_log (LogHistoricalFile filePath) s))
    names st.

Definition processHistoricalLogs_re (re : Regexp.t) (fs : Fs.FS) (logDir : bytes)
    (st : State) : State :=
  let st0 := add_log LogHistoricalStart st in
  match Fs.ReadDir fs logDir with
  | None => add_log (LogReadDirError logDir) st0
  | Some files =>
      let sorted := sort_Slice (less_suffix re) (historicalLogs re files) in
      add_log LogHistoricalDone (process_files fs logDir sorted st0)
  end.

Definition processHistoricalLogs (fs : Fs.FS) (logDir mainLogName : bytes) (st : State)
  : option State :=
  match historicalRegex mainLogName with
  | Some re => Some (processHistoricalLogs_re re fs logDir st)
  | None => None
  end.

(** ** [watchLogFile] *)
Module Fsnotify.

Definition Create : Z := 1.
Definition Write : Z := 2.
Definition Remove : Z := 4.
Definition Rename : Z := 8.
Definition Chmod : Z := 16.

Record Event : Type := mkEvent { Name : bytes; Op : Z }.

(** [event.Op & flag == flag]. *)
Definition Has (op flag : Z) : bool := Z.land op flag =? flag.

End Fsnotify.

(** The two variables of [watchLogFile], and the files it has closed. *)
Record Tailer : Type := mkTailer {
  file : option Fs.File;
  currentPos : Z;
  closed : list Fs.File
}.

(** [openAndSeek]: the seek of a fresh descriptor to [currentPos] does not
    fail on a file system of regular files and directories. *)
Definition openAndSeek (fs : Fs.FS) (filePath : bytes) (ts : Tailer * State)
  : Tailer * State :=
  let (t, st) := ts in
  match Fs.Open fs filePath with
  | inr _ =>
      (mkTailer None (currentPos t) (closed t), add_log (LogWatchOpenError filePath) st)
  | inl f =>
      (mkTailer (Some (Fs.mkFile (Fs.f_node f) (currentPos t))) (currentPos t) (closed t), st)
  end.

(** The start of [watchLogFile], up to the loop. *)
Definition watch_init (fs : Fs.FS) (filePath : bytes) (st : State) : Tailer * State :=
  let pos := or_zero 0 (Fs.Size fs filePath) in
  let (t, st1) := openAndSeek fs filePath (mkTailer None pos [], st) in
  (t, add_log (LogWatchStart filePath) st1).

(** The branch of a create notification. *)
Definition on_create (fs : Fs.FS) (filePath : bytes) (ts : Tailer * State)
  : Tailer * State :=
  let (t, st) := ts in
  let st1 := add_log LogRotation st in
  let closed1 :=
    match file t with
    | Some f => closed t ++ [f]
    | None => closed t
    end in
  openAndSeek fs filePath (mkTailer (file t) 0 closed1, st1).

(** The scan of the open file and the update of [currentPos]. *)
Definition read_new (fs : Fs.FS) (f : Fs.File) (ts : Tailer * State) : Tailer * State :=
  let (t, st) := ts in
  match Fs.remaining fs f with
  | None => (mkTailer (Some f) (Fs.f_pos f) (closed t), add_log LogWatchReadError st)
  | Some data =>
      let '(lines, k, tooLong) := Bufio.Scan data in
      let st1 := feed lines st in
      let st2 := if tooLong then add_log LogWatchReadError st1 else st1 in
      let pos := Fs.f_pos f + k in
      (mkTailer (Some (Fs.mkFile (Fs.f_node f) pos)) pos (closed t), st2)
  end.

(** The branch of a write notification. *)
Definition on_write (fs : Fs.FS) (filePath : bytes) (ts : Tailer * State)
  : Tailer * State :=
  let ts1 :=
    match file (fst ts) with
    | None => openAndSeek fs filePath ts
    | Some _ => ts
    end in
  match file (fst ts1) with
  | None => ts1
  | Some f => read_new fs f ts1
  end.

(** One notification, handled on the file system as it is then. *)
Definition handle_event (fs : Fs.FS) (filePath : bytes) (event : Fsnotify.Event)
    (ts : Tailer * State) : Tailer * State :=
  if negb (bytes_eqb (Fsnotify.Name event) filePath) then ts
  else
    let ts1 :=
      if Fsnotify.Has (Fsnotify.Op event) Fsnotify.Create
      then on_create fs filePath ts else ts in
    if Fsnotify.Has (Fsnotify.Op event) Fsnotify.Write
    then on_write fs filePath ts1 else ts1.

(** What the loop receives: a notification with the file system of that
    moment, or an error of the watcher. *)
Inductive Message : Type :=
| EventMsg (fs : Fs.FS) (event : Fsnotify.Event)
| ErrorMsg.

Definition handle_message (filePath : bytes) (m : Message) (ts : Tailer * State)
  : Tailer * State :=
  match m with
  | EventMsg fs event => handle_event fs filePath event ts
  | ErrorMsg => (fst ts, add_log LogWatcherError (snd ts))
  end.

(** [watchLogFile] on the messages received before a channel closes. *)
Definition watchLogFile (fs0 : Fs.FS) (filePath : bytes) (msgs : list Message)
    (st : State) : Tailer * State :=
  fold_left (fun ts m => handle_message filePath m ts) msgs (watch_init fs0 filePath st).

(** ** [createUniqueIndex] and [removeDuplicates]

    Both work on one collection; the state they thread is the collection,
    the script of faults and the log. *)
Section Index.

Context {A : Type} (height : A -> Z).

Record IndexState : Type := mkIndexState {
  coll : Mongo.Collection A;
  script : list (option bytes);
  ilog : list LogEntry
}.

Definition ilog_add (e : LogEntry) (s : IndexState) : IndexState :=
  mkIndexState (coll s) (script s) (ilog s ++ [e]).

Definition take_fault (s : IndexState) : option bytes * IndexState :=
  match script s with
  | [] => (None, s)
  | f :: fs => (f, mkIndexState (coll s) fs (ilog s))
  end.

(** [collection.Indexes().CreateOne] with the unique index on the field. *)
Definition CreateOne (s : IndexState) : IndexState * option bytes :=
  match take_fault s with
  | (Some msg, s1) => (s1, Some msg)
  | (None, s1) =>
      let (c, err) := Mongo.create_unique height (coll s1) in
      (mkIndexState c (script s1) (ilog s1), err)
  end.

(** [collection.Aggregate] with the pipeline of [removeDuplicates]. *)
Definition Aggregate (s : IndexState) : IndexState * (list (Z * list nat) + bytes) :=
  match take_fault s with
  | (Some msg, s1) => (s1, inr msg)
  | (None, s1) => (s1, inl (Mongo.aggregate_duplicates height (coll s1)))
  end.

(** [collection.DeleteOne] by [_id]; [true] when the call failed. *)
Definition DeleteOne (id : nat) (s : IndexState) : IndexState * bool :=
  match take_fault s with
  | (Some _, s1) => (s1, true)
  | (None, s1) =>
      (mkIndexState
         (Mongo.mkCollection (Mongo.delete_id id (Mongo.docs (coll s1)))
            (Mongo.unique (coll s1)) (Mongo.next_id (coll s1)))
         (script s1) (ilog s1), false)
  end.

(** The inner loop over [idsToDelete], with [duplicateCount]. *)
Definition delete_ids (ids : list nat) (sc : IndexState * nat) : IndexState * nat :=
  fold_left
    (fun (acc : IndexState * nat) id =>
       let (s, count) := acc in
       let (s1, failed) := DeleteOne id s in
       if failed then (ilog_add LogDeleteError s1, count) else (s1, S count))
    ids sc.

(** The loop over the cursor: the first [_id] of a group is kept.  Every
    result of the pipeline decodes into the struct of the loop, so the
    branch of a failed [Decode] is never taken. *)
Definition delete_groups (groups : list (Z * list nat)) (sc : IndexState * nat)
  : IndexState * nat :=
  fold_left
    (fun (acc : IndexState * nat) (g : Z * list nat) =>
       if (1 <? List.length (snd g))%nat then delete_ids (tl (snd g)) acc else acc)
    groups sc.

Definition removeDuplicates (s : IndexState) : IndexState * option bytes :=
  match Aggregate s with
  | (s1, inr err) => (s1, Some err)
  | (s1, inl groups) =>
      let (s2, duplicateCount) := delete_groups groups (s1, O) in
      ((if (0 <? duplicateCount)%nat then ilog_add (LogDuplicatesCleaned duplicateCount) s2
        else s2), None)
  end.

Inductive IndexError : Type :=
| CleanupFailed (err : bytes)
| StillFailing (err : bytes)
| CreateFailed (err : bytes).

Definition createUniqueIndex (fieldName collectionName : bytes) (s : IndexState)
  : IndexState * option IndexError :=
  match CreateOne s with
  | (s1, Some err) =>
      if Contains err (B "E11000 duplicate key error") then
        let s2 := ilog_add (LogDuplicatesFound collectionName fieldName) s1 in
        match removeDuplicates s2 with
        | (s3, Some err') => (s3, Some (CleanupFailed err'))
        | (s3, None) =>
            match CreateOne s3 with
            | (s4, Some err') => (s4, Some (StillFailing err'))
            | (s4, None) => (ilog_add (LogIndexCreated collectionName) s4, None)
            end
        end
      else if Contains err (B "IndexOptionsConflict") || Contains err (B "already exists")
      then (ilog_add (LogIndexExists collectionName) s1, None)
      else (s1, Some (CreateFailed err))
  | (s1, None) => (ilog_add (LogIndexCreated collectionName) s1, None)
  end.

End Index.

Arguments IndexState : clear implicits.
Arguments mkIndexState {A}.

(** ** [ensureIndexes]

    The lines of its log are its own two and, between them, those the
    two calls of [createUniqueIndex] write, in that order; [log.Fatalf]
    ends the program, so a failure is the state at the exit together with
    the collection and the error of the line it prints. *)
Inductive StartupLog : Type :=
| LogEnsuring
| LogIndexesReady
| LogOf (e : LogEntry).

Inductive Fatal : Type :=
| IndexFatal (collectionName : bytes) (err : IndexError).

Record Started : Type := mkStarted {
  s_db : DB;
  s_log : list StartupLog;
  s_fatal : option Fatal
}.

Definition ensureIndexes (d : DB) : Started :=
  let s0 := mkIndexState (committed_state d) (faults d) [] in
  match createUniqueIndex Height (B "height") (B "committed_state") s0 with
  | (s1, Some err) =>
      mkStarted (mkDB (coll s1) (block_time_gap d) (script s1))
                (LogEnsuring :: map LogOf (ilog s1))
                (Some (IndexFatal (B "committed_state") err))
  | (s1, None) =>
      let t0 := mkIndexState (block_time_gap d) (script s1) [] in
      match createUniqueIndex gHeight (B "height") (B "block_time_gap") t0 with
      | (t1, Some err) =>
          mkStarted (mkDB (coll s1) (coll t1) (script t1))
                    (LogEnsuring :: map LogOf (ilog s1 ++ ilog t1))
                    (Some (IndexFatal (B "block_time_gap") err))
      | (t1, None) =>
          mkStarted (mkDB (coll s1) (coll t1) (script t1))
                    (LogEnsuring :: map LogOf (ilog s1 ++ ilog t1) ++ [LogIndexesReady])
                    None
      end
  end.

Definition doc100a : CommittedState := mkCommittedState 0 (B "x") 100 1 (B "a").
Definition doc100b : CommittedState := mkCommittedState 5 (B "x") 100 2 (B "b").

(** * Statements and inputs

    The readings of the specification that the code is compared with, the
    terms the properties are stated in, and the concrete inputs of the
    examples. *)

Section RepairTerms.

Context {A : Type} (height : A -> Z).

Definition has (h : Z) (d : nat * A) : bool := Z.eqb (height (snd d)) h.

Definition ids_of (h : Z) (l : list (nat * A)) : list nat := map fst (filter (has h) l).

Definition tail_ids (g : Z * list nat) : list nat := tl (snd g).

Definition delete_all (ids : list nat) (l : list (nat * A)) : list (nat * A) :=
  fold_left (fun l id => Mongo.delete_id id l) ids l.

Definition set_docs (s : IndexState A) (l : list (nat * A)) : IndexState A :=
  mkIndexState (Mongo.mkCollection l (Mongo.unique (coll s)) (Mongo.next_id (coll s)))
               (script s) (ilog s).

(** The [_id]s the repair deletes: in every group all but the first. *)
Definition doomed (l : list (nat * A)) : list nat :=
  flat_map tail_ids (Mongo.group_by_height height l).

End RepairTerms.

Section SortByKeyTerms.

Context {X : Type} (key : X -> Z).

Definition less_key (a b : X) : bool := key a <? key b.

Definition le_key (a b : X) : Prop := key a <= key b.

End SortByKeyTerms.

(** Two states that differ at most in the [committed_state] collection. *)
Definition same_but_committed (a b : State) : Prop :=
  block_time_gap (db a) = block_time_gap (db b)
  /\ faults (db a) = faults (db b)
  /\ lastCommittedState a = lastCommittedState b
  /\ log a = log b.

(** A store that already holds the entry of height 10. *)
Definition dup_state : State :=
  mkState (mkDB (Mongo.mkCollection [(0%nat, event10)] true 1) (Mongo.mkCollection [] true 0) [])
          None [].

(** C7 as the specification states it: after an entry whose insert failed
    for a reason other than a duplicate key, the held entry is not that
    entry. *)
Definition held_is_last_stored (line : bytes) (st : State) : Prop :=
  forall e msg,
    parse_line line = Some e ->
    snd (InsertCommitted (db st) e) = Some (Mongo.OtherError msg) ->
    lastCommittedState (parseAndStore line st) = lastCommittedState st.

(** A store whose next call fails on the network. *)
Definition failing_state : State :=
  mkState (mkDB (Mongo.mkCollection [] true 0) (Mongo.mkCollection [] true 0)
                [Some (B "connection reset")])
          None [].

(** The entries of the lines that match, in order. *)
Definition entries_of (lines : list bytes) : list CommittedState :=
  flat_map (fun line => match parse_line line with Some e => [e] | None => [] end) lines.

(** C8 as the specification states it: a file that is missing when it is
    opened leaves a diagnostic in the log. *)
Definition missing_is_logged (fs : Fs.FS) (filePath : bytes) (st : State) : Prop :=
  Fs.Open fs filePath = inr Fs.ErrNotExist ->
  log (processSingleFile fs filePath st) <> log st.

(** An empty log directory. *)
Definition empty_fs : Fs.FS := Fs.mkFS (B "logs") true [] (fun _ => []).

(** A log directory whose live file may not be read. *)
Definition locked_fs : Fs.FS :=
  Fs.mkFS (B "logs") true [Fs.mkNode (B "stdout-xx.txt") false 1 false]
          (fun _ => line10).

(** The text of an instant in the layout of [parseAndStore]: the date as
    four, two and two digits with hyphens, a pipe, the time as two, two
    and two digits with colons, a period and three digits of
    milliseconds. *)
Definition digit (d : Z) : ascii := ascii_of_nat (Z.to_nat (48 + d)).

Definition two_digits (k : Z) : bytes := [digit (k / 10); digit (k mod 10)].

Definition layout_text (year month day hour min sec ms : Z) : bytes :=
  [digit (year / 1000); digit (year / 100 mod 10); digit (year / 10 mod 10);
   digit (year mod 10)]
  ++ B "-" ++ two_digits month ++ B "-" ++ two_digits day
  ++ B "|" ++ two_digits hour ++ B ":" ++ two_digits min ++ B ":" ++ two_digits sec
  ++ B "." ++ [digit (ms / 100); digit (ms / 10 mod 10); digit (ms mod 10)].

(** C4 as the specification states it: every field whose text fails to
    parse is zero in the entry. *)
Definition zero_on_failure (line : bytes) : Prop :=
  forall ms, Regexp.FindStringSubmatch committedStateRegex line = Some ms ->
  exists e, parse_line line = Some e
    /\ (Time.Parse (nth 1 ms []) = None -> Timestamp e = Time.zero)
    /\ (snd (Strconv.ParseInt (nth 3 ms [])) <> None -> Height e = 0)
    /\ (snd (Strconv.Atoi (nth 4 ms [])) <> None -> Txs e = 0).

(** The text of an integer starts with a minus sign. *)
Definition has_minus (s : bytes) : bool :=
  match s with
  | c :: _ => byte_eqb c "-"
  | [] => false
  end.

(** The value kept for an integer whose digits are out of the 64-bit
    range: the smallest 64-bit integer with a minus sign, the largest
    without. *)
Definition saturated (s : bytes) : Z :=
  if has_minus s then Strconv.minInt64 else Strconv.maxInt64.


(** A line whose height is one past the largest 64-bit integer. *)
Definition overflow_line : bytes :=
  B "I[2024-01-01|00:00:05.000] Committed State module=x height=9223372036854775808 txs=3 appHash=abc".

(** The lines of some bytes as the specification reads them: the complete
    lines, each ended by a newline (not part of the line), and the
    fragment after the last newline.  [cur] is the line read so far, last
    byte first. *)
Fixpoint split_lines_from (cur data : bytes) : list bytes * bytes :=
  match data with
  | [] => ([], rev cur)
  | c :: rest =>
      if Regexp.is_newline c then
        let (ls, fr) := split_lines_from [] rest in (rev cur :: ls, fr)
      else split_lines_from (c :: cur) rest
  end.

Definition complete_lines (data : bytes) : list bytes := fst (split_lines_from [] data).

Definition fragment (data : bytes) : bytes := snd (split_lines_from [] data).

(** The token of the fragment at the end of the input. *)
Definition fragment_tokens (fr : bytes) : list bytes :=
  match fr with
  | [] => []
  | _ :: _ => [Bufio.dropCR fr]
  end.

(** A line below the token limit of the scanner. *)
Definition short (l : bytes) : Prop := Z.of_nat (List.length l) < Bufio.MaxScanTokenSize.

(** The offset of an open file of the tailer is [currentPos]. *)
Definition tailer_inv (t : Tailer) : Prop :=
  forall f, file t = Some f -> Fs.f_pos f = currentPos t.

(** What the scan of a write notification does to the state. *)
Definition after_scan (data : bytes) (st : State) : State :=
  let '(lines, _, tooLong) := Bufio.Scan data in
  if tooLong then add_log LogWatchReadError (feed lines st) else feed lines st.

Definition scanned (data : bytes) : Z := snd (fst (Bufio.Scan data)).

Definition unread (fs : Fs.FS) (node : Fs.Node) (offset : Z) : bytes :=
  skipn (Z.to_nat offset) (Fs.content fs (Fs.ino node)).

(** C5 as the specification states it, for a write notification on an
    open regular file: the lines fed to the parser are the complete lines
    after the offset. *)
Definition write_feeds_complete_lines (fs : Fs.FS) (filePath : bytes) (f : Fs.File)
    (st : State) : Prop :=
  snd (handle_event fs filePath (Fsnotify.mkEvent filePath Fsnotify.Write)
         (mkTailer (Some f) (Fs.f_pos f) [], st))
  = feed (map Bufio.dropCR (complete_lines (unread fs (Fs.f_node f) (Fs.f_pos f)))) st.

Definition live_node : Fs.Node := Fs.mkNode (B "stdout-xx.txt") false 7 true.

(** The first 78 bytes of a line whose appHash is still being written. *)
Definition partial_line : bytes :=
  B "I[2024-01-01|00:00:05.000] Committed State module=x height=10 txs=3 appHash=ab".

(** The live file while its writer is in the middle of a line. *)
Definition partial_fs : Fs.FS :=
  Fs.mkFS (B "logs") true [live_node] (fun _ => partial_line).

(** The live file with the two lines of the example, each with its newline. *)
Definition two_lines_fs : Fs.FS :=
  Fs.mkFS (B "logs") true [live_node]
          (fun _ => line10 ++ [ascii_of_nat 10] ++ line11 ++ [ascii_of_nat 10]).

(** A name of the form the specification gives: the live name, a period,
    and one or more digits. *)
Definition is_rotated_name (mainLogName name : bytes) : bool :=
  match strip_prefix (mainLogName ++ B ".") name with
  | Some (d :: ds) => forallb isDigit (d :: ds)
  | _ => false
  end.

Definition segment (name : string) (inode : nat) : Fs.Node :=
  Fs.mkNode (B name) false inode true.

(** A log directory with two rotated segments, the live file, a directory
    and a file of another name. *)
Definition stray_fs : Fs.FS :=
  Fs.mkFS (B "logs") true
    [ segment "stdout-xx.txt" 0;
      segment "stdout-xx.txt.10" 1;
      segment "stdout-xx.txt.2" 2;
      Fs.mkNode (B "stdout-xx.txt.3") true 3 true;
      segment "stdout-xxAtxt.1" 4 ]
    (fun i => if Nat.eqb i 4 then line10 else []).



Definition no_newline (s : bytes) : Prop :=
  Forall (fun c => Regexp.is_newline c = false) s.

(** * Further terms: lines, invariants of the store, startup *)

(** The text of a committed-state line with the five fields given as
    bytes, one space between the fields. *)
Definition committed_line (ts m h t a : bytes) : bytes :=
  B "I[" ++ ts ++ B "] Committed State module=" ++ m ++ B " height=" ++ h
  ++ B " txs=" ++ t ++ B " appHash=" ++ a.

(** A number written with the decimal digits [ds], first digit first. *)
Definition number_text (ds : list Z) : bytes := map digit ds.

Definition number_value (ds : list Z) : Z := fold_left (fun n d => n * 10 + d) ds 0.

Definition decimal_digits (ds : list Z) : Prop :=
  ds <> [] /\ Forall (fun d => 0 <= d <= 9) ds.

(** A collection under its unique index: the index exists and no height
    occurs twice. *)
Definition unique_ok {A : Type} (height : A -> Z) (c : Mongo.Collection A) : Prop :=
  Mongo.unique c = true /\ Mongo.has_dup (Mongo.heights height c) = false.

Definition store_unique (st : State) : Prop :=
  unique_ok Height (committed_state (db st)) /\ unique_ok gHeight (block_time_gap (db st)).

(** The documents of both collections extend those of [d0]. *)
Definition extends_store (d0 : DB) (st : State) : Prop :=
  (exists more, Mongo.docs (committed_state (db st))
                = Mongo.docs (committed_state d0) ++ more)
  /\ (exists more, Mongo.docs (block_time_gap (db st))
                   = Mongo.docs (block_time_gap d0) ++ more).

(** Every stored gap is one of at least five seconds. *)
Definition gaps_over_threshold (st : State) : Prop :=
  Forall (fun d => PrimFloat.leb 5%float (TimeDiff (snd d)) = true)
         (Mongo.docs (block_time_gap (db st))).

(** The height of an entry is stored in [committed_state]. *)
Definition present (st : State) (e : CommittedState) : Prop :=
  Mongo.has_height Height (committed_state (db st)) (Height e) = true.

(** A store with the unique index on [committed_state] that answers every
    call. *)
Definition responsive_unique (st : State) : Prop :=
  Mongo.unique (committed_state (db st)) = true /\ faults (db st) = [].

(** The lines [processSingleFile] feeds to the parser. *)
Definition file_lines (fs : Fs.FS) (filePath : bytes) : list bytes :=
  match Fs.Open fs filePath with
  | inr _ => []
  | inl f =>
      match Fs.remaining fs f with
      | None => []
      | Some data => fst (fst (Bufio.Scan data))
      end
  end.

(** * Further terms: the tailer and the historical pass *)

(** The tokens a scan of some bytes yields. *)
Definition scan_lines (data : bytes) : list bytes := fst (fst (Bufio.Scan data)).

(** The same database and the same held entry; the logs may differ. *)
Definition same_store (a b : State) : Prop :=
  db a = db b /\ lastCommittedState a = lastCommittedState b.

Definition write_event (filePath : bytes) : Fsnotify.Event :=
  Fsnotify.mkEvent filePath Fsnotify.Write.

Definition create_event (filePath : bytes) : Fsnotify.Event :=
  Fsnotify.mkEvent filePath Fsnotify.Create.

(** The bytes of the inode of a node. *)
Definition bytes_of (fs : Fs.FS) (node : Fs.Node) : bytes := Fs.content fs (Fs.ino node).

(** A regular file that can be read, at the path. *)
Definition regular_at (fs : Fs.FS) (filePath : bytes) (node : Fs.Node) : Prop :=
  Fs.lookup fs filePath = Some node /\ Fs.readable node = true /\ Fs.IsDir node = false.

(** The tailer holds an open regular file at [currentPos]. *)
Definition tailing (t : Tailer) (node : Fs.Node) : Prop :=
  file t = Some (Fs.mkFile node (currentPos t)) /\ Fs.IsDir node = false.

(** The name of a rotated segment: the live name, a period and a number
    in decimal digits. *)
Definition rotated_name (mainLogName : bytes) (ds : list Z) : bytes :=
  mainLogName ++ B "." ++ number_text ds.

(** The live file grown by a first line and then by a second. *)
Definition grown_fs (more : bytes) : Fs.FS :=
  Fs.mkFS (B "logs") true [live_node] (fun _ => line10 ++ [ascii_of_nat 10] ++ more).

(** * Further terms: the indexes at startup *)

(** A collection as the server keeps it: no [_id] twice, and no height
    twice under a unique index. *)
Definition well_kept {A : Type} (height : A -> Z) (c : Mongo.Collection A) : Prop :=
  NoDup (map fst (Mongo.docs c))
  /\ (Mongo.unique c = true -> Mongo.has_dup (Mongo.heights height c) = false).

(** The log says of no collection that its index existed already. *)
Definition none_reported_existing (lg : list StartupLog) : Prop :=
  forall collectionName, ~ In (LogOf (LogIndexExists collectionName)) lg.

(** A store with duplicates of a height in both collections and no index. *)
Definition gap100 (diff : float) : BlockTimeGap :=
  {| gTimestamp := 0; gHeight := 100; gTxs := 1; TimeDiff := diff; PreviousHeight := 99 |}.

Definition unrepaired_db : DB :=
  mkDB (Mongo.mkCollection [(0%nat, doc100a); (1%nat, doc100b)] false 2)
       (Mongo.mkCollection [(0%nat, gap100 6); (1%nat, gap100 7)] false 2)
       [].

(** * Further terms: a pass over lines on a store that answers *)

(** The gap an entry gives against the entry held, when there is one. *)
Definition gap_after (held : option CommittedState) (e : CommittedState)
  : list BlockTimeGap :=
  match held with
  | Some prev => if PrimFloat.leb 5%float (timeDiff_of e prev) then [gapEntry_of e prev] else []
  | None => []
  end.

(** The gaps of a sequence of entries: each entry against the one before
    it, the first against the entry held at the start. *)
Fixpoint gaps_of (held : option CommittedState) (entries : list CommittedState)
  : list BlockTimeGap :=
  match entries with
  | [] => []
  | e :: rest => gap_after held e ++ gaps_of (Some e) rest
  end.

(** The inserts of a list of documents, one after the other, when every
    call reaches the server. *)
Definition insert_all {A : Type} (height : A -> Z) (c : Mongo.Collection A) (l : list A)
  : Mongo.Collection A :=
  fold_left (fun c d => fst (Mongo.insert height c d)) l c.

(** The entry held after a sequence of entries. *)
Definition held_after (held : option CommittedState) (entries : list CommittedState)
  : option CommittedState :=
  fold_left (fun _ e => Some e) entries held.

(** A run of bytes without a newline that fills the buffer of the scanner. *)
Definition too_long (l : bytes) : Prop :=
  Z.of_nat (List.length l) = Bufio.MaxScanTokenSize
  /\ Forall (fun c => Regexp.is_newline c = false) l.

(** Lines that are all complete and below the token limit. *)
Definition whole_short_lines (data : bytes) : Prop :=
  fragment data = [] /\ Forall short (complete_lines data).

(** The live file with a first line, then 65536 bytes without a newline,
    then a second line. *)
Definition long_line : bytes := repeat "a"%char (Z.to_nat Bufio.MaxScanTokenSize).

Definition long_fs : Fs.FS :=
  Fs.mkFS (B "logs") true [live_node]
          (fun _ => (line10 ++ [ascii_of_nat 10]) ++ long_line ++ (line11 ++ [ascii_of_nat 10])).

(** * Further terms: the order of the historical pass *)

(** An order in which the sort may leave the selected names: a
    permutation of them in ascending order of the number of the suffix.
    Go's sort promises one of these and no more. *)
Definition admissible_order (re : Regexp.t) (files : list Fs.Node) (names : list bytes)
  : Prop :=
  Permutation (historicalLogs re files) names
  /\ Sorted (fun a b => suffix_number re a <= suffix_number re b) names.

(** The pass over the names in a given order, between its two lines of
    the log. *)
Definition historical_pass (fs : Fs.FS) (logDir : bytes) (names : list bytes) (st : State)
  : State :=
  add_log LogHistoricalDone (process_files fs logDir names (add_log LogHistoricalStart st)).

(** A name is a regular file of the listing and not the live name. *)
Definition segment_of (mainLogName : bytes) (files : list Fs.Node) (n : bytes) : Prop :=
  n <> mainLogName
  /\ exists node, In node files /\ Fs.Name node = n /\ Fs.IsDir node = false.

(** * Properties *)

Example committed_regex_example :
  Regexp.FindStringSubmatch committedStateRegex
    (B "x I[2024-01-01|00:00:05.000] Committed State module=x  height=10 txs=3 appHash= abc ")
  = Some [ B "I[2024-01-01|00:00:05.000] Committed State module=x  height=10 txs=3 appHash= abc ";
           B "2024-01-01|00:00:05.000"; B "x"; B "10"; B "3"; B " abc " ].
Proof. vm_compute. reflexivity. Qed.

Example TrimSpace_example :
  Strings.TrimSpace (B "  abc def   ") = B "abc def".
Proof. vm_compute. reflexivity. Qed.

Example Parse_example :
  Time.Parse (B "2024-01-01|00:00:11.000")
  = Some (Time.Date 2024 1 1 0 0 11 0).
Proof. vm_compute. reflexivity. Qed.

Example Parse_bad_day : Time.Parse (B "2023-02-29|00:00:11.000") = None.
Proof. vm_compute. reflexivity. Qed.

Example Seconds_example :
  Time.Seconds (Time.Sub (Time.Date 2024 1 1 0 0 11 0) (Time.Date 2024 1 1 0 0 5 0))
  = 6%float.
Proof. vm_compute. reflexivity. Qed.

Example parse_line10 : parse_line line10 = Some event10.
Proof. vm_compute. reflexivity. Qed.

Example two_lines_example :
  let st := parseAndStore line11 (parseAndStore line10 initial_state) in
  map snd (Mongo.docs (committed_state (db st))) = [event10; event11]
  /\ map snd (Mongo.docs (block_time_gap (db st)))
     = [mkBlockTimeGap (Time.Date 2024 1 1 0 0 11 0) 11 1 6%float 10]
  /\ lastCommittedState st = Some event11.
Proof. vm_compute. repeat split; reflexivity. Qed.

Example Scan_example :
  Bufio.Scan (B "ab" ++ [ascii_of_nat 13; ascii_of_nat 10] ++ B "cd")
  = ([B "ab"; B "cd"], 6, false).
Proof. vm_compute. reflexivity. Qed.

Example repair_example :
  let s := mkIndexState (Mongo.mkCollection [(0%nat, doc100a); (1%nat, doc100b)] false 2) [] [] in
  let (s', err) := createUniqueIndex Height (B "height") (B "committed_state") s in
  err = None
  /\ Mongo.docs (coll s') = [(0%nat, doc100a)]
  /\ Mongo.unique (coll s') = true.
Proof. vm_compute. repeat split; reflexivity. Qed.

(** ** The insert of an entry and what follows it *)

Lemma InsertCommitted_keeps_gaps (d : DB) (e : CommittedState) :
  block_time_gap (fst (InsertCommitted d e)) = block_time_gap d
  /\ faults (fst (InsertCommitted d e)) = tl (faults d).
Proof.
  unfold InsertCommitted, next_fault.
  destruct (faults d) as [|[msg|] fs] eqn:F; simpl.
  - destruct (Mongo.insert Height (committed_state d) e); simpl. now rewrite F.
  - auto.
  - destruct (Mongo.insert Height (committed_state d) e); simpl. auto.
Qed.

Lemma insert_outcome {A : Type} (height : A -> Z) (c : Mongo.Collection A) (d : A) :
  (snd (Mongo.insert height c d) = Some Mongo.DuplicateKey
   /\ fst (Mongo.insert height c d) = c)
  \/ (snd (Mongo.insert height c d) = None
      /\ Mongo.docs (fst (Mongo.insert height c d))
         = Mongo.docs c ++ [(Mongo.next_id c, d)]).
Proof.
  unfold Mongo.insert.
  destruct (Mongo.unique c && Mongo.has_height height c (height d)); simpl; auto.
Qed.

Lemma InsertCommitted_other (d : DB) (e : CommittedState) (msg : bytes) :
  snd (InsertCommitted d e) = Some (Mongo.OtherError msg) ->
  exists fs, faults d = Some msg :: fs
             /\ fst (InsertCommitted d e) = mkDB (committed_state d) (block_time_gap d) fs.
Proof.
  unfold InsertCommitted, next_fault.
  destruct (faults d) as [|[m|] fs] eqn:F; simpl.
  - destruct (insert_outcome Height (committed_state d) e) as [[H _]|[H _]];
      destruct (Mongo.insert Height (committed_state d) e); simpl in *;
      rewrite H; discriminate.
  - intros H. inversion H; subst. eauto.
  - destruct (insert_outcome Height (committed_state d) e) as [[H _]|[H _]];
      destruct (Mongo.insert Height (committed_state d) e); simpl in *;
      rewrite H; discriminate.
Qed.

Lemma InsertCommitted_duplicate (d : DB) (e : CommittedState) :
  snd (InsertCommitted d e) = Some Mongo.DuplicateKey ->
  committed_state (fst (InsertCommitted d e)) = committed_state d.
Proof.
  unfold InsertCommitted, next_fault.
  destruct (faults d) as [|[m|] fs] eqn:F; simpl; try discriminate.
  - destruct (insert_outcome Height (committed_state d) e) as [[H1 H2]|[H1 _]];
      destruct (Mongo.insert Height (committed_state d) e); simpl in *; subst; auto;
      discriminate.
  - destruct (insert_outcome Height (committed_state d) e) as [[H1 H2]|[H1 _]];
      destruct (Mongo.insert Height (committed_state d) e); simpl in *; subst; auto;
      discriminate.
Qed.

Lemma store_committed_unfold (e : CommittedState) (st : State) :
  store_committed e st
  = match snd (InsertCommitted (db st) e) with
    | Some err =>
        if Mongo.IsDuplicateKeyError err then set_db (fst (InsertCommitted (db st) e)) st
        else add_log (LogCommittedWriteError err) (set_db (fst (InsertCommitted (db st) e)) st)
    | None => set_db (fst (InsertCommitted (db st) e)) st
    end.
Proof.
  unfold store_committed. destruct (InsertCommitted (db st) e) as [d err]. reflexivity.
Qed.

Lemma check_gap_same (e : CommittedState) (a b : State) :
  same_but_committed a b -> same_but_committed (check_gap e a) (check_gap e b).
Proof.
  destruct a as [[ca ga fa] la lga], b as [[cb gb fb] lb lgb].
  unfold same_but_committed. simpl. intros (Hg & Hf & Hl & Hlog). subst.
  unfold check_gap. simpl.
  destruct lb as [last|]; [|simpl; auto].
  destruct (PrimFloat.leb 5 (timeDiff_of e last)); [|simpl; auto].
  unfold InsertGap, next_fault. simpl.
  destruct fb as [|[m|] fs]; simpl;
    try destruct (Mongo.insert gHeight gb (gapEntry_of e last)) as [c [w|]];
    simpl; try destruct (Mongo.IsDuplicateKeyError w); simpl; auto.
Qed.

Lemma set_last_same (e : CommittedState) (a b : State) :
  same_but_committed a b -> same_but_committed (set_last e a) (set_last e b).
Proof. intros (Hg & Hf & Hl & Hlog). repeat split; simpl; assumption. Qed.

Lemma parseAndStore_entry (line : bytes) (e : CommittedState) (st : State) :
  parse_line line = Some e -> parseAndStore line st = process_entry e st.
Proof. intros H. unfold parseAndStore. now rewrite H. Qed.

(** C1: when the insert into [committed_state] fails with a duplicate key
    nothing is logged for it, the collection is unchanged, and the gap
    check and the advance of the held state go on as after an insert that
    succeeded (the two runs agree on everything but the collection); any
    other failure is logged once, consumes one call of the driver (no
    retry), leaves the collection without the event, and the loop goes on
    with the next line (the gap check and the advance of the held state
    follow such a failure too). *)
Theorem C1_insert_failures (line : bytes) (entry : CommittedState) (st : State) :
  parse_line line = Some entry ->
  let r := InsertCommitted (db st) entry in
  (snd r = Some Mongo.DuplicateKey ->
     log (store_committed entry st) = log st
     /\ committed_state (db (store_committed entry st)) = committed_state (db st)
     /\ parseAndStore line st = set_last entry (check_gap entry (set_db (fst r) st))
     /\ forall st', same_but_committed st st' ->
          snd (InsertCommitted (db st') entry) = None ->
          same_but_committed (parseAndStore line st) (parseAndStore line st'))
  /\ (forall msg, snd r = Some (Mongo.OtherError msg) ->
        store_committed entry st
        = add_log (LogCommittedWriteError (Mongo.OtherError msg))
            (set_db (mkDB (committed_state (db st)) (block_time_gap (db st))
                          (tl (faults (db st)))) st)
        /\ committed_state (db (parseAndStore line st)) = committed_state (db st)
        /\ parseAndStore line st
           = set_last entry (check_gap entry (store_committed entry st))
        /\ forall rest, feed (line :: rest) st = feed rest (parseAndStore line st)).
Proof.
  intros Hp r. split.
  - intros Hdup. subst r.
    assert (Hs : store_committed entry st = set_db (fst (InsertCommitted (db st) entry)) st).
    { rewrite store_committed_unfold, Hdup. reflexivity. }
    split; [|split; [|split]].
    + rewrite Hs. reflexivity.
    + rewrite Hs. simpl. now apply InsertCommitted_duplicate.
    + rewrite (parseAndStore_entry _ _ _ Hp). unfold process_entry. now rewrite Hs.
    + intros st' Hsame Hok.
      rewrite !(parseAndStore_entry _ _ _ Hp). unfold process_entry.
      apply set_last_same, check_gap_same.
      rewrite Hs, store_committed_unfold, Hok.
      destruct Hsame as (Hg & Hf & Hl & Hlog).
      destruct (InsertCommitted_keeps_gaps (db st) entry) as [G1 F1].
      destruct (InsertCommitted_keeps_gaps (db st') entry) as [G2 F2].
      repeat split; simpl; congruence.
  - intros msg Hother. subst r.
    destruct (InsertCommitted_other _ _ _ Hother) as (fs & Hf & Hd).
    assert (Hs : store_committed entry st
                 = add_log (LogCommittedWriteError (Mongo.OtherError msg))
                     (set_db (mkDB (committed_state (db st)) (block_time_gap (db st))
                                   (tl (faults (db st)))) st)).
    { rewrite store_committed_unfold, Hother, Hd, Hf. reflexivity. }
    split; [|split; [|split]].
    + exact Hs.
    + rewrite (parseAndStore_entry _ _ _ Hp). unfold process_entry.
      rewrite Hs. simpl. unfold check_gap. simpl.
      destruct (lastCommittedState st) as [last|]; [|reflexivity].
      destruct (PrimFloat.leb 5 (timeDiff_of entry last)); [|reflexivity].
      unfold InsertGap, next_fault. simpl.
      destruct (tl (faults (db st))) as [|[m|] fs']; simpl;
        try destruct (Mongo.insert gHeight (block_time_gap (db st)) (gapEntry_of entry last))
          as [c [w|]];
        simpl; try destruct (Mongo.IsDuplicateKeyError w); reflexivity.
    + now rewrite (parseAndStore_entry _ _ _ Hp).
    + reflexivity.
Qed.

Lemma C1_insert_failures_witness :
  log (store_committed event10 dup_state) = log dup_state.
Proof.
  assert (Hp : parse_line line10 = Some event10) by (vm_compute; reflexivity).
  assert (Hd : snd (InsertCommitted (db dup_state) event10) = Some Mongo.DuplicateKey)
    by (vm_compute; reflexivity).
  exact (proj1 (proj1 (C1_insert_failures line10 event10 dup_state Hp) Hd)).
Defined.

(** ** The gap detector *)

(** Between instants less than about 292 years apart [Sub] is the exact
    difference. *)
Lemma Sub_exact (t u : Time.Time) :
  Time.minDuration <= t - u <= Time.maxDuration -> Time.Sub t u = t - u.
Proof.
  intros [H1 H2]. unfold Time.Sub.
  replace (t - u <? Time.minDuration) with false by (symmetry; apply Z.ltb_ge; exact H1).
  replace (Time.maxDuration <? t - u) with false by (symmetry; apply Z.ltb_ge; exact H2).
  reflexivity.
Qed.

(** After a line whose timestamp does not parse the held instant is the
    zero time, and the next line is some 2023 years later: the difference
    saturates and a gap of about 9.2e9 seconds is stored. *)
Example saturated_gap_example :
  let bad := B "I[yesterday] Committed State module=x height=9 txs=0 appHash=aa" in
  let st := parseAndStore line10 (parseAndStore bad initial_state) in
  map (fun d => (gHeight (snd d), PreviousHeight (snd d),
                 PrimFloat.ltb 9000000000%float (TimeDiff (snd d))))
      (Mongo.docs (block_time_gap (db st)))
  = [(10, 9, true)].
Proof. vm_compute. reflexivity. Qed.

Lemma store_committed_keeps (e : CommittedState) (st : State) :
  lastCommittedState (store_committed e st) = lastCommittedState st
  /\ block_time_gap (db (store_committed e st)) = block_time_gap (db st)
  /\ faults (db (store_committed e st)) = tl (faults (db st)).
Proof.
  rewrite store_committed_unfold.
  destruct (InsertCommitted_keeps_gaps (db st) e) as [G F].
  destruct (snd (InsertCommitted (db st) e)) as [err|];
    [destruct (Mongo.IsDuplicateKeyError err)|]; simpl; auto.
Qed.

Lemma check_gap_unfold (e : CommittedState) (st : State) :
  db (check_gap e st)
  = match lastCommittedState st with
    | Some prev =>
        if PrimFloat.leb 5 (timeDiff_of e prev)
        then fst (InsertGap (db st) (gapEntry_of e prev))
        else db st
    | None => db st
    end.
Proof.
  unfold check_gap. destruct (lastCommittedState st) as [prev|]; [|reflexivity].
  destruct (PrimFloat.leb 5 (timeDiff_of e prev)); [|reflexivity].
  destruct (InsertGap (db st) (gapEntry_of e prev)) as [d [w|]]; simpl;
    [destruct (Mongo.IsDuplicateKeyError w)|]; reflexivity.
Qed.

Lemma InsertGap_stores (d : DB) (g : BlockTimeGap) :
  faults d = [] ->
  Mongo.has_height gHeight (block_time_gap d) (gHeight g) = false ->
  Mongo.docs (block_time_gap (fst (InsertGap d g)))
  = Mongo.docs (block_time_gap d) ++ [(Mongo.next_id (block_time_gap d), g)].
Proof.
  intros F H. unfold InsertGap, next_fault. rewrite F. simpl.
  unfold Mongo.insert. rewrite H, andb_false_r. reflexivity.
Qed.

(** C2: the gap detector has two states, the values of
    [lastCommittedState].  For every entry processed: with no entry held
    the gap collection is not touched; with [prev] held, [delta] is the
    seconds between the two timestamps, and the record with the
    timestamp, height and txs of the entry, [delta] and the height of
    [prev] is handed to the insert into [block_time_gap] exactly when
    [delta >= 5.0] (and is then the new last document of the collection
    when the call reaches the server and no gap of that height is stored);
    in all cases the entry becomes the held one.  The two lines of the
    example, six seconds apart, yield the entries of heights 10 and 11
    and one gap of height 11, previous height 10 and 6.0 seconds. *)
Theorem C2_gap_detector :
  (forall line e st,
     parse_line line = Some e ->
     let st1 := store_committed e st in
     let st' := parseAndStore line st in
     lastCommittedState st' = Some e
     /\ (lastCommittedState st = None -> db st' = db st1)
     /\ (forall prev, lastCommittedState st = Some prev ->
           let delta := Time.Seconds (Time.Sub (Timestamp e) (Timestamp prev)) in
           let gap := mkBlockTimeGap (Timestamp e) (Height e) (Txs e) delta (Height prev) in
           (PrimFloat.leb 5 delta = true -> db st' = fst (InsertGap (db st1) gap))
           /\ (PrimFloat.leb 5 delta = false -> db st' = db st1)
           /\ (faults (db st) = [] ->
               Mongo.has_height gHeight (block_time_gap (db st)) (Height e) = false ->
               Mongo.docs (block_time_gap (db st'))
               = Mongo.docs (block_time_gap (db st))
                 ++ (if PrimFloat.leb 5 delta
                     then [(Mongo.next_id (block_time_gap (db st)), gap)] else []))))
  /\ (let st := parseAndStore line11 (parseAndStore line10 initial_state) in
      map snd (Mongo.docs (committed_state (db st))) = [event10; event11]
      /\ map snd (Mongo.docs (block_time_gap (db st)))
         = [mkBlockTimeGap (Timestamp event11) 11 1 6%float 10]
      /\ lastCommittedState st = Some event11).
Proof.
  split.
  - intros line e st Hp st1 st'. subst st1 st'.
    rewrite (parseAndStore_entry _ _ _ Hp). unfold process_entry.
    destruct (store_committed_keeps e st) as (Hl & Hg & Hf).
    split; [reflexivity|]. split.
    + intros Hn. simpl. rewrite check_gap_unfold, Hl, Hn. reflexivity.
    + intros prev Hprev. simpl. rewrite check_gap_unfold, Hl, Hprev.
      unfold timeDiff_of, gapEntry_of, timeDiff_of.
      set (delta := Time.Seconds (Time.Sub (Timestamp e) (Timestamp prev))).
      split; [intros ->; reflexivity|]. split; [intros ->; reflexivity|].
      intros F H. destruct (PrimFloat.leb 5 delta).
      * rewrite InsertGap_stores; rewrite ?Hf, ?Hg, ?F; auto.
      * rewrite Hg, app_nil_r. reflexivity.
  - vm_compute. repeat split; reflexivity.
Qed.

Lemma C2_gap_detector_witness :
  lastCommittedState (parseAndStore line10 initial_state) = Some event10.
Proof.
  assert (Hp : parse_line line10 = Some event10) by (vm_compute; reflexivity).
  exact (proj1 (proj1 C2_gap_detector line10 event10 initial_state Hp)).
Defined.

(** C7, counterexample: the insert of the first line fails with a network
    error, nothing is stored, and the entry is held all the same. *)
Lemma C7_counterexample :
  ~ held_is_last_stored line10 failing_state
  /\ Mongo.docs (committed_state (db (parseAndStore line10 failing_state))) = []
  /\ lastCommittedState (parseAndStore line10 failing_state) = Some event10.
Proof.
  split; [|vm_compute; split; reflexivity].
  intros H.
  specialize (H event10 (B "connection reset")).
  assert (Hp : parse_line line10 = Some event10) by (vm_compute; reflexivity).
  assert (Hf : snd (InsertCommitted (db failing_state) event10)
               = Some (Mongo.OtherError (B "connection reset")))
    by (vm_compute; reflexivity).
  specialize (H Hp Hf). vm_compute in H. discriminate.
Qed.

Lemma last_cons {A : Type} (a : A) (l : list A) (d : A) : last (a :: l) d = last l a.
Proof.
  revert a d. induction l as [|b l IH]; intros a d; [reflexivity|].
  change (last (a :: b :: l) d) with (last (b :: l) d).
  now rewrite (IH b d), (IH b a).
Qed.

Lemma last_app_default {A : Type} (l1 l2 : list A) (d : A) :
  last (l1 ++ l2) d = last l2 (last l1 d).
Proof.
  revert d. induction l1 as [|a l1 IH]; intros d; [reflexivity|].
  simpl app. now rewrite !last_cons, IH.
Qed.

(** C7, amended: the held entry is always the entry of the last line that
    matched, whatever became of its insert; lines that do not match leave
    it as it is. *)
Theorem C7_held_is_last_parsed (lines : list bytes) (st : State) :
  lastCommittedState (feed lines st)
  = last (map Some (entries_of lines)) (lastCommittedState st).
Proof.
  revert st. induction lines as [|line lines IH]; intros st; [reflexivity|].
  change (feed (line :: lines) st) with (feed lines (parseAndStore line st)).
  rewrite IH. unfold entries_of. simpl flat_map. rewrite map_app, last_app_default.
  f_equal. unfold parseAndStore. destruct (parse_line line); reflexivity.
Qed.

(** ** Files that cannot be opened *)

(** C8, counterexample: in an empty directory the live file is missing,
    and [processSingleFile] returns without a line in the log. *)
Lemma C8_counterexample :
  ~ missing_is_logged empty_fs (B "logs/stdout-xx.txt") initial_state.
Proof.
  intros H. apply H; vm_compute; reflexivity.
Qed.

(** C8, amended: a file that is missing at open time is skipped in
    silence, the state and the log as they were; a file that fails to
    open for another reason is skipped with one line in the log and
    nothing else changed; in both cases the loop over the historical
    files goes on with the next file. *)
Theorem C8_open_failures (fs : Fs.FS) (filePath : bytes) (st : State) :
  (Fs.Open fs filePath = inr Fs.ErrNotExist ->
     processSingleFile fs filePath st = st)
  /\ (forall err, Fs.Open fs filePath = inr err -> Fs.IsNotExist err = false ->
        processSingleFile fs filePath st = add_log (LogOpenError filePath) st
        /\ db (processSingleFile fs filePath st) = db st
        /\ lastCommittedState (processSingleFile fs filePath st) = lastCommittedState st)
  /\ (forall logDir name rest,
        Fs.Join logDir name = filePath ->
        process_files fs logDir (name :: rest) st
        = process_files fs logDir rest
            (processSingleFile fs filePath (add_log (LogHistoricalFile filePath) st))).
Proof.
  split; [|split].
  - intros H. unfold processSingleFile. rewrite H. reflexivity.
  - intros err H Hn. unfold processSingleFile. rewrite H, Hn. simpl. auto.
  - intros logDir name rest <-. reflexivity.
Qed.

Lemma C8_open_failures_witness :
  processSingleFile empty_fs (B "logs/stdout-xx.txt") initial_state = initial_state
  /\ processSingleFile locked_fs (B "logs/stdout-xx.txt") initial_state
     = add_log (LogOpenError (B "logs/stdout-xx.txt")) initial_state.
Proof.
  split.
  - apply (proj1 (C8_open_failures empty_fs (B "logs/stdout-xx.txt") initial_state)).
    vm_compute. reflexivity.
  - apply (proj1 (proj2 (C8_open_failures locked_fs (B "logs/stdout-xx.txt") initial_state))
             Fs.ErrPermission).
    + vm_compute. reflexivity.
    + reflexivity.
Defined.

(** ** The fields of a parsed entry *)

Lemma digit_val_range (c : ascii) : isDigit c = true -> 0 <= digit_val c <= 9.
Proof.
  unfold isDigit, in_range, digit_val. intros H.
  apply andb_true_iff in H. destruct H as [H1 H2].
  apply Z.leb_le in H1. apply Z.leb_le in H2. lia.
Qed.

Lemma ParseUint_loop_spec (s : bytes) (n : Z) :
  0 <= n <= Strconv.maxUint64 ->
  let r := Strconv.ParseUint_loop s n in
  0 <= fst r <= Strconv.maxUint64
  /\ (snd r = Some Strconv.ErrSyntax -> fst r = 0)
  /\ (snd r = Some Strconv.ErrRange -> fst r = Strconv.maxUint64).
Proof.
  revert n. induction s as [|c s IH]; intros n Hn; simpl.
  - repeat split; try lia; discriminate.
  - destruct (isDigit c) eqn:D.
    + destruct (1844674407370955162 <=? n) eqn:C1; simpl.
      * unfold Strconv.maxUint64. repeat split; try lia; discriminate.
      * destruct (Strconv.maxUint64 <? n * 10 + digit_val c) eqn:C2; simpl.
        -- unfold Strconv.maxUint64. repeat split; try lia; discriminate.
        -- apply IH. apply Z.ltb_ge in C2. pose proof (digit_val_range c D). lia.
    + simpl. unfold Strconv.maxUint64. repeat split; try lia; discriminate.
Qed.

Lemma ParseUint_spec (s : bytes) :
  let r := Strconv.ParseUint s in
  0 <= fst r <= Strconv.maxUint64
  /\ (snd r = Some Strconv.ErrSyntax -> fst r = 0)
  /\ (snd r = Some Strconv.ErrRange -> fst r = Strconv.maxUint64).
Proof.
  destruct s as [|c s].
  - simpl. unfold Strconv.maxUint64. repeat split; try lia; discriminate.
  - apply (ParseUint_loop_spec (c :: s) 0). unfold Strconv.maxUint64. lia.
Qed.

(** What [ParseInt] returns next to each error, and the range of its
    value. *)
Lemma ParseInt_spec (s : bytes) :
  let r := Strconv.ParseInt s in
  Strconv.minInt64 <= fst r <= Strconv.maxInt64
  /\ (snd r = Some Strconv.ErrSyntax -> fst r = 0)
  /\ (snd r = Some Strconv.ErrRange ->
      fst r = Strconv.maxInt64 \/ fst r = Strconv.minInt64).
Proof.
  unfold Strconv.ParseInt. destruct s as [|c s].
  - simpl. unfold Strconv.minInt64, Strconv.maxInt64. repeat split; try lia; discriminate.
  - set (body := if byte_eqb c "+" || byte_eqb c "-" then s else c :: s).
    destruct (ParseUint_spec body) as (Hr & Hs & Hg).
    unfold Strconv.minInt64, Strconv.maxInt64, Strconv.maxUint64 in *.
    destruct (Strconv.ParseUint body) as [un [[|]|]]; simpl in *.
    + repeat split; try lia; discriminate.
    + specialize (Hg eq_refl). subst un.
      destruct (byte_eqb c "-"); simpl; repeat split; try lia; try discriminate; auto.
    + destruct (byte_eqb c "-"); simpl.
      * destruct (9223372036854775808 <? un) eqn:C; simpl;
          [|apply Z.ltb_ge in C]; repeat split; try lia; try discriminate; auto.
      * destruct (9223372036854775808 <=? un) eqn:C; simpl;
          [|apply Z.leb_gt in C]; repeat split; try lia; try discriminate; auto.
Qed.

Lemma Atoi_loop_bound (s : bytes) (n m : Z) :
  0 <= n -> Strconv.Atoi_loop s n = Some m ->
  0 <= m < (n + 1) * 10 ^ Z.of_nat (List.length s).
Proof.
  revert n. induction s as [|c s IH]; intros n Hn H; simpl in H.
  - inversion H; subst. simpl. lia.
  - destruct (isDigit c) eqn:D; [|discriminate].
    pose proof (digit_val_range c D) as Hd.
    apply IH in H; [|lia].
    change (List.length (c :: s)) with (S (List.length s)).
    rewrite Nat2Z.inj_succ, Z.pow_succ_r by lia.
    assert (0 < 10 ^ Z.of_nat (List.length s)) by (apply Z.pow_pos_nonneg; lia).
    nia.
Qed.

Lemma Atoi_spec (s : bytes) :
  let r := Strconv.Atoi s in
  Strconv.minInt64 <= fst r <= Strconv.maxInt64
  /\ (snd r = Some Strconv.ErrSyntax -> fst r = 0)
  /\ (snd r = Some Strconv.ErrRange ->
      fst r = Strconv.maxInt64 \/ fst r = Strconv.minInt64).
Proof.
  unfold Strconv.Atoi.
  destruct ((0 <? List.length s)%nat && (List.length s <? 19)%nat) eqn:L;
    [|apply ParseInt_spec].
  apply andb_true_iff in L. destruct L as [_ L]. apply Nat.ltb_lt in L.
  assert (Z0 : Strconv.minInt64 <= 0 <= Strconv.maxInt64)
    by (unfold Strconv.minInt64, Strconv.maxInt64; lia).
  destruct s as [|c s]; [simpl; repeat split; try lia; discriminate|].
  set (body := if byte_eqb c "-" || byte_eqb c "+" then s else c :: s).
  assert (Hb : (List.length body <= 18)%nat).
  { subst body. destruct (byte_eqb c "-" || byte_eqb c "+"); simpl in *; lia. }
  destruct body as [|b body'] eqn:B; [simpl; repeat split; try lia; discriminate|].
  rewrite <- B in *.
  destruct (Strconv.Atoi_loop body 0) as [n|] eqn:A;
    [|simpl; repeat split; try lia; discriminate].
  apply Atoi_loop_bound in A; [|lia].
  assert (10 ^ Z.of_nat (List.length body) <= 10 ^ 18)
    by (apply Z.pow_le_mono_r; lia).
  assert (10 ^ 18 = 1000000000000000000) by reflexivity.
  unfold Strconv.minInt64, Strconv.maxInt64 in *.
  destruct (byte_eqb c "-"); simpl; repeat split; try lia; discriminate.
Qed.

Lemma strip_prefix_app (l s s' : bytes) :
  strip_prefix l s = Some s' -> s = l ++ s'.
Proof.
  revert s. induction l as [|x l IH]; intros s H; simpl in *.
  - now inversion H.
  - destruct s as [|y s]; [discriminate|].
    destruct (byte_eqb x y) eqn:E; [|discriminate].
    apply Ascii.eqb_eq in E. subst y. f_equal. auto.
Qed.

Lemma strip_prefix_self (l s : bytes) : strip_prefix l (l ++ s) = Some s.
Proof.
  induction l as [|x l IH]; simpl; [reflexivity|].
  unfold byte_eqb. now rewrite Ascii.eqb_refl.
Qed.

Lemma strip_prefix_extend (l s s' x : bytes) :
  strip_prefix l s = Some s' -> strip_prefix l (s ++ x) = Some (s' ++ x).
Proof.
  intros H. apply strip_prefix_app in H. subst s.
  rewrite <- app_assoc. apply strip_prefix_self.
Qed.

Lemma strip_any_app (table : list bytes) (s s' : bytes) :
  Strings.strip_any table s = Some s' -> exists e, In e table /\ s = e ++ s'.
Proof.
  induction table as [|e table IH]; simpl; [discriminate|].
  destruct (strip_prefix e s) as [r|] eqn:E.
  - intros H. inversion H; subst. exists e. split; [now left|].
    now apply strip_prefix_app.
  - intros H. destruct (IH H) as (e' & Hin & Heq). exists e'. split; [now right|assumption].
Qed.

Lemma strip_any_extend (table : list bytes) (s x : bytes) :
  Strings.strip_any table s <> None -> Strings.strip_any table (s ++ x) <> None.
Proof.
  induction table as [|e table IH]; simpl; [auto|].
  destruct (strip_prefix e s) as [r|] eqn:E.
  - intros _. now rewrite (strip_prefix_extend _ _ _ x E).
  - intros H. destruct (strip_prefix e (s ++ x)); [discriminate|auto].
Qed.

Lemma trim_fuel_suffix (table : list bytes) (n : nat) (s : bytes) :
  exists pre, s = pre ++ Strings.trim_fuel table n s.
Proof.
  revert s. induction n as [|n IH]; intros s; simpl.
  - now exists [].
  - destruct (Strings.strip_any table s) as [s'|] eqn:E; [|now exists []].
    destruct (strip_any_app _ _ _ E) as (e & _ & ->).
    destruct (IH s') as (pre & Hpre).
    exists (e ++ pre). rewrite <- app_assoc. now rewrite <- Hpre.
Qed.

Lemma trim_fuel_done (table : list bytes) (n : nat) (s : bytes) :
  Forall (fun e => e <> []) table -> (List.length s <= n)%nat ->
  Strings.strip_any table (Strings.trim_fuel table n s) = None.
Proof.
  intros Hne. revert s. induction n as [|n IH]; intros s Hlen; simpl.
  - destruct s; [|simpl in Hlen; lia].
    destruct (Strings.strip_any table []) as [s'|] eqn:E; [|reflexivity].
    destruct (strip_any_app _ _ _ E) as (e & Hin & Heq).
    rewrite Forall_forall in Hne. specialize (Hne e Hin).
    destruct e; [contradiction|discriminate].
  - destruct (Strings.strip_any table s) as [s'|] eqn:E; [|assumption].
    apply IH. destruct (strip_any_app _ _ _ E) as (e & Hin & ->).
    rewrite Forall_forall in Hne. specialize (Hne e Hin).
    destruct e; [contradiction|]. rewrite length_app in Hlen. simpl in Hlen. lia.
Qed.

Lemma space_encodings_nonempty :
  Forall (fun e : bytes => e <> []) Strings.space_encodings
  /\ Forall (fun e : bytes => e <> []) (map (@rev ascii) Strings.space_encodings).
Proof.
  split; vm_compute; repeat constructor; discriminate.
Qed.

(** [TrimSpace] leaves no white space at either end. *)
Lemma TrimSpace_trimmed (s : bytes) :
  Strings.strip_any Strings.space_encodings (Strings.TrimSpace s) = None
  /\ Strings.strip_any (map (@rev ascii) Strings.space_encodings)
       (rev (Strings.TrimSpace s)) = None.
Proof.
  destruct space_encodings_nonempty as [N1 N2].
  unfold Strings.TrimSpace, Strings.TrimRight.
  set (t := Strings.TrimLeft s).
  assert (Ht : Strings.strip_any Strings.space_encodings t = None).
  { apply trim_fuel_done; auto. }
  set (r := Strings.trim_fuel (map (@rev ascii) Strings.space_encodings)
              (List.length t) (rev t)).
  assert (Hr : Strings.strip_any (map (@rev ascii) Strings.space_encodings) r = None).
  { apply trim_fuel_done; auto. now rewrite length_rev. }
  split; [|now rewrite rev_involutive].
  destruct (trim_fuel_suffix (map (@rev ascii) Strings.space_encodings)
              (List.length t) (rev t)) as (pre & Hpre).
  fold r in Hpre.
  assert (Et : t = rev r ++ rev pre).
  { rewrite <- rev_app_distr, <- Hpre. now rewrite rev_involutive. }
  destruct (Strings.strip_any Strings.space_encodings (rev r)) eqn:E; [|reflexivity].
  exfalso.
  apply (strip_any_extend Strings.space_encodings (rev r) (rev pre)).
  - rewrite E. discriminate.
  - now rewrite <- Et.
Qed.

Lemma digit_ok (d : Z) :
  0 <= d <= 9 -> isDigit (digit d) = true /\ digit_val (digit d) = d.
Proof.
  intros H.
  assert (E : d = 0 \/ d = 1 \/ d = 2 \/ d = 3 \/ d = 4 \/ d = 5 \/ d = 6 \/ d = 7
              \/ d = 8 \/ d = 9) by lia.
  repeat (destruct E as [->|E]; [split; reflexivity|]). subst. split; reflexivity.
Qed.

Lemma getnum_two_digits (k : Z) (rest : bytes) (fixed : bool) :
  0 <= k <= 99 -> Time.getnum (two_digits k ++ rest) fixed = Some (k, rest).
Proof.
  intros H. unfold two_digits. simpl.
  assert (K : 0 <= k / 10 <= 9).
  { split; [apply Z.div_pos; lia|].
    assert (k / 10 < 10) by (apply Z.div_lt_upper_bound; lia). lia. }
  destruct (digit_ok (k / 10) K) as [D1 V1].
  destruct (digit_ok (k mod 10)) as [D2 V2]; [pose proof (Z.mod_pos_bound k 10); lia|].
  rewrite D1, D2, V1, V2. f_equal. f_equal.
  pose proof (Z.div_mod k 10). lia.
Qed.

Lemma leadingInt_digit (d : Z) (s : bytes) (x : Z) :
  0 <= d <= 9 -> Time.leadingInt (digit d :: s) x = Time.leadingInt s (x * 10 + d).
Proof.
  intros H. destruct (digit_ok d H) as [D V]. simpl. now rewrite D, V.
Qed.

Lemma digit_no_sign (d : Z) :
  0 <= d <= 9 -> byte_eqb (digit d) "-" = false /\ byte_eqb (digit d) "+" = false.
Proof.
  intros H.
  assert (E : d = 0 \/ d = 1 \/ d = 2 \/ d = 3 \/ d = 4 \/ d = 5 \/ d = 6 \/ d = 7
              \/ d = 8 \/ d = 9) by lia.
  repeat (destruct E as [->|E]; [split; reflexivity|]). subst. split; reflexivity.
Qed.

(** A text in the layout, with its fields in range, parses to the instant
    of those fields. *)
Lemma Parse_layout_text (year month day hour min sec ms : Z) :
  0 <= year <= 9999 -> 1 <= month <= 12 -> 1 <= day <= Time.daysIn month year ->
  0 <= hour < 24 -> 0 <= min < 60 -> 0 <= sec < 60 -> 0 <= ms < 1000 ->
  Time.Parse (layout_text year month day hour min sec ms)
  = Some (Time.Date year month day hour min sec (ms * 1000000)).
Proof.
  intros Hy Hm Hd Hh Hmi Hs Hms.
  assert (Hd31 : day <= 31).
  { assert (M : month = 1 \/ month = 2 \/ month = 3 \/ month = 4 \/ month = 5
                \/ month = 6 \/ month = 7 \/ month = 8 \/ month = 9 \/ month = 10
                \/ month = 11 \/ month = 12) by lia.
    unfold Time.daysIn in Hd.
    repeat (destruct M as [->|M];
            [simpl in Hd; try destruct (Time.isLeap year); simpl in Hd; lia|]).
    subst. simpl in Hd. lia. }
  assert (Y3 : 0 <= year / 1000 <= 9).
  { split; [apply Z.div_pos; lia|].
    assert (year / 1000 < 10) by (apply Z.div_lt_upper_bound; lia). lia. }
  assert (Y2 : 0 <= year / 100 mod 10 <= 9) by (pose proof (Z.mod_pos_bound (year / 100) 10); lia).
  assert (Y1 : 0 <= year / 10 mod 10 <= 9) by (pose proof (Z.mod_pos_bound (year / 10) 10); lia).
  assert (Y0 : 0 <= year mod 10 <= 9) by (pose proof (Z.mod_pos_bound year 10); lia).
  assert (M2 : 0 <= ms / 100 <= 9).
  { split; [apply Z.div_pos; lia|].
    assert (ms / 100 < 10) by (apply Z.div_lt_upper_bound; lia). lia. }
  assert (M1 : 0 <= ms / 10 mod 10 <= 9) by (pose proof (Z.mod_pos_bound (ms / 10) 10); lia).
  assert (M0 : 0 <= ms mod 10 <= 9) by (pose proof (Z.mod_pos_bound ms 10); lia).
  unfold layout_text. cbn [app B list_ascii_of_string].
  unfold Time.Parse.
  rewrite (proj1 (digit_ok _ Y3)).
  unfold Time.atoi at 1.
  rewrite (proj1 (digit_no_sign _ Y3)), (proj2 (digit_no_sign _ Y3)).
  cbn [orb]. rewrite !leadingInt_digit by assumption. cbn [Time.leadingInt Time.bind].
  unfold Time.literal. cbn [B list_ascii_of_string strip_prefix byte_eqb Ascii.eqb Bool.eqb].
  cbn [Time.bind].
  rewrite (getnum_two_digits month) by lia. cbn [Time.bind].
  replace ((month <=? 0) || (12 <? month)) with false
    by (symmetry; apply orb_false_iff; split; [apply Z.leb_gt|apply Z.ltb_ge]; lia).
  cbn [strip_prefix byte_eqb Ascii.eqb Bool.eqb Time.bind].
  rewrite (getnum_two_digits day) by lia.
  cbn [strip_prefix byte_eqb Ascii.eqb Bool.eqb Time.bind].
  rewrite (getnum_two_digits hour) by lia. cbn [Time.bind].
  replace ((hour <? 0) || (24 <=? hour)) with false
    by (symmetry; apply orb_false_iff; split; [apply Z.ltb_ge|apply Z.leb_gt]; lia).
  cbn [strip_prefix byte_eqb Ascii.eqb Bool.eqb Time.bind].
  rewrite (getnum_two_digits min) by lia. cbn [Time.bind].
  replace ((min <? 0) || (60 <=? min)) with false
    by (symmetry; apply orb_false_iff; split; [apply Z.ltb_ge|apply Z.leb_gt]; lia).
  cbn [strip_prefix byte_eqb Ascii.eqb Bool.eqb Time.bind].
  rewrite (getnum_two_digits sec) by lia. cbn [Time.bind].
  replace ((sec <? 0) || (60 <=? sec)) with false
    by (symmetry; apply orb_false_iff; split; [apply Z.ltb_ge|apply Z.leb_gt]; lia).
  unfold Time.parseNanoseconds. cbn [byte_eqb Ascii.eqb Bool.eqb orb].
  unfold Time.atoi.
  rewrite (proj1 (digit_no_sign _ M2)), (proj2 (digit_no_sign _ M2)).
  cbn [orb]. rewrite !leadingInt_digit by assumption. cbn [Time.leadingInt Time.bind].
  replace (((0 * 10 + ms / 100) * 10 + ms / 10 mod 10) * 10 + ms mod 10) with ms
    by (pose proof (Z.div_mod ms 10); pose proof (Z.div_mod (ms / 10) 10);
        rewrite Z.div_div in * by lia; change (10 * 10) with 100 in *; lia).
  replace (ms <? 0) with false by (symmetry; apply Z.ltb_ge; lia).
  cbn [Time.bind].
  replace ((((0 * 10 + year / 1000) * 10 + year / 100 mod 10) * 10 + year / 10 mod 10) * 10
           + year mod 10) with year.
  { replace ((day <? 1) || (Time.daysIn month year <? day)) with false; [reflexivity|].
    symmetry; apply orb_false_iff; split; apply Z.ltb_ge; lia. }
  pose proof (Z.div_mod year 10). pose proof (Z.div_mod (year / 10) 10).
  pose proof (Z.div_mod (year / 100) 10).
  assert (year / 10 / 10 = year / 100) by (rewrite Z.div_div by lia; reflexivity).
  assert (year / 100 / 10 = year / 1000) by (rewrite Z.div_div by lia; reflexivity).
  lia.
Qed.

(** C4, counterexample: a height one past the largest 64-bit integer fails
    to parse with a range error, and the entry holds the largest 64-bit
    integer, not zero. *)
Lemma C4_counterexample :
  ~ zero_on_failure overflow_line
  /\ Strconv.ParseInt (B "9223372036854775808") = (Strconv.maxInt64, Some Strconv.ErrRange)
  /\ option_map Height (parse_line overflow_line) = Some 9223372036854775807.
Proof.
  split; [|split; vm_compute; reflexivity].
  intros H.
  destruct (Regexp.FindStringSubmatch committedStateRegex overflow_line) as [ms|] eqn:E;
    [|vm_compute in E; discriminate].
  destruct (H ms E) as (e & He & _ & Hh & _).
  vm_compute in E. inversion E; subst ms. clear E.
  vm_compute in He. inversion He; subst e. clear He.
  assert (Hne : snd (Strconv.ParseInt (B "9223372036854775808")) <> None)
    by (vm_compute; discriminate).
  specialize (Hh Hne). vm_compute in Hh. discriminate.
Qed.

Lemma FindStringSubmatch_length (re : Regexp.t) (s : bytes) (ms : list bytes) :
  Regexp.FindStringSubmatch re s = Some ms -> (0 <? List.length ms)%nat = true.
Proof.
  unfold Regexp.FindStringSubmatch.
  destruct (Regexp.find re s) as [[from [caps rest]]|]; [|discriminate].
  intros H. inversion H. reflexivity.
Qed.

(** On a range error [ParseInt] returns the bound on the side of the
    sign. *)
Lemma ParseInt_range (s : bytes) :
  snd (Strconv.ParseInt s) = Some Strconv.ErrRange ->
  fst (Strconv.ParseInt s) = saturated s.
Proof.
  unfold Strconv.ParseInt, saturated, has_minus. destruct s as [|c s]; [discriminate|].
  cbv zeta. destruct (byte_eqb c "-");
    destruct (Strconv.ParseUint _) as [un [[|]|]]; cbn [negb andb];
    try destruct (9223372036854775808 <=? un); try destruct (9223372036854775808 <? un);
    cbn [fst snd]; intros H; try discriminate H; reflexivity.
Qed.

Lemma Atoi_range (s : bytes) :
  snd (Strconv.Atoi s) = Some Strconv.ErrRange ->
  fst (Strconv.Atoi s) = saturated s.
Proof.
  unfold Strconv.Atoi.
  destruct ((0 <? List.length s)%nat && (List.length s <? 19)%nat); [|apply ParseInt_range].
  destruct s as [|c s]; [discriminate|].
  destruct (if byte_eqb c "-" || byte_eqb c "+" then s else c :: s) as [|b body];
    [discriminate|].
  destruct (Strconv.Atoi_loop (b :: body) 0); discriminate.
Qed.

Example negative_overflow_example :
  option_map Height
    (parse_line
       (B "I[2024-01-01|00:00:05.000] Committed State module=x height=-9223372036854775809 txs=3 appHash=abc"))
  = Some Strconv.minInt64.
Proof. vm_compute. reflexivity. Qed.

(** C4, amended: every line that matches becomes an entry.  The module is
    group 2 and the appHash is group 5 without white space at its ends.
    The timestamp is the instant group 1 denotes in the layout, and zero
    when group 1 does not parse (a text in the layout with fields in
    range does parse, to the instant of its fields).  The height and the
    txs are 64-bit integers: the value of the group when it parses, zero
    when its syntax is wrong, and when its digits are out of range the
    smallest 64-bit integer if the group starts with a minus sign and the
    largest if it does not. *)
Theorem C4_entry_fields (line : bytes) (ms : list bytes) :
  Regexp.FindStringSubmatch committedStateRegex line = Some ms ->
  exists e, parse_line line = Some e
    /\ Module_ e = nth 2 ms []
    /\ AppHash e = Strings.TrimSpace (nth 5 ms [])
    /\ Strings.strip_any Strings.space_encodings (AppHash e) = None
    /\ Strings.strip_any (map (@rev ascii) Strings.space_encodings) (rev (AppHash e)) = None
    /\ (forall t, Time.Parse (nth 1 ms []) = Some t -> Timestamp e = t)
    /\ (Time.Parse (nth 1 ms []) = None -> Timestamp e = Time.zero)
    /\ (forall year month day hour min sec msec,
          0 <= year <= 9999 -> 1 <= month <= 12 -> 1 <= day <= Time.daysIn month year ->
          0 <= hour < 24 -> 0 <= min < 60 -> 0 <= sec < 60 -> 0 <= msec < 1000 ->
          nth 1 ms [] = layout_text year month day hour min sec msec ->
          Timestamp e = Time.Date year month day hour min sec (msec * 1000000))
    /\ (Strconv.minInt64 <= Height e <= Strconv.maxInt64
        /\ (forall v, Strconv.ParseInt (nth 3 ms []) = (v, None) -> Height e = v)
        /\ (snd (Strconv.ParseInt (nth 3 ms [])) = Some Strconv.ErrSyntax -> Height e = 0)
        /\ (snd (Strconv.ParseInt (nth 3 ms [])) = Some Strconv.ErrRange ->
            Height e = saturated (nth 3 ms [])))
    /\ (Strconv.minInt64 <= Txs e <= Strconv.maxInt64
        /\ (forall v, Strconv.Atoi (nth 4 ms []) = (v, None) -> Txs e = v)
        /\ (snd (Strconv.Atoi (nth 4 ms [])) = Some Strconv.ErrSyntax -> Txs e = 0)
        /\ (snd (Strconv.Atoi (nth 4 ms [])) = Some Strconv.ErrRange ->
            Txs e = saturated (nth 4 ms []))).
Proof.
  intros H. exists (entry_of_matches ms).
  split. { unfold parse_line. now rewrite H, (FindStringSubmatch_length _ _ _ H). }
  unfold entry_of_matches. simpl.
  destruct (TrimSpace_trimmed (nth 5 ms [])) as [T1 T2].
  destruct (ParseInt_spec (nth 3 ms [])) as (P1 & P2 & _).
  destruct (Atoi_spec (nth 4 ms [])) as (A1 & A2 & _).
  pose proof (ParseInt_range (nth 3 ms [])) as P3.
  pose proof (Atoi_range (nth 4 ms [])) as A3.
  repeat split; auto; try lia.
  - intros t Ht. now rewrite Ht.
  - intros Hn. now rewrite Hn.
  - intros year month day hour min sec msec Hy Hm Hd Hh Hmi Hs Hms E.
    rewrite E, Parse_layout_text by assumption. reflexivity.
  - intros v Hv. now rewrite Hv.
  - intros v Hv. now rewrite Hv.
Qed.

Lemma C4_entry_fields_witness :
  exists e, parse_line line10 = Some e /\ Module_ e = B "x".
Proof.
  destruct (C4_entry_fields line10
              [line10; B "2024-01-01|00:00:05.000"; B "x"; B "10"; B "3"; B "abc"])
    as (e & He & Hm & _).
  - vm_compute. reflexivity.
  - exists e. split; [exact He|exact Hm].
Defined.

(** ** Where a line matches *)

Lemma search_here (p : list Regexp.node) (s : bytes) (r : Regexp.result) :
  Regexp.match_here p s = Some r -> Regexp.search p s = Some (s, r).
Proof. intros H. destruct s; simpl; now rewrite H. Qed.

Lemma search_from (p : list Regexp.node) (s from : bytes) (r : Regexp.result) :
  Regexp.search p s = Some (from, r) ->
  exists pre, s = pre ++ from /\ Regexp.match_here p from = Some r.
Proof.
  induction s as [|c s IH]; simpl.
  - destruct (Regexp.match_here p []) eqn:E; [|discriminate].
    intros H. inversion H; subst. now exists [].
  - destruct (Regexp.match_here p (c :: s)) eqn:E.
    + intros H. inversion H; subst. now exists [].
    + intros H. destruct (IH H) as (pre & -> & Hm). now exists (c :: pre).
Qed.





Lemma parse_line_some_search (line : bytes) :
  parse_line line <> None <->
  Regexp.search (Regexp.nodes committedStateRegex) line <> None.
Proof.
  unfold parse_line, Regexp.FindStringSubmatch, Regexp.find.
  simpl Regexp.bol. cbv iota.
  destruct (Regexp.search (Regexp.nodes committedStateRegex) line) as [[from [caps rest]]|];
    simpl; split; intros H; try discriminate; auto.
Qed.

(** ** The repair of a collection that holds a height twice *)
Section Repair.

Context {A : Type} (height : A -> Z).

Lemma group_by_height_snoc (l : list (nat * A)) (d : nat * A) :
  Mongo.group_by_height height (l ++ [d])
  = Mongo.add_to_group (height (snd d)) (fst d) (Mongo.group_by_height height l).
Proof. unfold Mongo.group_by_height. now rewrite fold_left_app. Qed.

Lemma add_to_group_keys (h : Z) (id : nat) (gs : list (Z * list nat)) (k : Z) :
  In k (map fst (Mongo.add_to_group h id gs)) <-> In k (map fst gs) \/ k = h.
Proof.
  induction gs as [|[h' ids] gs IH]; simpl.
  - intuition.
  - destruct (Z.eqb h' h) eqn:E; simpl.
    + apply Z.eqb_eq in E. subst. intuition.
    + rewrite IH. intuition.
Qed.

Lemma add_to_group_NoDup (h : Z) (id : nat) (gs : list (Z * list nat)) :
  NoDup (map fst gs) -> NoDup (map fst (Mongo.add_to_group h id gs)).
Proof.
  induction gs as [|[h' ids] gs IH]; simpl; intros N.
  - constructor; [intros []|constructor].
  - inversion N as [|? ? Hn N']; subst.
    destruct (Z.eqb h' h) eqn:E; simpl.
    + constructor; assumption.
    + constructor; [|auto]. rewrite add_to_group_keys.
      intros [H|H]; [contradiction|]. subst. rewrite Z.eqb_refl in E. discriminate.
Qed.

Lemma add_to_group_in (h : Z) (id : nat) (gs : list (Z * list nat)) (k : Z) (ids : list nat) :
  NoDup (map fst gs) ->
  In (k, ids) (Mongo.add_to_group h id gs) ->
  (k <> h /\ In (k, ids) gs)
  \/ (k = h /\ ((exists ids0, In (h, ids0) gs /\ ids = ids0 ++ [id])
                \/ (~ In h (map fst gs) /\ ids = [id]))).
Proof.
  induction gs as [|[h' ids'] gs IH]; simpl; intros N.
  - intros [H|[]]. inversion H; subst. right. split; [reflexivity|]. right. auto.
  - inversion N as [|? ? Hn N']; subst.
    destruct (Z.eqb h' h) eqn:E; simpl.
    + apply Z.eqb_eq in E. subst h'. intros [H|H].
      * inversion H; subst. right. split; [reflexivity|]. left. exists ids'. auto.
      * left. split; [|now right].
        intros ->. apply Hn. change h with (fst (h, ids)). now apply in_map.
    + intros [H|H].
      * inversion H; subst. left. split; [|now left].
        intros ->. rewrite Z.eqb_refl in E. discriminate.
      * destruct (IH N' H) as [[Hk Hin]|[-> [(ids0 & Hin & ->)|[Hn' ->]]]].
        -- left. auto.
        -- right. split; [reflexivity|]. left. exists ids0. auto.
        -- right. split; [reflexivity|]. right. split; [|reflexivity].
           intros [Hh|Hh]; [|contradiction]. subst.
           rewrite Z.eqb_refl in E. discriminate.
Qed.

Lemma add_to_group_complete (h : Z) (id : nat) (gs : list (Z * list nat)) :
  NoDup (map fst gs) ->
  (forall ids0, In (h, ids0) gs -> In (h, ids0 ++ [id]) (Mongo.add_to_group h id gs))
  /\ (forall k ids0, k <> h -> In (k, ids0) gs -> In (k, ids0) (Mongo.add_to_group h id gs)).
Proof.
  induction gs as [|[h' ids'] gs IH]; simpl; intros N; [split; intros; contradiction|].
  inversion N as [|? ? Hn N']; subst. destruct (IH N') as [IH1 IH2].
  destruct (Z.eqb h' h) eqn:E.
  - apply Z.eqb_eq in E. subst h'. split.
    + intros ids0 [H|H].
      * inversion H; subst. now left.
      * exfalso. apply Hn. change h with (fst (h, ids0)). now apply in_map.
    + intros k ids0 Hk [H|H]; [inversion H; subst; contradiction|now right].
  - split.
    + intros ids0 [H|H].
      * inversion H; subst. rewrite Z.eqb_refl in E. discriminate.
      * right. auto.
    + intros k ids0 Hk [H|H]; [now left|right; auto].
Qed.

Lemma add_to_group_new (h : Z) (id : nat) (gs : list (Z * list nat)) :
  ~ In h (map fst gs) -> In (h, [id]) (Mongo.add_to_group h id gs).
Proof.
  induction gs as [|[h' ids'] gs IH]; simpl; intros Hn; [now left|].
  destruct (Z.eqb h' h) eqn:E.
  - apply Z.eqb_eq in E. subst. exfalso. apply Hn. now left.
  - right. apply IH. intros H. apply Hn. now right.
Qed.

Lemma ids_of_snoc (k : Z) (l : list (nat * A)) (d : nat * A) :
  ids_of height k (l ++ [d]) = ids_of height k l ++ (if has height k d then [fst d] else []).
Proof.
  unfold ids_of. rewrite filter_app, map_app. simpl. now destruct (has height k d).
Qed.

Lemma in_keys (gs : list (Z * list nat)) (k : Z) :
  In k (map fst gs) -> exists ids, In (k, ids) gs.
Proof.
  intros H. apply in_map_iff in H. destruct H as ([k' ids] & <- & Hin). now exists ids.
Qed.

(** The groups of the pipeline: one per height that occurs, with the
    [_id]s of the documents of that height in the order of the
    collection. *)
Lemma groups_spec (l : list (nat * A)) :
  NoDup (map fst (Mongo.group_by_height height l))
  /\ (forall k ids, In (k, ids) (Mongo.group_by_height height l) ->
        ids = ids_of height k l /\ ids <> [])
  /\ (forall k, ids_of height k l <> [] -> In (k, ids_of height k l) (Mongo.group_by_height height l)).
Proof.
  induction l as [|d l (N & S & C)] using rev_ind.
  - split; [constructor|]. split; [intros k ids []|]. intros k H. now contradiction H.
  - rewrite group_by_height_snoc.
    set (G := Mongo.group_by_height height l) in *.
    set (h := height (snd d)). set (id := fst d).
    assert (Hhas : forall k, has height k d = Z.eqb h k) by reflexivity.
    assert (Hempty : ~ In h (map fst G) -> ids_of height h l = []).
    { intros Hn. destruct (ids_of height h l) eqn:E; [reflexivity|].
      exfalso. apply Hn. change h with (fst (h, ids_of height h l)). apply in_map.
      apply C. rewrite E. discriminate. }
    split; [now apply add_to_group_NoDup|]. split.
    + intros k ids Hin. rewrite ids_of_snoc, Hhas.
      destruct (add_to_group_in _ _ _ _ _ N Hin)
        as [[Hk Hg]|[-> [(ids0 & Hg & ->)|[Hn ->]]]].
      * destruct (S _ _ Hg) as [-> Hne].
        replace (Z.eqb h k) with false by (symmetry; apply Z.eqb_neq; auto).
        now rewrite app_nil_r.
      * destruct (S _ _ Hg) as [-> Hne]. rewrite Z.eqb_refl.
        split; [reflexivity|]. intros H. now apply app_eq_nil in H.
      * rewrite Z.eqb_refl, (Hempty Hn). split; [reflexivity|discriminate].
    + intros k. rewrite ids_of_snoc, Hhas.
      destruct (Z.eqb h k) eqn:E.
      * apply Z.eqb_eq in E. subst k. intros _.
        destruct (ids_of height h l) as [|i0 is0] eqn:Ei.
        -- apply add_to_group_new. intros Hin.
           destruct (in_keys _ _ Hin) as (ids & Hg).
           destruct (S _ _ Hg) as [-> Hne]. now rewrite Ei in Hne.
        -- rewrite <- Ei. apply (proj1 (add_to_group_complete h id G N)).
           apply C. rewrite Ei. discriminate.
      * rewrite app_nil_r. intros Hne.
        apply (proj2 (add_to_group_complete h id G N)); [|now apply C].
        intros ->. rewrite Z.eqb_refl in E. discriminate.
Qed.

Lemma filter_nothing {X : Type} (p : X -> bool) (l : list X) :
  (forall x, In x l -> p x = false) -> filter p l = [].
Proof.
  induction l as [|x l IH]; simpl; intros H; [reflexivity|].
  rewrite (H x) by now left. apply IH. intros y Hy. apply H. now right.
Qed.

Lemma filter_all {X : Type} (p : X -> bool) (l : list X) :
  (forall x, In x l -> p x = true) -> filter p l = l.
Proof.
  induction l as [|x l IH]; simpl; intros H; [reflexivity|].
  rewrite (H x) by now left. f_equal. apply IH. intros y Hy. apply H. now right.
Qed.

Lemma filter_both {X : Type} (p q : X -> bool) (l : list X) :
  filter p (filter q l) = filter (fun x => q x && p x) l.
Proof.
  induction l as [|x l IH]; simpl; [reflexivity|].
  destruct (q x); simpl; [destruct (p x)|]; now rewrite IH.
Qed.

Lemma filter_swap {X : Type} (p q : X -> bool) (l : list X) :
  filter p (filter q l) = filter q (filter p l).
Proof.
  rewrite !filter_both. apply filter_ext. intros x. apply andb_comm.
Qed.

Lemma NoDup_ids_filter (p : nat * A -> bool) (l : list (nat * A)) :
  NoDup (map fst l) -> NoDup (map fst (filter p l)).
Proof.
  induction l as [|d l IH]; simpl; intros N; [constructor|].
  inversion N as [|? ? Hn N']; subst.
  destruct (p d); simpl; [|auto]. constructor; [|auto].
  intros H. apply Hn. apply in_map_iff in H. destruct H as (d' & E & Hin).
  apply filter_In in Hin. rewrite <- E. apply in_map. tauto.
Qed.

Lemma NoDup_ids_inj (l : list (nat * A)) (d d' : nat * A) :
  NoDup (map fst l) -> In d l -> In d' l -> fst d = fst d' -> d = d'.
Proof.
  induction l as [|x l IH]; simpl; intros N Hd Hd' E; [contradiction|].
  inversion N as [|? ? Hn N']; subst.
  destruct Hd as [->|Hd], Hd' as [->|Hd']; auto.
  - exfalso. apply Hn. rewrite E. now apply in_map.
  - exfalso. apply Hn. rewrite <- E. now apply in_map.
Qed.

Lemma delete_id_filter (id : nat) (l : list (nat * A)) :
  NoDup (map fst l) ->
  Mongo.delete_id id l = filter (fun d => negb (Nat.eqb (fst d) id)) l.
Proof.
  induction l as [|d l IH]; simpl; intros N; [reflexivity|].
  inversion N as [|? ? Hn N']; subst.
  destruct (Nat.eqb (fst d) id) eqn:E; simpl.
  - apply Nat.eqb_eq in E. symmetry. apply filter_all.
    intros x Hx. apply negb_true_iff, Nat.eqb_neq. intros Hx'.
    apply Hn. rewrite E, <- Hx'. now apply in_map.
  - f_equal. auto.
Qed.

Lemma delete_all_filter (ids : list nat) (l : list (nat * A)) :
  NoDup (map fst l) ->
  delete_all ids l = filter (fun d => negb (existsb (Nat.eqb (fst d)) ids)) l.
Proof.
  revert l. induction ids as [|id ids IH]; intros l N; simpl.
  - symmetry. now apply filter_all.
  - unfold delete_all in *. rewrite IH, delete_id_filter by
      (try rewrite delete_id_filter by assumption; try apply NoDup_ids_filter; assumption).
    rewrite filter_both. apply filter_ext. intros d. now rewrite negb_orb.
Qed.

Lemma flat_map_big (gs : list (Z * list nat)) :
  flat_map tail_ids (filter (fun g => (1 <? List.length (snd g))%nat) gs)
  = flat_map tail_ids gs.
Proof.
  induction gs as [|[k ids] gs IH]; simpl; [reflexivity|].
  destruct ids as [|i [|j ids]]; simpl; rewrite IH; reflexivity.
Qed.

Lemma doomed_spec (l : list (nat * A)) (id : nat) :
  In id (doomed height l) <-> exists k, In id (tl (ids_of height k l)).
Proof.
  destruct (groups_spec l) as (N & S & C). unfold doomed. rewrite in_flat_map. split.
  - intros ([k ids] & Hg & Hin). destruct (S _ _ Hg) as [-> _]. now exists k.
  - intros (k & Hin). exists (k, ids_of height k l). split; [|exact Hin].
    apply C. intros E. rewrite E in Hin. contradiction.
Qed.

Lemma first_of_group (F : list (nat * A)) :
  NoDup (map fst F) ->
  filter (fun d => negb (existsb (Nat.eqb (fst d)) (tl (map fst F)))) F = firstn 1 F.
Proof.
  destruct F as [|d0 rest]; [reflexivity|]. simpl. intros N.
  inversion N as [|? ? Hn N']; subst.
  assert (E0 : existsb (Nat.eqb (fst d0)) (map fst rest) = false).
  { destruct (existsb (Nat.eqb (fst d0)) (map fst rest)) eqn:E; [|reflexivity].
    apply existsb_exists in E. destruct E as (x & Hx & Hx').
    apply Nat.eqb_eq in Hx'. subst. contradiction. }
  rewrite E0. simpl. f_equal. apply filter_nothing.
  intros x Hx. apply negb_false_iff, existsb_exists.
  exists (fst x). split; [now apply in_map|apply Nat.eqb_refl].
Qed.

(** After the deletions every height keeps its first document, and only
    that one. *)
Lemma repair_keeps_first (l : list (nat * A)) (h : Z) :
  NoDup (map fst l) ->
  filter (has height h) (delete_all (doomed height l) l) = firstn 1 (filter (has height h) l).
Proof.
  intros N. rewrite delete_all_filter by assumption. rewrite filter_swap.
  rewrite <- (first_of_group (filter (has height h) l)) by now apply NoDup_ids_filter.
  apply filter_ext_in. intros d Hd. apply filter_In in Hd. destruct Hd as [Hl Hh].
  f_equal. fold (ids_of height h l).
  destruct (existsb (Nat.eqb (fst d)) (doomed height l)) eqn:E.
  - apply existsb_exists in E. destruct E as (x & Hx & Hx').
    apply Nat.eqb_eq in Hx'. subst x.
    apply doomed_spec in Hx. destruct Hx as (k & Hk).
    assert (Hin : In (fst d) (ids_of height k l)) by (destruct (ids_of height k l); [contradiction|now right]).
    unfold ids_of in Hin. apply in_map_iff in Hin. destruct Hin as (d' & E' & Hf).
    apply filter_In in Hf. destruct Hf as [Hl' Hk'].
    assert (d' = d) by (apply (NoDup_ids_inj l); auto). subst d'.
    unfold has in Hh, Hk'. apply Z.eqb_eq in Hh. apply Z.eqb_eq in Hk'.
    rewrite Hk' in Hh. subst h.
    symmetry. apply existsb_exists. exists (fst d). split; [exact Hk|apply Nat.eqb_refl].
  - destruct (existsb (Nat.eqb (fst d)) (tl (ids_of height h l))) eqn:E'; [|reflexivity].
    apply existsb_exists in E'. destruct E' as (x & Hx & Hx').
    apply Nat.eqb_eq in Hx'. subst x.
    assert (In (fst d) (doomed height l)) by (apply doomed_spec; now exists h).
    assert (existsb (Nat.eqb (fst d)) (doomed height l) = true)
      by (apply existsb_exists; exists (fst d); split; [assumption|apply Nat.eqb_refl]).
    congruence.
Qed.

Lemma has_dup_false (l : list (nat * A)) :
  (forall h, (List.length (filter (has height h) l) <= 1)%nat) ->
  Mongo.has_dup (map (fun d => height (snd d)) l) = false.
Proof.
  induction l as [|d l IH]; simpl; intros H; [reflexivity|].
  apply orb_false_iff. split.
  - destruct (existsb (Z.eqb (height (snd d))) (map (fun d0 => height (snd d0)) l)) eqn:E;
      [|reflexivity].
    apply existsb_exists in E. destruct E as (x & Hx & Hx').
    apply Z.eqb_eq in Hx'. subst x.
    apply in_map_iff in Hx. destruct Hx as (d' & E' & Hin).
    specialize (H (height (snd d))). unfold has in H at 1. rewrite Z.eqb_refl in H.
    simpl in H.
    assert (In d' (filter (has height (height (snd d))) l)).
    { apply filter_In. split; [assumption|]. unfold has. rewrite E'. apply Z.eqb_refl. }
    destruct (filter (has height (height (snd d))) l); [contradiction|simpl in H; lia].
  - apply IH. intros h. specialize (H h). destruct (has height h d); simpl in H; lia.
Qed.

Lemma set_docs_twice (s : IndexState A) (a b : list (nat * A)) :
  set_docs (set_docs s a) b = set_docs s b.
Proof. reflexivity. Qed.

Lemma set_docs_same (s : IndexState A) : set_docs s (Mongo.docs (coll s)) = s.
Proof. destruct s as [[l u n] f lg]. reflexivity. Qed.

Lemma delete_ids_no_fault (ids : list nat) (s : IndexState A) (n : nat) :
  script s = [] ->
  delete_ids ids (s, n)
  = (set_docs s (delete_all ids (Mongo.docs (coll s))), (n + List.length ids)%nat).
Proof.
  revert s n. induction ids as [|id ids IH]; intros s n F.
  - simpl. now rewrite set_docs_same, Nat.add_0_r.
  - unfold delete_ids in *. simpl fold_left.
    unfold DeleteOne at 2, take_fault. rewrite F.
    cbv beta iota.
    rewrite (IH (mkIndexState
                   (Mongo.mkCollection (Mongo.delete_id id (Mongo.docs (coll s)))
                      (Mongo.unique (coll s)) (Mongo.next_id (coll s)))
                   (script s) (ilog s)) (S n)) by exact F.
    simpl. unfold set_docs. simpl. f_equal. lia.
Qed.

Lemma delete_groups_no_fault (gs : list (Z * list nat)) (s : IndexState A) (n : nat) :
  script s = [] ->
  delete_groups gs (s, n)
  = (set_docs s (delete_all (flat_map tail_ids gs) (Mongo.docs (coll s))),
     (n + List.length (flat_map tail_ids gs))%nat).
Proof.
  revert s n. induction gs as [|[k ids] gs IH]; intros s n F.
  - simpl. now rewrite set_docs_same, Nat.add_0_r.
  - unfold delete_groups in *. simpl fold_left.
    assert (E : (if (1 <? List.length ids)%nat then delete_ids (tl ids) (s, n) else (s, n))
                = delete_ids (tl ids) (s, n)).
    { destruct ids as [|i [|j ids]]; reflexivity. }
    rewrite E, delete_ids_no_fault by exact F.
    rewrite IH by exact F. simpl flat_map. unfold tail_ids at 3 5. simpl snd.
    unfold delete_all. rewrite fold_left_app, length_app. simpl.
    unfold set_docs. simpl. f_equal. lia.
Qed.

Lemma removeDuplicates_no_fault (s : IndexState A) :
  script s = [] -> NoDup (map fst (Mongo.docs (coll s))) ->
  exists lg,
    removeDuplicates height s
    = (mkIndexState
         (Mongo.mkCollection (delete_all (doomed height (Mongo.docs (coll s))) (Mongo.docs (coll s)))
            (Mongo.unique (coll s)) (Mongo.next_id (coll s)))
         [] lg, None).
Proof.
  destruct s as [[l u n] f lg]. simpl. intros -> N.
  unfold removeDuplicates, Aggregate, take_fault. simpl script.
  cbv beta iota. unfold Mongo.aggregate_duplicates. simpl coll. simpl Mongo.docs.
  rewrite delete_groups_no_fault by reflexivity.
  rewrite flat_map_big. fold (doomed height l). unfold set_docs. simpl.
  destruct (0 <? List.length (doomed height l))%nat; eexists; reflexivity.
Qed.

End Repair.

Lemma dup_key_message_found :
  Contains Mongo.dup_key_message (B "E11000 duplicate key error") = true.
Proof. vm_compute. reflexivity. Qed.

(** C3: on a collection whose unique index cannot be built because a
    height occurs twice (and with a store that answers every call),
    [createUniqueIndex] deletes in every group of equal height all
    documents but the first met, builds the index at the second attempt
    and returns no error: every height keeps exactly its first document.
    With exactly two documents, both of height 100, the index is built and
    the first of the two is the only document left. *)
Theorem C3_dedup_repair {A : Type} (height : A -> Z) (fieldName collectionName : bytes) :
  (forall (c : Mongo.Collection A) (lg : list LogEntry),
     NoDup (map fst (Mongo.docs c)) ->
     Mongo.unique c = false ->
     Mongo.has_dup (Mongo.heights height c) = true ->
     exists s',
       createUniqueIndex height fieldName collectionName (mkIndexState c [] lg) = (s', None)
       /\ Mongo.unique (coll s') = true
       /\ Mongo.docs (coll s') = delete_all (doomed height (Mongo.docs c)) (Mongo.docs c)
       /\ (forall h, filter (has height h) (Mongo.docs (coll s'))
                     = firstn 1 (filter (has height h) (Mongo.docs c)))
       /\ Mongo.has_dup (Mongo.heights height (coll s')) = false)
  /\ (forall (a b : A) (ida idb next : nat) (lg : list LogEntry),
        ida <> idb -> height a = 100 -> height b = 100 ->
        exists s',
          createUniqueIndex height fieldName collectionName
            (mkIndexState (Mongo.mkCollection [(ida, a); (idb, b)] false next) [] lg)
          = (s', None)
          /\ Mongo.unique (coll s') = true
          /\ Mongo.docs (coll s') = [(ida, a)]).
Proof.
  assert (General : forall (c : Mongo.Collection A) (lg : list LogEntry),
     NoDup (map fst (Mongo.docs c)) ->
     Mongo.unique c = false ->
     Mongo.has_dup (Mongo.heights height c) = true ->
     exists s',
       createUniqueIndex height fieldName collectionName (mkIndexState c [] lg) = (s', None)
       /\ Mongo.unique (coll s') = true
       /\ Mongo.docs (coll s') = delete_all (doomed height (Mongo.docs c)) (Mongo.docs c)
       /\ (forall h, filter (has height h) (Mongo.docs (coll s'))
                     = firstn 1 (filter (has height h) (Mongo.docs c)))
       /\ Mongo.has_dup (Mongo.heights height (coll s')) = false).
  { intros [l u n] lg N U D. simpl in N, U, D. subst u.
    set (final := delete_all (doomed height l) l).
    assert (K : forall h, filter (has height h) final = firstn 1 (filter (has height h) l))
      by (intros h; now apply repair_keeps_first).
    assert (ND : Mongo.has_dup (map (fun d => height (snd d)) final) = false).
    { apply has_dup_false. intros h. rewrite K.
      destruct (filter (has height h) l); simpl; lia. }
    unfold createUniqueIndex.
    unfold CreateOne at 1, take_fault. simpl script. cbv beta iota.
    unfold Mongo.create_unique at 1. simpl coll. simpl Mongo.unique. cbv iota.
    unfold Mongo.heights in D |- *. simpl Mongo.docs in D |- *. rewrite D.
    cbv beta iota. rewrite dup_key_message_found.
    destruct (removeDuplicates_no_fault height
                (ilog_add (LogDuplicatesFound collectionName fieldName)
                   (mkIndexState (Mongo.mkCollection l false n) [] lg)))
      as (lg' & R); [reflexivity|exact N|].
    unfold ilog_add in R |- *. cbn [coll script ilog] in R |- *.
    fold final in R. rewrite R.
    unfold CreateOne, take_fault. simpl script. cbv beta iota.
    unfold Mongo.create_unique. simpl coll. simpl Mongo.unique. cbv iota.
    unfold Mongo.heights. simpl Mongo.docs. fold final. rewrite ND.
    eexists. split; [reflexivity|]. simpl. repeat split; auto. }
  split; [exact General|].
  intros a b ida idb next lg Hne Ha Hb.
  destruct (General (Mongo.mkCollection [(ida, a); (idb, b)] false next) lg)
    as (s' & E & U & Dc & _).
  - simpl. constructor; [intros [H|[]]; congruence|]. constructor; [intros []|constructor].
  - reflexivity.
  - unfold Mongo.heights. simpl. rewrite Ha, Hb. reflexivity.
  - exists s'. split; [exact E|]. split; [exact U|].
    rewrite Dc. simpl Mongo.docs. unfold doomed, Mongo.group_by_height. simpl.
    rewrite Ha, Hb. simpl. unfold delete_all. simpl.
    destruct (Nat.eqb ida idb) eqn:E1; [apply Nat.eqb_eq in E1; contradiction|].
    now rewrite Nat.eqb_refl.
Qed.

Lemma C3_dedup_repair_witness :
  exists s',
    createUniqueIndex Height (B "height") (B "committed_state")
      (mkIndexState (Mongo.mkCollection [(0%nat, doc100a); (1%nat, doc100b)] false 2) [] [])
    = (s', None)
    /\ Mongo.unique (coll s') = true
    /\ Mongo.docs (coll s') = [(0%nat, doc100a)].
Proof.
  apply (proj2 (C3_dedup_repair Height (B "height") (B "committed_state"))
           doc100a doc100b 0%nat 1%nat 2%nat []).
  - discriminate.
  - reflexivity.
  - reflexivity.
Defined.

(** ** The lines a scan yields *)

Lemma split_first (cur data : bytes) :
  exists x, hd [] (fst (split_lines_from cur data) ++ [snd (split_lines_from cur data)])
            = rev cur ++ x.
Proof.
  revert cur. induction data as [|c rest IH]; intros cur; simpl.
  - exists []. now rewrite app_nil_r.
  - destruct (Regexp.is_newline c).
    + destruct (split_lines_from [] rest). simpl. exists []. now rewrite app_nil_r.
    + destruct (IH (c :: cur)) as (x & Hx). exists (c :: x).
      rewrite Hx. simpl. now rewrite <- app_assoc.
Qed.

Lemma fragment_tokens_rev (cur : bytes) :
  match cur with [] => [] | _ :: _ => [Bufio.dropCR (rev cur)] end
  = fragment_tokens (rev cur).
Proof.
  destruct cur as [|c cur]; [reflexivity|].
  unfold fragment_tokens. destruct (rev (c :: cur)) eqn:E; [|reflexivity].
  apply (f_equal (@List.length ascii)) in E. rewrite length_rev in E. discriminate.
Qed.

(** A scan over lines that are all shorter than the token limit reads all
    the bytes and yields every complete line and then the fragment. *)
Lemma scan_from_short (cur : bytes) (n : Z) (data : bytes) :
  n = Z.of_nat (List.length cur) ->
  Forall short (fst (split_lines_from cur data) ++ [snd (split_lines_from cur data)]) ->
  Bufio.scan_from cur n data
  = (map Bufio.dropCR (fst (split_lines_from cur data))
       ++ fragment_tokens (snd (split_lines_from cur data)),
     Z.of_nat (List.length data), false).
Proof.
  revert cur n. induction data as [|c rest IH]; intros cur n Hn Hs.
  - simpl in *. inversion Hs as [|? ? Hc _]; subst. unfold short in Hc.
    rewrite length_rev in Hc.
    replace (Bufio.MaxScanTokenSize <=? Z.of_nat (List.length cur)) with false
      by (symmetry; apply Z.leb_gt; exact Hc).
    now rewrite fragment_tokens_rev.
  - assert (Hlt : n < Bufio.MaxScanTokenSize).
    { destruct (split_first cur (c :: rest)) as (x & Hx).
      destruct (fst (split_lines_from cur (c :: rest))
                ++ [snd (split_lines_from cur (c :: rest))]) as [|l0 ls0] eqn:E.
      - destruct (fst (split_lines_from cur (c :: rest))); discriminate.
      - simpl in Hx. subst l0. inversion Hs as [|? ? Hc _]; subst.
        unfold short in Hc. rewrite length_app, length_rev in Hc. lia. }
    cbn [Bufio.scan_from].
    replace (Bufio.MaxScanTokenSize <=? n) with false by (symmetry; apply Z.leb_gt; exact Hlt).
    simpl split_lines_from in *.
    destruct (Regexp.is_newline c).
    + destruct (split_lines_from [] rest) as [ls fr] eqn:E. simpl in Hs |- *.
      inversion Hs as [|? ? _ Hs']; subst.
      rewrite (IH [] 0 eq_refl) by (rewrite E; exact Hs').
      rewrite E. simpl. f_equal. f_equal. lia.
    + rewrite (IH (c :: cur) (n + 1)); [|simpl List.length; lia|exact Hs].
      simpl. f_equal. f_equal. lia.
Qed.

Lemma Scan_short (data : bytes) :
  Forall short (complete_lines data ++ [fragment data]) ->
  Bufio.Scan data
  = (map Bufio.dropCR (complete_lines data) ++ fragment_tokens (fragment data),
     Z.of_nat (List.length data), false).
Proof. intros H. now apply scan_from_short. Qed.

Lemma bytes_eqb_eq (a b : bytes) : bytes_eqb a b = true <-> a = b.
Proof.
  revert b. induction a as [|x a IH]; intros [|y b]; simpl; split; intros H;
    try reflexivity; try discriminate.
  - apply andb_true_iff in H. destruct H as [H1 H2].
    apply Ascii.eqb_eq in H1. apply IH in H2. now subst.
  - inversion H; subst. apply andb_true_iff. split; [apply Ascii.eqb_refl|now apply IH].
Qed.

(** ** The tailer *)

Lemma openAndSeek_inv (fs : Fs.FS) (filePath : bytes) (t : Tailer) (st : State) :
  tailer_inv (fst (openAndSeek fs filePath (t, st))).
Proof.
  unfold openAndSeek. destruct (Fs.Open fs filePath) as [f|e]; simpl;
    intros g Hg; simpl in Hg; inversion Hg; reflexivity.
Qed.

Lemma read_new_inv (fs : Fs.FS) (f : Fs.File) (ts : Tailer * State) :
  tailer_inv (fst (read_new fs f ts)).
Proof.
  unfold read_new. destruct ts as [t st].
  destruct (Fs.remaining fs f) as [data|]; simpl.
  - destruct (Bufio.Scan data) as [[lines k] tooLong]. simpl.
    intros g Hg. simpl in Hg. inversion Hg. reflexivity.
  - intros g Hg. simpl in Hg. inversion Hg. reflexivity.
Qed.

Lemma handle_event_inv (fs : Fs.FS) (filePath : bytes) (event : Fsnotify.Event)
    (ts : Tailer * State) :
  tailer_inv (fst ts) -> tailer_inv (fst (handle_event fs filePath event ts)).
Proof.
  intros H. unfold handle_event.
  destruct (negb (bytes_eqb (Fsnotify.Name event) filePath)); [exact H|].
  set (ts1 := if Fsnotify.Has (Fsnotify.Op event) Fsnotify.Create
              then on_create fs filePath ts else ts).
  assert (H1 : tailer_inv (fst ts1)).
  { subst ts1. destruct (Fsnotify.Has (Fsnotify.Op event) Fsnotify.Create); [|exact H].
    unfold on_create. destruct ts as [t st]. apply openAndSeek_inv. }
  destruct (Fsnotify.Has (Fsnotify.Op event) Fsnotify.Write); [|exact H1].
  unfold on_write.
  set (ts2 := match file (fst ts1) with
              | None => openAndSeek fs filePath ts1
              | Some _ => ts1
              end).
  assert (H2 : tailer_inv (fst ts2)).
  { subst ts2. destruct (file (fst ts1)); [exact H1|].
    destruct ts1 as [t1 st1]. apply openAndSeek_inv. }
  destruct (file (fst ts2)); [apply read_new_inv|exact H2].
Qed.

(** The invariant holds at the start of the loop and after every message. *)
Lemma watchLogFile_inv (fs0 : Fs.FS) (filePath : bytes) (msgs : list Message) (st : State) :
  tailer_inv (fst (watchLogFile fs0 filePath msgs st)).
Proof.
  unfold watchLogFile.
  assert (H0 : tailer_inv (fst (watch_init fs0 filePath st))).
  { unfold watch_init.
    pose proof (openAndSeek_inv fs0 filePath
                  (mkTailer None (or_zero 0 (Fs.Size fs0 filePath)) []) st) as H.
    destruct (openAndSeek fs0 filePath
                (mkTailer None (or_zero 0 (Fs.Size fs0 filePath)) [], st)). exact H. }
  revert H0. generalize (watch_init fs0 filePath st).
  induction msgs as [|m msgs IH]; intros ts H; [exact H|].
  simpl. apply IH. destruct m as [fs event|]; simpl; [now apply handle_event_inv|exact H].
Qed.

Lemma read_new_unfold (fs : Fs.FS) (f : Fs.File) (t : Tailer) (st : State) :
  Fs.IsDir (Fs.f_node f) = false ->
  read_new fs f (t, st)
  = (mkTailer
       (Some (Fs.mkFile (Fs.f_node f)
                (Fs.f_pos f + scanned (unread fs (Fs.f_node f) (Fs.f_pos f)))))
       (Fs.f_pos f + scanned (unread fs (Fs.f_node f) (Fs.f_pos f))) (closed t),
     after_scan (unread fs (Fs.f_node f) (Fs.f_pos f)) st).
Proof.
  intros Hd. unfold read_new, Fs.remaining. rewrite Hd.
  fold (unread fs (Fs.f_node f) (Fs.f_pos f)).
  unfold scanned, after_scan.
  destruct (Bufio.Scan (unread fs (Fs.f_node f) (Fs.f_pos f))) as [[lines k] tooLong].
  reflexivity.
Qed.

Lemma name_differs (a b : bytes) : a <> b -> negb (bytes_eqb a b) = true.
Proof.
  intros H. destruct (bytes_eqb a b) eqn:E; [|reflexivity].
  apply bytes_eqb_eq in E. contradiction.
Qed.

Lemma name_same (a : bytes) : negb (bytes_eqb a a) = false.
Proof. apply negb_false_iff, bytes_eqb_eq. reflexivity. Qed.

(** C10: a write notification for the watched path that finds no file
    open opens the file at the path and places it at the saved offset
    before it reads: what the parser is fed is scanned from the bytes
    after the offset only, and the offset moves on by the bytes read.
    When the file cannot be opened the notification is dropped: the offset
    and the database are as before, and the failure is logged. *)
Theorem C10_write_without_handle (fs : Fs.FS) (filePath : bytes) (event : Fsnotify.Event)
    (t : Tailer) (st : State) :
  Fsnotify.Name event = filePath ->
  Fsnotify.Has (Fsnotify.Op event) Fsnotify.Create = false ->
  Fsnotify.Has (Fsnotify.Op event) Fsnotify.Write = true ->
  file t = None ->
  (forall f, Fs.Open fs filePath = inl f -> Fs.IsDir (Fs.f_node f) = false ->
     let content := Fs.content fs (Fs.ino (Fs.f_node f)) in
     let data := unread fs (Fs.f_node f) (currentPos t) in
     firstn (Z.to_nat (currentPos t)) content ++ data = content
     /\ handle_event fs filePath event (t, st)
        = (mkTailer (Some (Fs.mkFile (Fs.f_node f) (currentPos t + scanned data)))
             (currentPos t + scanned data) (closed t),
           after_scan data st))
  /\ (forall e, Fs.Open fs filePath = inr e ->
        handle_event fs filePath event (t, st)
        = (t, add_log (LogWatchOpenError filePath) st)).
Proof.
  intros Hn Hc Hw Hf. split.
  - intros f Ho Hd content data. subst content data.
    split; [apply firstn_skipn|].
    unfold handle_event. rewrite Hn, name_same, Hc, Hw.
    unfold on_write. cbn [fst]. rewrite Hf.
    unfold openAndSeek. rewrite Ho. cbn [fst file].
    now rewrite read_new_unfold by exact Hd.
  - intros e Ho. unfold handle_event. rewrite Hn, name_same, Hc, Hw.
    unfold on_write. cbn [fst]. rewrite Hf.
    unfold openAndSeek. rewrite Ho. simpl.
    destruct t as [ft pos cl]. simpl in Hf. subst ft. reflexivity.
Qed.

Lemma C10_write_without_handle_witness :
  handle_event empty_fs (B "logs/stdout-xx.txt")
    (Fsnotify.mkEvent (B "logs/stdout-xx.txt") Fsnotify.Write)
    (mkTailer None 120 [], initial_state)
  = (mkTailer None 120 [],
     add_log (LogWatchOpenError (B "logs/stdout-xx.txt")) initial_state).
Proof.
  apply (proj2 (C10_write_without_handle empty_fs (B "logs/stdout-xx.txt")
                  (Fsnotify.mkEvent (B "logs/stdout-xx.txt") Fsnotify.Write)
                  (mkTailer None 120 []) initial_state
                  eq_refl eq_refl eq_refl eq_refl) Fs.ErrNotExist).
  vm_compute. reflexivity.
Defined.

(** ** The historical scanner *)

Section SortByKey.

Context {X : Type} (key : X -> Z).

Lemma insert_by_perm (x : X) (l : list X) : Permutation (x :: l) (insert_by (less_key key) x l).
Proof.
  induction l as [|y l IH]; simpl; [apply Permutation_refl|].
  destruct ((less_key key) y x); [|apply Permutation_refl].
  apply perm_trans with (y :: x :: l); [apply perm_swap|now apply perm_skip].
Qed.

Lemma insert_by_hd (x : X) (l : list X) (a : X) :
  (le_key key) a x -> HdRel (le_key key) a l -> HdRel (le_key key) a (insert_by (less_key key) x l).
Proof.
  intros Hx Hl. destruct l as [|y l]; simpl; [now constructor|].
  destruct ((less_key key) y x); constructor; [now inversion Hl|exact Hx].
Qed.

Lemma insert_by_sorted (x : X) (l : list X) :
  Sorted (le_key key) l -> Sorted (le_key key) (insert_by (less_key key) x l).
Proof.
  induction l as [|y l IH]; simpl; intros S; [repeat constructor|].
  inversion S as [|? ? S' H]; subst.
  destruct ((less_key key) y x) eqn:E.
  - constructor; [auto|]. apply insert_by_hd; [|exact H].
    unfold less_key in E. apply Z.ltb_lt in E. unfold le_key. lia.
  - constructor; [exact S|]. constructor.
    unfold less_key in E. apply Z.ltb_ge in E. exact E.
Qed.

(** The sort of the embedding returns a permutation in ascending order of
    the key. *)
Lemma sort_Slice_spec (l : list X) :
  Permutation l (sort_Slice (less_key key) l) /\ Sorted (le_key key) (sort_Slice (less_key key) l).
Proof.
  induction l as [|x l [P S]]; simpl; [split; constructor|]. split.
  - apply perm_trans with (x :: sort_Slice (less_key key) l); [now apply perm_skip|].
    apply insert_by_perm.
  - now apply insert_by_sorted.
Qed.

End SortByKey.

(** C6, on the failing input: with the live name [stdout-xx.txt] the
    pattern is built from the name as it is, so the period of the name
    stands for any rune; the file [stdout-xxAtxt.1], which is not the live
    name followed by a period and a number, is selected, ordered first by
    its suffix, parsed, and the entry of its line is stored.  The two
    rotated segments follow in the order of their numbers, 2 before 10. *)
Theorem C6_unquoted_name_selects_stray :
  is_rotated_name (B "stdout-xx.txt") (B "stdout-xxAtxt.1") = false
  /\ (exists re,
        historicalRegex (B "stdout-xx.txt") = Some re
        /\ sort_Slice (less_suffix re) (historicalLogs re (Fs.entries stray_fs))
           = [B "stdout-xxAtxt.1"; B "stdout-xx.txt.2"; B "stdout-xx.txt.10"])
  /\ (exists st,
        processHistoricalLogs stray_fs (B "logs") (B "stdout-xx.txt") initial_state = Some st
        /\ map snd (Mongo.docs (committed_state (db st))) = [event10]).
Proof.
  split; [vm_compute; reflexivity|]. split.
  - eexists. split; [vm_compute; reflexivity|]. vm_compute. reflexivity.
  - eexists. split; [vm_compute; reflexivity|]. vm_compute. reflexivity.
Qed.

(** The order of the historical files: whatever the directory holds, the
    names are processed in ascending order of the number [Atoi] reads
    from their suffix, and they are the names the first loop kept. *)
Lemma historical_order (re : Regexp.t) (files : list Fs.Node) :
  Permutation (historicalLogs re files)
              (sort_Slice (less_suffix re) (historicalLogs re files))
  /\ Sorted (fun a b => suffix_number re a <= suffix_number re b)
            (sort_Slice (less_suffix re) (historicalLogs re files)).
Proof. apply (sort_Slice_spec (suffix_number re)). Qed.

Lemma greedy_digits_eol (s acc : bytes) :
  Regexp.greedy_star isDigit (Regexp.match_here [Regexp.Eol]) acc s
  = if forallb isDigit s then Some ([rev acc ++ s], []) else None.
Proof.
  revert acc. induction s as [|c s IH]; intros acc.
  - simpl. now rewrite app_nil_r.
  - cbn [Regexp.greedy_star forallb]. destruct (isDigit c); [|reflexivity].
    rewrite IH. cbn [andb]. destruct (forallb isDigit s); [|reflexivity].
    simpl. now rewrite <- app_assoc.
Qed.

Lemma strip_prefix_concat (a b s : bytes) :
  strip_prefix (a ++ b) s
  = match strip_prefix a s with
    | Some s' => strip_prefix b s'
    | None => None
    end.
Proof.
  revert s. induction a as [|x a IH]; intros s; [reflexivity|].
  destruct s as [|y s]; simpl; [reflexivity|].
  destruct (byte_eqb x y); [apply IH|reflexivity].
Qed.

Lemma match_plain_name (name : bytes) (ns rest : list Regexp.node) (s : bytes) :
  name_nodes name = Some ns ->
  Forall (fun c => byte_eqb c "." = false) name ->
  Regexp.match_here (ns ++ rest) s
  = match strip_prefix name s with
    | Some s' => Regexp.match_here rest s'
    | None => None
    end.
Proof.
  revert ns s. induction name as [|c name IH]; intros ns s Hn Hp.
  - simpl in Hn. inversion Hn. reflexivity.
  - inversion Hp as [|? ? Hc Hp']; subst. simpl in Hn.
    destruct (name_nodes name) as [ns'|]; [|discriminate].
    rewrite Hc in Hn. destruct (is_meta c || (128 <=? code c)); [discriminate|].
    inversion Hn; subst. cbn [app Regexp.match_here strip_prefix].
    destruct s as [|y s]; [reflexivity|].
    destruct (byte_eqb c y); [now apply IH|reflexivity].
Qed.

(** When the live name has no period (and no other operator of the
    pattern syntax), the first loop keeps exactly the names of the form
    the specification gives. *)
Lemma historical_selection_without_period (mainLogName name : bytes) (re : Regexp.t) :
  historicalRegex mainLogName = Some re ->
  Forall (fun c => byte_eqb c "." = false) mainLogName ->
  Regexp.MatchString re name = is_rotated_name mainLogName name.
Proof.
  unfold historicalRegex. destruct (name_nodes mainLogName) as [ns|] eqn:N; [|discriminate].
  intros H Hp. inversion H; subst re. clear H.
  unfold Regexp.MatchString, Regexp.find, is_rotated_name. cbn [Regexp.bol Regexp.nodes].
  rewrite (match_plain_name _ _ _ _ N Hp), strip_prefix_concat.
  destruct (strip_prefix mainLogName name) as [s1|]; [|reflexivity].
  cbn [Regexp.match_here B list_ascii_of_string].
  destruct (strip_prefix ["."%char] s1) as [s2|]; [|reflexivity].
  destruct s2 as [|d ds]; [reflexivity|]. cbn [forallb].
  destruct (isDigit d); [|reflexivity].
  change (fun s : bytes => match s with [] => Some ([], s) | _ :: _ => None end)
    with (Regexp.match_here [Regexp.Eol]).
  rewrite greedy_digits_eol. cbn [andb].
  destruct (forallb isDigit ds); reflexivity.
Qed.

(** ** The extent of a match *)

Lemma cont_suffix (lo hi : Z) (s s' : bytes) :
  Utf8.cont lo hi s = Some s' -> exists pre, s = pre ++ s'.
Proof.
  unfold Utf8.cont. destruct s as [|c s]; [discriminate|].
  destruct (in_range lo hi c); [|discriminate].
  intros H. inversion H; subst. now exists [c].
Qed.

Lemma tail_suffix (n : nat) (lo hi : Z) (s s' : bytes) :
  Utf8.tail n lo hi s = Some s' -> exists pre, s = pre ++ s'.
Proof.
  unfold Utf8.tail. destruct (Utf8.cont lo hi s) as [s1|] eqn:E1; [|discriminate].
  destruct (cont_suffix _ _ _ _ E1) as (p1 & ->).
  destruct n as [|[|n]].
  - intros H. inversion H; subst. now exists p1.
  - intros H. destruct (cont_suffix _ _ _ _ H) as (p2 & ->).
    exists (p1 ++ p2). now rewrite app_assoc.
  - destruct (Utf8.cont 128 191 s1) as [s2|] eqn:E2; [|discriminate].
    destruct (cont_suffix _ _ _ _ E2) as (p2 & ->).
    intros H. destruct (cont_suffix _ _ _ _ H) as (p3 & ->).
    exists (p1 ++ p2 ++ p3). now rewrite <- !app_assoc.
Qed.





Lemma greedy_dot_all (acc s : bytes) :
  Forall (fun c => Regexp.is_newline c = false) s ->
  Regexp.greedy_star Regexp.dot (Regexp.match_here []) acc s = Some ([rev acc ++ s], []).
Proof.
  intros Hs. revert acc. induction Hs as [|c s Hc Hs IH]; intros acc.
  - simpl. now rewrite app_nil_r.
  - simpl. unfold Regexp.dot at 1. rewrite Hc. simpl.
    rewrite IH. simpl. now rewrite <- app_assoc.
Qed.



Lemma dropCR_no_newline (l : bytes) : no_newline l -> no_newline (Bufio.dropCR l).
Proof.
  unfold Bufio.dropCR, no_newline. intros H.
  destruct (rev l) as [|c r] eqn:E; [exact H|].
  destruct (code c =? 13); [|exact H].
  assert (El : l = rev r ++ [c]).
  { rewrite <- (rev_involutive l), E. reflexivity. }
  rewrite El in H. now apply Forall_app in H.
Qed.

(** The lines the scanner hands to [parseAndStore] hold no newline. *)
Lemma Scan_tokens_no_newline (data : bytes) :
  Forall no_newline (fst (fst (Bufio.Scan data))).
Proof.
  unfold Bufio.Scan.
  assert (G : forall cur n, no_newline cur ->
                Forall no_newline (fst (fst (Bufio.scan_from cur n data)))).
  { induction data as [|c rest IH]; intros cur n Hc; cbn [Bufio.scan_from].
    - destruct (Bufio.MaxScanTokenSize <=? n); [constructor|].
      destruct cur as [|x cur]; [constructor|]. cbn [fst]. constructor; [|constructor].
      apply dropCR_no_newline. unfold no_newline in *. now apply Forall_rev.
    - destruct (Bufio.MaxScanTokenSize <=? n); [constructor|].
      destruct (Regexp.is_newline c) eqn:N.
      + specialize (IH [] 0 (Forall_nil _)).
        destruct (Bufio.scan_from [] 0 rest) as [[toks k] e]. simpl in *.
        constructor; [|exact IH].
        apply dropCR_no_newline. unfold no_newline in *. now apply Forall_rev.
      + specialize (IH (c :: cur) (n + 1)).
        destruct (Bufio.scan_from (c :: cur) (n + 1) rest) as [[toks k] e]. simpl in *.
        apply IH. constructor; assumption. }
  apply G. constructor.
Qed.

(** * Further properties of the code *)

(** ** Lines the parser ignores *)

Lemma Contains_here (s sub r : bytes) :
  strip_prefix sub s = Some r -> Contains s sub = true.
Proof. intros H. destruct s; simpl; now rewrite H. Qed.

Lemma Contains_after (pre s sub : bytes) :
  Contains s sub = true -> Contains (pre ++ s) sub = true.
Proof.
  intros H. induction pre as [|c pre IH]; [exact H|].
  simpl. destruct (strip_prefix sub (c :: pre ++ s)); [reflexivity|exact IH].
Qed.

Lemma lazy_star_reaches (cls : ascii -> bool) (k : bytes -> option Regexp.result)
    (acc s : bytes) (r : Regexp.result) :
  Regexp.lazy_star cls k acc s = Some r ->
  exists pre s', s = pre ++ s' /\ k s' <> None.
Proof.
  revert acc. induction s as [|c s IH]; intros acc H; simpl in H.
  - destruct (k []) as [x|] eqn:E; [|discriminate].
    exists [], []. split; [reflexivity|]. now rewrite E.
  - destruct (k (c :: s)) as [x|] eqn:E.
    + exists [], (c :: s). split; [reflexivity|]. now rewrite E.
    + simpl in H. destruct (cls c); [|discriminate].
      destruct (IH _ H) as (pre & s' & -> & Hk). now exists (c :: pre), s'.
Qed.

Lemma match_needs_marker (s : bytes) :
  Regexp.match_here (Regexp.nodes committedStateRegex) s <> None ->
  Contains s (B "] Committed State") = true.
Proof.
  unfold committedStateRegex. cbn [Regexp.nodes Regexp.match_here].
  destruct (strip_prefix (B "I[") s) as [s1|] eqn:P; [|intros H; now contradiction H].
  apply strip_prefix_app in P. subst s.
  match goal with
  | |- Regexp.lazy_star _ ?k _ _ <> None -> _ => set (K := k)
  end.
  destruct (Regexp.lazy_star Regexp.dot K [] s1) as [r|] eqn:L;
    [|intros H; now contradiction H].
  intros _. destruct (lazy_star_reaches _ _ _ _ _ L) as (pre & s' & -> & Hk).
  rewrite app_assoc. apply Contains_after.
  subst K. cbv beta in Hk.
  destruct (strip_prefix (B "] Committed State") s') as [s2|] eqn:P2;
    [|now contradiction Hk].
  exact (Contains_here _ _ _ P2).
Qed.

Lemma unmarked_line_ignored (line : bytes) :
  Contains line (B "] Committed State") = false -> parse_line line = None.
Proof.
  intros H. destruct (parse_line line) eqn:E; [|reflexivity]. exfalso.
  assert (N : parse_line line <> None) by (rewrite E; discriminate).
  apply parse_line_some_search in N.
  destruct (Regexp.search (Regexp.nodes committedStateRegex) line) as [[from r]|] eqn:S;
    [|now contradiction N].
  destruct (search_from _ _ _ _ S) as (pre & -> & Hm).
  assert (C : Contains from (B "] Committed State") = true)
    by (apply match_needs_marker; rewrite Hm; discriminate).
  apply (Contains_after pre) in C. congruence.
Qed.

(** X1: lines that do not contain the text "] Committed State" are
    ignored: whatever else they hold, they store nothing, log nothing and
    leave the held entry as it is. *)
Theorem X1_unrelated_lines_ignored (lines : list bytes) (st : State) :
  Forall (fun line => Contains line (B "] Committed State") = false) lines ->
  feed lines st = st.
Proof.
  intros H. revert st. induction H as [|line lines Hl _ IH]; intros st; [reflexivity|].
  change (feed (line :: lines) st) with (feed lines (parseAndStore line st)).
  unfold parseAndStore. rewrite (unmarked_line_ignored _ Hl). apply IH.
Qed.

Lemma X1_unrelated_lines_ignored_witness :
  feed [B "I[2024-01-01|00:00:05.000] Executed Block module=state height=10";
        B "E[2024-01-01|00:00:06.000] committed state failed"; []] dup_state
  = dup_state.
Proof.
  apply X1_unrelated_lines_ignored.
  repeat (constructor; [vm_compute; reflexivity|]). constructor.
Defined.

(** ** From a line back to its fields *)

Lemma lazy_star_over (k : bytes -> option Regexp.result) (p s acc : bytes)
    (caps : list bytes) (r : bytes) :
  Forall (fun c => Regexp.dot c = true) p ->
  (forall c rest, In c p -> k (c :: rest) = None) ->
  k s = Some (caps, r) ->
  Regexp.lazy_star Regexp.dot k acc (p ++ s) = Some ((rev acc ++ p) :: caps, r).
Proof.
  intros Hd Hk Hs. revert acc. induction p as [|c p IH]; intros acc.
  - rewrite app_nil_r. destruct s; simpl; now rewrite Hs.
  - inversion Hd as [|? ? Hc Hd']; subst. simpl.
    rewrite (Hk c (p ++ s)) by now left. simpl. rewrite Hc.
    rewrite IH; [|exact Hd'|intros c' rest Hin; apply Hk; now right].
    simpl. now rewrite <- app_assoc.
Qed.

Lemma not_space_dot (c : ascii) : Regexp.space c = false -> Regexp.dot c = true.
Proof.
  unfold Regexp.space, Regexp.dot, Regexp.is_newline. cbv zeta.
  destruct (code c =? 10); [|reflexivity].
  destruct (code c =? 9); simpl; discriminate.
Qed.

Lemma drop_capture (x : option Regexp.result) : Regexp.drop_group (Regexp.capture [] x) = x.
Proof. destruct x as [[caps r]|]; reflexivity. Qed.

Lemma lit_step (l : bytes) (p : list Regexp.node) (s : bytes) :
  Regexp.match_here (Regexp.Lit l :: p) (l ++ s) = Regexp.match_here p s.
Proof. cbn [Regexp.match_here]. now rewrite strip_prefix_self. Qed.

Lemma spaces_then_lit (x : ascii) (l : bytes) (p : list Regexp.node) (s : bytes) :
  Regexp.space x = false ->
  Regexp.match_here (Regexp.Spaces :: Regexp.Lit (x :: l) :: p) (" "%char :: (x :: l) ++ s)
  = Regexp.match_here p s.
Proof.
  intros Hx. cbn [Regexp.match_here].
  change (Regexp.space " ") with true. cbv iota.
  cbn [app Regexp.greedy_star]. rewrite Hx.
  rewrite drop_capture. cbn [strip_prefix]. unfold byte_eqb at 1.
  rewrite Ascii.eqb_refl. now rewrite strip_prefix_self.
Qed.

Lemma lazy_field (f : bytes) (p : list Regexp.node) (s : bytes)
    (caps : list bytes) (r : bytes) :
  Forall (fun c => Regexp.space c = false) f ->
  Regexp.match_here (Regexp.Spaces :: p) s = Some (caps, r) ->
  Regexp.match_here (Regexp.LazyAny :: Regexp.Spaces :: p) (f ++ s) = Some (f :: caps, r).
Proof.
  intros Hf Hs. cbn [Regexp.match_here].
  change (fun s0 : bytes =>
            match s0 with
            | [] => None
            | c :: s' =>
                if Regexp.space c
                then Regexp.drop_group
                       (Regexp.greedy_star Regexp.space (Regexp.match_here p) [] s')
                else None
            end) with (Regexp.match_here (Regexp.Spaces :: p)).
  apply (lazy_star_over _ f s [] caps r).
  - revert Hf. apply Forall_impl. intros c. apply not_space_dot.
  - intros c rest Hin. rewrite Forall_forall in Hf. cbn [Regexp.match_here].
    now rewrite (Hf c Hin).
  - exact Hs.
Qed.

Lemma lazy_bracket (ts l : bytes) (p : list Regexp.node) (s : bytes)
    (caps : list bytes) (r : bytes) :
  Forall (fun c => byte_eqb "]" c = false /\ Regexp.is_newline c = false) ts ->
  Regexp.match_here (Regexp.Lit ("]"%char :: l) :: p) s = Some (caps, r) ->
  Regexp.match_here (Regexp.LazyAny :: Regexp.Lit ("]"%char :: l) :: p) (ts ++ s)
  = Some (ts :: caps, r).
Proof.
  intros Ht Hs.
  change (Regexp.match_here (Regexp.LazyAny :: Regexp.Lit ("]"%char :: l) :: p) (ts ++ s))
    with (Regexp.lazy_star Regexp.dot
            (Regexp.match_here (Regexp.Lit ("]"%char :: l) :: p)) [] (ts ++ s)).
  apply (lazy_star_over _ ts s [] caps r).
  - revert Ht. apply Forall_impl. intros c [_ Hn]. unfold Regexp.dot. now rewrite Hn.
  - intros c rest Hin. rewrite Forall_forall in Ht. destruct (Ht c Hin) as [Hb _].
    cbn [Regexp.match_here strip_prefix]. now rewrite Hb.
  - exact Hs.
Qed.

(** The groups of a committed-state line are its fields. *)
Lemma committed_line_groups (ts m h t a : bytes) :
  Forall (fun c => byte_eqb "]" c = false /\ Regexp.is_newline c = false) ts ->
  Forall (fun c => Regexp.space c = false) m ->
  Forall (fun c => Regexp.space c = false) h ->
  Forall (fun c => Regexp.space c = false) t ->
  no_newline a ->
  Regexp.match_here (Regexp.nodes committedStateRegex) (committed_line ts m h t a)
  = Some ([ts; m; h; t; a], []).
Proof.
  intros Hts Hm Hh Ht Ha.
  unfold committedStateRegex, committed_line. cbn [Regexp.nodes].
  rewrite lit_step.
  apply lazy_bracket; [exact Hts|].
  change (B "] Committed State module=")
    with (B "] Committed State" ++ " "%char :: B "module=").
  rewrite <- !app_assoc. rewrite lit_step.
  change ((" "%char :: B "module=") ++ m ++ B " height=" ++ h ++ B " txs=" ++ t
          ++ B " appHash=" ++ a)
    with (" "%char :: B "module=" ++ (m ++ B " height=" ++ h ++ B " txs=" ++ t
          ++ B " appHash=" ++ a)).
  rewrite (spaces_then_lit "m" (B "odule=")) by reflexivity.
  apply lazy_field; [exact Hm|].
  change (B " height=" ++ h ++ B " txs=" ++ t ++ B " appHash=" ++ a)
    with (" "%char :: B "height=" ++ (h ++ B " txs=" ++ t ++ B " appHash=" ++ a)).
  rewrite (spaces_then_lit "h" (B "eight=")) by reflexivity.
  apply lazy_field; [exact Hh|].
  change (B " txs=" ++ t ++ B " appHash=" ++ a)
    with (" "%char :: B "txs=" ++ (t ++ B " appHash=" ++ a)).
  rewrite (spaces_then_lit "t" (B "xs=")) by reflexivity.
  apply lazy_field; [exact Ht|].
  change (B " appHash=" ++ a) with (" "%char :: B "appHash=" ++ a).
  rewrite (spaces_then_lit "a" (B "ppHash=")) by reflexivity.
  cbn [Regexp.match_here]. now rewrite greedy_dot_all.
Qed.

Lemma digit_plain (d : Z) :
  0 <= d <= 9 ->
  byte_eqb "]" (digit d) = false /\ Regexp.is_newline (digit d) = false
  /\ Regexp.space (digit d) = false.
Proof.
  intros H.
  assert (E : d = 0 \/ d = 1 \/ d = 2 \/ d = 3 \/ d = 4 \/ d = 5 \/ d = 6 \/ d = 7
              \/ d = 8 \/ d = 9) by lia.
  repeat (destruct E as [->|E]; [repeat split; reflexivity|]). subst. repeat split; reflexivity.
Qed.

Lemma div_digit (k b : Z) : 0 <= k < b * 10 -> 0 < b -> 0 <= k / b <= 9.
Proof.
  intros H Hb. split; [apply Z.div_pos; lia|].
  assert (k / b < 10) by (apply Z.div_lt_upper_bound; lia). lia.
Qed.

Lemma mod_digit (k : Z) : 0 <= k mod 10 <= 9.
Proof. pose proof (Z.mod_pos_bound k 10). lia. Qed.

Lemma layout_text_plain (year month day hour min sec ms : Z) :
  0 <= year <= 9999 -> 0 <= month <= 99 -> 0 <= day <= 99 ->
  0 <= hour <= 99 -> 0 <= min <= 99 -> 0 <= sec <= 99 -> 0 <= ms <= 999 ->
  Forall (fun c => byte_eqb "]" c = false /\ Regexp.is_newline c = false)
         (layout_text year month day hour min sec ms).
Proof.
  intros Hy Hm Hd Hh Hmi Hs Hms.
  assert (D : forall d, 0 <= d <= 9 ->
                byte_eqb "]" (digit d) = false /\ Regexp.is_newline (digit d) = false).
  { intros d Hd'. destruct (digit_plain d Hd') as (H1 & H2 & _). auto. }
  unfold layout_text, two_digits. cbn [app B list_ascii_of_string].
  repeat (constructor;
          [first [ split; reflexivity
                 | apply D; first [apply mod_digit | apply div_digit; lia] ]|]).
  constructor.
Qed.

Lemma number_text_plain (ds : list Z) :
  Forall (fun d => 0 <= d <= 9) ds ->
  Forall (fun c => Regexp.space c = false) (number_text ds).
Proof.
  intros H. unfold number_text. induction H as [|d ds Hd _ IH]; simpl; constructor; auto.
  now destruct (digit_plain d Hd) as (_ & _ & ?).
Qed.

Lemma value_from_ge (ds : list Z) (n : Z) :
  0 <= n -> Forall (fun d => 0 <= d <= 9) ds ->
  n <= fold_left (fun n d => n * 10 + d) ds n.
Proof.
  intros Hn H. revert n Hn. induction H as [|d ds Hd _ IH]; intros n Hn; simpl; [lia|].
  specialize (IH (n * 10 + d)). lia.
Qed.

Lemma ParseUint_loop_digits (ds : list Z) (n : Z) :
  0 <= n -> Forall (fun d => 0 <= d <= 9) ds ->
  fold_left (fun n d => n * 10 + d) ds n <= Strconv.maxInt64 ->
  Strconv.ParseUint_loop (map digit ds) n
  = (fold_left (fun n d => n * 10 + d) ds n, None).
Proof.
  intros Hn H. revert n Hn. induction H as [|d ds Hd Hds IH]; intros n Hn Hv; [reflexivity|].
  cbn [map Strconv.ParseUint_loop fold_left] in *.
  destruct (digit_ok d Hd) as [D V]. rewrite D, V.
  pose proof (value_from_ge ds (n * 10 + d) ltac:(lia) Hds) as G.
  unfold Strconv.maxInt64, Strconv.maxUint64 in *.
  replace (18446744073709551615 / 10 + 1 <=? n) with false
    by (symmetry; apply Z.leb_gt; change (18446744073709551615 / 10 + 1)
          with 1844674407370955162; lia).
  replace (18446744073709551615 <? n * 10 + d) with false
    by (symmetry; apply Z.ltb_ge; lia).
  apply IH; lia.
Qed.

(** [ParseInt] reads a number written in decimal digits. *)
Lemma ParseInt_digits (ds : list Z) :
  decimal_digits ds -> number_value ds <= Strconv.maxInt64 ->
  Strconv.ParseInt (number_text ds) = (number_value ds, None).
Proof.
  intros [Hne H] Hv. destruct ds as [|d ds]; [contradiction|].
  inversion H as [|? ? Hd Hds]; subst.
  unfold Strconv.ParseInt, number_text. cbn [map].
  destruct (digit_no_sign d Hd) as [S1 S2]. rewrite S1, S2. cbn [orb negb andb].
  unfold Strconv.ParseUint.
  change (digit d :: map digit ds) with (map digit (d :: ds)).
  rewrite ParseUint_loop_digits; [|lia|exact H|exact Hv].
  fold (number_value (d :: ds)).
  pose proof (value_from_ge (d :: ds) 0 ltac:(lia) H) as G. fold (number_value (d :: ds)) in G.
  unfold Strconv.maxInt64 in Hv.
  replace (9223372036854775808 <=? number_value (d :: ds)) with false
    by (symmetry; apply Z.leb_gt; lia).
  reflexivity.
Qed.

Lemma Atoi_loop_digits (ds : list Z) (n : Z) :
  Forall (fun d => 0 <= d <= 9) ds ->
  Strconv.Atoi_loop (map digit ds) n = Some (fold_left (fun n d => n * 10 + d) ds n).
Proof.
  intros H. revert n. induction H as [|d ds Hd _ IH]; intros n; [reflexivity|].
  cbn [map Strconv.Atoi_loop fold_left].
  destruct (digit_ok d Hd) as [D V]. now rewrite D, V.
Qed.

(** [Atoi] reads a number written in decimal digits, on either path. *)
Lemma Atoi_digits (ds : list Z) :
  decimal_digits ds -> number_value ds <= Strconv.maxInt64 ->
  Strconv.Atoi (number_text ds) = (number_value ds, None).
Proof.
  intros Hd Hv. unfold Strconv.Atoi.
  destruct ((0 <? List.length (number_text ds))%nat
            && (List.length (number_text ds) <? 19)%nat); [|now apply ParseInt_digits].
  destruct Hd as [Hne H]. destruct ds as [|d ds]; [contradiction|].
  inversion H as [|? ? Hd0 Hds]; subst.
  unfold number_text. cbn [map].
  destruct (digit_no_sign d Hd0) as [S1 S2]. rewrite S1, S2. cbn [orb].
  change (digit d :: map digit ds) with (map digit (d :: ds)).
  rewrite Atoi_loop_digits by exact H. reflexivity.
Qed.

(** X2: writing an entry as a line and parsing the line gives the entry
    back.  The timestamp is written in the layout with its fields in
    range, the height and the txs in decimal digits within 64 bits, the
    module without white space, the appHash without a newline and without
    white space at its ends. *)
Theorem X2_line_round_trip (year month day hour min sec ms : Z) (m a : bytes)
    (hs txs : list Z) :
  0 <= year <= 9999 -> 1 <= month <= 12 -> 1 <= day <= Time.daysIn month year ->
  0 <= hour < 24 -> 0 <= min < 60 -> 0 <= sec < 60 -> 0 <= ms < 1000 ->
  Forall (fun c => Regexp.space c = false) m ->
  decimal_digits hs -> number_value hs <= Strconv.maxInt64 ->
  decimal_digits txs -> number_value txs <= Strconv.maxInt64 ->
  no_newline a -> Strings.TrimSpace a = a ->
  parse_line (committed_line (layout_text year month day hour min sec ms) m
                (number_text hs) (number_text txs) a)
  = Some (mkCommittedState (Time.Date year month day hour min sec (ms * 1000000)) m
            (number_value hs) (number_value txs) a).
Proof.
  intros Hy Hm Hd Hh Hmi Hs Hms Hmod Hhs Vhs Htx Vtx Ha Htrim.
  assert (Hd99 : day <= 31).
  { assert (M : month = 1 \/ month = 2 \/ month = 3 \/ month = 4 \/ month = 5
                \/ month = 6 \/ month = 7 \/ month = 8 \/ month = 9 \/ month = 10
                \/ month = 11 \/ month = 12) by lia.
    unfold Time.daysIn in Hd.
    repeat (destruct M as [->|M];
            [simpl in Hd; try destruct (Time.isLeap year); simpl in Hd; lia|]).
    subst. simpl in Hd. lia. }
  set (ts := layout_text year month day hour min sec ms).
  assert (G : Regexp.match_here (Regexp.nodes committedStateRegex)
                (committed_line ts m (number_text hs) (number_text txs) a)
              = Some ([ts; m; number_text hs; number_text txs; a], [])).
  { apply committed_line_groups; auto.
    - apply layout_text_plain; lia.
    - apply number_text_plain. apply Hhs.
    - apply number_text_plain. apply Htx. }
  unfold parse_line, Regexp.FindStringSubmatch, Regexp.find.
  simpl Regexp.bol. cbv iota. rewrite (search_here _ _ _ G).
  cbn [List.length]. rewrite Nat.sub_0_r, firstn_all.
  cbn [Nat.ltb Nat.leb List.length]. unfold entry_of_matches. cbn [nth].
  subst ts. rewrite Parse_layout_text by assumption.
  rewrite ParseInt_digits, Atoi_digits, Htrim by assumption. reflexivity.
Qed.

Lemma X2_line_round_trip_witness :
  parse_line (committed_line (layout_text 2024 1 1 0 0 5 0) (B "x")
                (number_text [1; 0]) (number_text [3]) (B "abc"))
  = Some event10.
Proof.
  apply (X2_line_round_trip 2024 1 1 0 0 5 0 (B "x") (B "abc") [1; 0] [3]);
    try (vm_compute; split; discriminate);
    try (vm_compute; discriminate);
    try (vm_compute; reflexivity);
    try (repeat constructor; lia);
    try (split; [discriminate|repeat constructor; lia]).
Defined.

(** ** What every step of the pipeline keeps *)

Lemma InsertCommitted_effect (d : DB) (e : CommittedState) :
  block_time_gap (fst (InsertCommitted d e)) = block_time_gap d
  /\ (committed_state (fst (InsertCommitted d e)) = committed_state d
      \/ committed_state (fst (InsertCommitted d e))
         = fst (Mongo.insert Height (committed_state d) e)).
Proof.
  unfold InsertCommitted, next_fault.
  destruct (faults d) as [|[msg|] fs]; simpl; auto;
    destruct (Mongo.insert Height (committed_state d) e); simpl; auto.
Qed.

Lemma InsertGap_effect (d : DB) (g : BlockTimeGap) :
  committed_state (fst (InsertGap d g)) = committed_state d
  /\ (block_time_gap (fst (InsertGap d g)) = block_time_gap d
      \/ block_time_gap (fst (InsertGap d g))
         = fst (Mongo.insert gHeight (block_time_gap d) g)).
Proof.
  unfold InsertGap, next_fault.
  destruct (faults d) as [|[msg|] fs]; simpl; auto;
    destruct (Mongo.insert gHeight (block_time_gap d) g); simpl; auto.
Qed.

Lemma store_committed_db (e : CommittedState) (st : State) :
  db (store_committed e st) = fst (InsertCommitted (db st) e).
Proof.
  rewrite store_committed_unfold.
  destruct (snd (InsertCommitted (db st) e)) as [err|];
    [destruct (Mongo.IsDuplicateKeyError err)|]; reflexivity.
Qed.

(** The effect of one matching line on the two collections: each is left
    as it is or receives one insert, and a gap is only inserted for a
    difference of at least five seconds to the held entry. *)
Lemma parseAndStore_effect (line : bytes) (e : CommittedState) (st : State) :
  parse_line line = Some e ->
  let st' := parseAndStore line st in
  (committed_state (db st') = committed_state (db st)
   \/ committed_state (db st') = fst (Mongo.insert Height (committed_state (db st)) e))
  /\ (block_time_gap (db st') = block_time_gap (db st)
      \/ exists prev,
           lastCommittedState st = Some prev
           /\ PrimFloat.leb 5%float (timeDiff_of e prev) = true
           /\ block_time_gap (db st')
              = fst (Mongo.insert gHeight (block_time_gap (db st)) (gapEntry_of e prev))).
Proof.
  intros Hp st'. subst st'. rewrite (parseAndStore_entry _ _ _ Hp). unfold process_entry.
  simpl db. rewrite check_gap_unfold.
  destruct (store_committed_keeps e st) as (Hl & _ & _). rewrite Hl.
  destruct (InsertCommitted_effect (db st) e) as [G C].
  rewrite <- store_committed_db in G, C.
  destruct (lastCommittedState st) as [prev|]; [|rewrite G; auto].
  destruct (PrimFloat.leb 5 (timeDiff_of e prev)) eqn:T; [|rewrite G; auto].
  destruct (InsertGap_effect (db (store_committed e st)) (gapEntry_of e prev)) as [C' G'].
  rewrite C'. split; [exact C|].
  destruct G' as [G'|G']; rewrite G', G; [now left|].
  right. exists prev. auto.
Qed.

Section Preservation.

Variable P : State -> Prop.
Hypothesis P_log : forall e st, P st -> P (add_log e st).
Hypothesis P_line : forall line st, P st -> P (parseAndStore line st).

Lemma feed_preserves (lines : list bytes) (st : State) : P st -> P (feed lines st).
Proof.
  revert st. induction lines as [|line lines IH]; intros st H; [exact H|].
  apply IH, P_line, H.
Qed.

Lemma processSingleFile_preserves (fs : Fs.FS) (filePath : bytes) (st : State) :
  P st -> P (processSingleFile fs filePath st).
Proof.
  intros H. unfold processSingleFile.
  destruct (Fs.Open fs filePath) as [f|err].
  - destruct (Fs.remaining fs f) as [data|]; [|now apply P_log].
    destruct (Bufio.Scan data) as [[lines k] tooLong].
    destruct tooLong; [apply P_log|]; now apply feed_preserves.
  - destruct (negb (Fs.IsNotExist err)); [now apply P_log|exact H].
Qed.

Lemma process_files_preserves (fs : Fs.FS) (logDir : bytes) (names : list bytes)
    (st : State) :
  P st -> P (process_files fs logDir names st).
Proof.
  revert st. induction names as [|name names IH]; intros st H; [exact H|].
  apply IH. apply processSingleFile_preserves. now apply P_log.
Qed.

Lemma processHistoricalLogs_preserves (fs : Fs.FS) (logDir mainLogName : bytes)
    (st st' : State) :
  processHistoricalLogs fs logDir mainLogName st = Some st' -> P st -> P st'.
Proof.
  unfold processHistoricalLogs. destruct (historicalRegex mainLogName) as [re|]; [|discriminate].
  intros E H. inversion E; subst st'. unfold processHistoricalLogs_re.
  destruct (Fs.ReadDir fs logDir) as [files|].
  - apply P_log. apply process_files_preserves. now apply P_log.
  - apply P_log. now apply P_log.
Qed.

Lemma openAndSeek_preserves (fs : Fs.FS) (filePath : bytes) (ts : Tailer * State) :
  P (snd ts) -> P (snd (openAndSeek fs filePath ts)).
Proof.
  destruct ts as [t st]. unfold openAndSeek.
  destruct (Fs.Open fs filePath); simpl; [auto|apply P_log].
Qed.

Lemma handle_event_preserves (fs : Fs.FS) (filePath : bytes) (event : Fsnotify.Event)
    (ts : Tailer * State) :
  P (snd ts) -> P (snd (handle_event fs filePath event ts)).
Proof.
  intros H. unfold handle_event.
  destruct (negb (bytes_eqb (Fsnotify.Name event) filePath)); [exact H|].
  set (ts1 := if Fsnotify.Has (Fsnotify.Op event) Fsnotify.Create
              then on_create fs filePath ts else ts).
  assert (H1 : P (snd ts1)).
  { subst ts1. destruct (Fsnotify.Has (Fsnotify.Op event) Fsnotify.Create); [|exact H].
    unfold on_create. destruct ts as [t st]. apply openAndSeek_preserves. simpl.
    now apply P_log. }
  destruct (Fsnotify.Has (Fsnotify.Op event) Fsnotify.Write); [|exact H1].
  unfold on_write.
  set (ts2 := match file (fst ts1) with
              | None => openAndSeek fs filePath ts1
              | Some _ => ts1
              end).
  assert (H2 : P (snd ts2)).
  { subst ts2. destruct (file (fst ts1)); [exact H1|]. now apply openAndSeek_preserves. }
  destruct (file (fst ts2)) as [f|]; [|exact H2].
  unfold read_new. destruct ts2 as [t2 st2]. simpl in H2.
  destruct (Fs.remaining fs f) as [data|]; [|simpl; now apply P_log].
  destruct (Bufio.Scan data) as [[lines k] tooLong]. simpl.
  destruct tooLong; [apply P_log|]; now apply feed_preserves.
Qed.

Lemma watchLogFile_preserves (fs0 : Fs.FS) (filePath : bytes) (msgs : list Message)
    (st : State) :
  P st -> P (snd (watchLogFile fs0 filePath msgs st)).
Proof.
  intros H. unfold watchLogFile.
  assert (H0 : P (snd (watch_init fs0 filePath st))).
  { unfold watch_init.
    pose proof (openAndSeek_preserves fs0 filePath
                  (mkTailer None (or_zero 0 (Fs.Size fs0 filePath)) [], st) H) as H'.
    destruct (openAndSeek fs0 filePath
                (mkTailer None (or_zero 0 (Fs.Size fs0 filePath)) [], st)).
    simpl in *. now apply P_log. }
  revert H0. generalize (watch_init fs0 filePath st).
  induction msgs as [|m msgs IH]; intros ts Hts; [exact Hts|].
  simpl. apply IH. destruct m as [fs event|]; simpl.
  - now apply handle_event_preserves.
  - now apply P_log.
Qed.

End Preservation.

Lemma has_dup_snoc (l : list Z) (h : Z) :
  Mongo.has_dup (l ++ [h]) = Mongo.has_dup l || existsb (Z.eqb h) l.
Proof.
  induction l as [|x l IH]; [reflexivity|].
  simpl. rewrite IH, existsb_app. simpl. rewrite (Z.eqb_sym h x).
  destruct (existsb (Z.eqb x) l), (x =? h), (Mongo.has_dup l), (existsb (Z.eqb h) l);
    reflexivity.
Qed.

Lemma insert_unique_ok {A : Type} (height : A -> Z) (c : Mongo.Collection A) (d : A) :
  unique_ok height c -> unique_ok height (fst (Mongo.insert height c d)).
Proof.
  intros [U N]. unfold Mongo.insert. rewrite U. cbn [andb].
  destruct (Mongo.has_height height c (height d)) eqn:E; [split; assumption|].
  split; [reflexivity|]. unfold Mongo.heights in *. cbn [fst Mongo.docs].
  rewrite map_app. cbn [map snd]. rewrite has_dup_snoc, N.
  unfold Mongo.has_height, Mongo.heights in E. now rewrite E.
Qed.

Lemma parseAndStore_unique (line : bytes) (st : State) :
  store_unique st -> store_unique (parseAndStore line st).
Proof.
  intros [C G]. destruct (parse_line line) as [e|] eqn:Hp;
    [|unfold parseAndStore; rewrite Hp; now split].
  destruct (parseAndStore_effect line e st Hp) as [Hc Hg]. split.
  - destruct Hc as [->| ->]; [exact C|now apply insert_unique_ok].
  - destruct Hg as [->|(prev & _ & _ & ->)]; [exact G|now apply insert_unique_ok].
Qed.

(** X3: once the two unique indexes exist and no height is stored twice,
    no step of the pipeline stores a height twice, whatever the lines,
    the files, the notifications and the failures of the store: this holds
    for one line, for a file, for the historical scan and for the tailer. *)
Theorem X3_heights_stay_unique (st : State) :
  store_unique st ->
  (forall lines, store_unique (feed lines st))
  /\ (forall fs filePath, store_unique (processSingleFile fs filePath st))
  /\ (forall fs logDir mainLogName st',
        processHistoricalLogs fs logDir mainLogName st = Some st' -> store_unique st')
  /\ (forall fs0 filePath msgs, store_unique (snd (watchLogFile fs0 filePath msgs st))).
Proof.
  intros H.
  assert (L : forall e s, store_unique s -> store_unique (add_log e s)) by (intros e s Hs; exact Hs).
  split; [|split; [|split]].
  - intros lines. now apply (feed_preserves store_unique parseAndStore_unique).
  - intros fs filePath.
    now apply (processSingleFile_preserves store_unique L parseAndStore_unique).
  - intros fs logDir mainLogName st' E.
    now apply (processHistoricalLogs_preserves store_unique L parseAndStore_unique
                 fs logDir mainLogName st st').
  - intros fs0 filePath msgs.
    now apply (watchLogFile_preserves store_unique L parseAndStore_unique).
Qed.

Lemma X3_heights_stay_unique_witness :
  store_unique (feed [line10; line10; line11; line10] dup_state).
Proof.
  apply (proj1 (X3_heights_stay_unique dup_state ltac:(vm_compute; repeat split; reflexivity))).
Defined.

Lemma insert_extends {A : Type} (height : A -> Z) (c : Mongo.Collection A) (d : A) :
  exists more, Mongo.docs (fst (Mongo.insert height c d)) = Mongo.docs c ++ more
               /\ (List.length more <= 1)%nat.
Proof.
  unfold Mongo.insert.
  destruct (Mongo.unique c && Mongo.has_height height c (height d)); simpl.
  - exists []. split; [now rewrite app_nil_r|simpl; lia].
  - eexists. split; [reflexivity|simpl; lia].
Qed.

Lemma parseAndStore_extends (d0 : DB) (line : bytes) (st : State) :
  extends_store d0 st -> extends_store d0 (parseAndStore line st).
Proof.
  intros [(mc & C) (mg & G)]. destruct (parse_line line) as [e|] eqn:Hp;
    [|unfold parseAndStore; rewrite Hp; split; eauto].
  destruct (parseAndStore_effect line e st Hp) as [Hc Hg]. split.
  - destruct Hc as [->| ->]; [eauto|].
    destruct (insert_extends Height (committed_state (db st)) e) as (more & -> & _).
    exists (mc ++ more). now rewrite C, app_assoc.
  - destruct Hg as [->|(prev & _ & _ & ->)]; [eauto|].
    destruct (insert_extends gHeight (block_time_gap (db st)) (gapEntry_of e prev))
      as (more & -> & _).
    exists (mg ++ more). now rewrite G, app_assoc.
Qed.

Lemma extends_store_refl (st : State) : extends_store (db st) st.
Proof. split; exists []; now rewrite app_nil_r. Qed.

(** X4: the pipeline only ever appends to the two collections: after any
    lines, file, historical scan or run of the tailer, the documents that
    were stored before are still there, unchanged and in the same order,
    at the front of each collection; and one line adds at most one
    document to each. *)
Theorem X4_store_append_only (st : State) :
  (forall line,
     exists mc mg,
       Mongo.docs (committed_state (db (parseAndStore line st)))
       = Mongo.docs (committed_state (db st)) ++ mc
       /\ Mongo.docs (block_time_gap (db (parseAndStore line st)))
          = Mongo.docs (block_time_gap (db st)) ++ mg
       /\ (List.length mc <= 1)%nat /\ (List.length mg <= 1)%nat)
  /\ (forall lines, extends_store (db st) (feed lines st))
  /\ (forall fs filePath, extends_store (db st) (processSingleFile fs filePath st))
  /\ (forall fs logDir mainLogName st',
        processHistoricalLogs fs logDir mainLogName st = Some st' ->
        extends_store (db st) st')
  /\ (forall fs0 filePath msgs,
        extends_store (db st) (snd (watchLogFile fs0 filePath msgs st))).
Proof.
  assert (L : forall e s, extends_store (db st) s -> extends_store (db st) (add_log e s))
    by (intros e s Hs; exact Hs).
  pose proof (extends_store_refl st) as R.
  split; [|split; [|split; [|split]]].
  - intros line. destruct (parse_line line) as [e|] eqn:Hp.
    + destruct (parseAndStore_effect line e st Hp) as [Hc Hg].
      assert (C : exists mc, Mongo.docs (committed_state (db (parseAndStore line st)))
                             = Mongo.docs (committed_state (db st)) ++ mc
                             /\ (List.length mc <= 1)%nat).
      { destruct Hc as [->| ->]; [exists []; rewrite app_nil_r; simpl; split; [reflexivity|lia]|].
        apply insert_extends. }
      assert (G : exists mg, Mongo.docs (block_time_gap (db (parseAndStore line st)))
                             = Mongo.docs (block_time_gap (db st)) ++ mg
                             /\ (List.length mg <= 1)%nat).
      { destruct Hg as [->|(prev & _ & _ & ->)];
          [exists []; rewrite app_nil_r; simpl; split; [reflexivity|lia]|].
        apply insert_extends. }
      destruct C as (mc & C1 & C2), G as (mg & G1 & G2). exists mc, mg. auto.
    + unfold parseAndStore. rewrite Hp. exists [], []. rewrite !app_nil_r. simpl.
      repeat split; lia.
  - intros lines. now apply (feed_preserves _ (parseAndStore_extends (db st))).
  - intros fs filePath.
    now apply (processSingleFile_preserves _ L (parseAndStore_extends (db st))).
  - intros fs logDir mainLogName st' E.
    now apply (processHistoricalLogs_preserves _ L (parseAndStore_extends (db st))
                 fs logDir mainLogName st st').
  - intros fs0 filePath msgs.
    now apply (watchLogFile_preserves _ L (parseAndStore_extends (db st))).
Qed.

Lemma insert_gap_threshold (c : Mongo.Collection BlockTimeGap) (g : BlockTimeGap) :
  PrimFloat.leb 5%float (TimeDiff g) = true ->
  Forall (fun d => PrimFloat.leb 5%float (TimeDiff (snd d)) = true) (Mongo.docs c) ->
  Forall (fun d => PrimFloat.leb 5%float (TimeDiff (snd d)) = true)
         (Mongo.docs (fst (Mongo.insert gHeight c g))).
Proof.
  intros Hg H. unfold Mongo.insert.
  destruct (Mongo.unique c && Mongo.has_height gHeight c (gHeight g)); simpl; [exact H|].
  apply Forall_app. split; [exact H|]. constructor; [exact Hg|constructor].
Qed.

Lemma parseAndStore_threshold (line : bytes) (st : State) :
  gaps_over_threshold st -> gaps_over_threshold (parseAndStore line st).
Proof.
  intros H. destruct (parse_line line) as [e|] eqn:Hp;
    [|unfold parseAndStore; now rewrite Hp].
  destruct (parseAndStore_effect line e st Hp) as [_ Hg]. unfold gaps_over_threshold.
  destruct Hg as [->|(prev & _ & T & ->)]; [exact H|].
  apply insert_gap_threshold; [exact T|exact H].
Qed.

(** X5: every gap the pipeline stores is one of at least five seconds: if
    the gaps stored before are, so are the gaps stored after any lines,
    file, historical scan or run of the tailer. *)
Theorem X5_stored_gaps_over_threshold (st : State) :
  gaps_over_threshold st ->
  (forall lines, gaps_over_threshold (feed lines st))
  /\ (forall fs filePath, gaps_over_threshold (processSingleFile fs filePath st))
  /\ (forall fs logDir mainLogName st',
        processHistoricalLogs fs logDir mainLogName st = Some st' -> gaps_over_threshold st')
  /\ (forall fs0 filePath msgs,
        gaps_over_threshold (snd (watchLogFile fs0 filePath msgs st))).
Proof.
  intros H.
  assert (L : forall e s, gaps_over_threshold s -> gaps_over_threshold (add_log e s))
    by (intros e s Hs; exact Hs).
  split; [|split; [|split]].
  - intros lines. now apply (feed_preserves _ parseAndStore_threshold).
  - intros fs filePath.
    now apply (processSingleFile_preserves _ L parseAndStore_threshold).
  - intros fs logDir mainLogName st' E.
    now apply (processHistoricalLogs_preserves _ L parseAndStore_threshold
                 fs logDir mainLogName st st').
  - intros fs0 filePath msgs.
    now apply (watchLogFile_preserves _ L parseAndStore_threshold).
Qed.

Lemma X5_stored_gaps_over_threshold_witness :
  gaps_over_threshold (feed [line10; line11] initial_state).
Proof.
  apply (proj1 (X5_stored_gaps_over_threshold initial_state (Forall_nil _))).
Defined.

Lemma X4_store_append_only_witness :
  extends_store (db dup_state) (feed [line10; line11] dup_state).
Proof.
  apply (proj1 (proj2 (X4_store_append_only dup_state))).
Defined.

(** ** Reading the same lines again *)

Lemma parseAndStore_nofault (line : bytes) (e : CommittedState) (st : State) :
  faults (db st) = [] -> parse_line line = Some e ->
  committed_state (db (parseAndStore line st))
  = fst (Mongo.insert Height (committed_state (db st)) e)
  /\ faults (db (parseAndStore line st)) = [].
Proof.
  intros F Hp. rewrite (parseAndStore_entry _ _ _ Hp). unfold process_entry. simpl db.
  assert (S1 : committed_state (db (store_committed e st))
               = fst (Mongo.insert Height (committed_state (db st)) e)
               /\ faults (db (store_committed e st)) = []).
  { rewrite store_committed_db. unfold InsertCommitted, next_fault. rewrite F.
    destruct (Mongo.insert Height (committed_state (db st)) e). simpl. now rewrite F. }
  destruct S1 as [S1 S2]. rewrite check_gap_unfold.
  destruct (lastCommittedState (store_committed e st)) as [prev|]; [|auto].
  destruct (PrimFloat.leb 5 (timeDiff_of e prev)); [|auto].
  unfold InsertGap, next_fault. rewrite S2.
  destruct (Mongo.insert gHeight (block_time_gap (db (store_committed e st)))
              (gapEntry_of e prev)).
  simpl. auto.
Qed.

Lemma has_height_app {A : Type} (height : A -> Z) (c c' : Mongo.Collection A)
    (more : list (nat * A)) (h : Z) :
  Mongo.docs c' = Mongo.docs c ++ more ->
  Mongo.has_height height c h = true -> Mongo.has_height height c' h = true.
Proof.
  unfold Mongo.has_height, Mongo.heights. intros -> H.
  rewrite map_app, existsb_app, H. reflexivity.
Qed.

Lemma insert_keeps_unique {A : Type} (height : A -> Z) (c : Mongo.Collection A) (d : A) :
  Mongo.unique (fst (Mongo.insert height c d)) = Mongo.unique c.
Proof.
  unfold Mongo.insert.
  destruct (Mongo.unique c && Mongo.has_height height c (height d)); reflexivity.
Qed.

Lemma insert_present {A : Type} (height : A -> Z) (c : Mongo.Collection A) (d : A) :
  Mongo.unique c = true ->
  Mongo.has_height height (fst (Mongo.insert height c d)) (height d) = true.
Proof.
  intros U. unfold Mongo.insert. rewrite U. cbn [andb].
  destruct (Mongo.has_height height c (height d)) eqn:E; [exact E|].
  unfold Mongo.has_height, Mongo.heights. cbn [fst Mongo.docs].
  rewrite map_app, existsb_app. cbn [map snd existsb]. rewrite Z.eqb_refl.
  now rewrite orb_true_r.
Qed.

Lemma insert_duplicate_same {A : Type} (height : A -> Z) (c : Mongo.Collection A) (d : A) :
  Mongo.unique c = true -> Mongo.has_height height c (height d) = true ->
  fst (Mongo.insert height c d) = c.
Proof. intros U H. unfold Mongo.insert. now rewrite U, H. Qed.

Lemma parseAndStore_responsive (line : bytes) (st : State) :
  responsive_unique st ->
  responsive_unique (parseAndStore line st)
  /\ (forall e, present st e -> present (parseAndStore line st) e)
  /\ (forall e, parse_line line = Some e -> present (parseAndStore line st) e).
Proof.
  intros [U F]. destruct (parse_line line) as [e|] eqn:Hp.
  - destruct (parseAndStore_nofault line e st F Hp) as [C F'].
    split; [split; [rewrite C, insert_keeps_unique; exact U|exact F']|]. split.
    + intros e' He'. unfold present in *. rewrite C.
      destruct (insert_extends Height (committed_state (db st)) e) as (more & Hm & _).
      exact (has_height_app Height _ _ more _ Hm He').
    + intros e' He'. inversion He'; subst e'. unfold present. rewrite C.
      now apply insert_present.
  - unfold parseAndStore. rewrite Hp. split; [now split|]. split; [auto|discriminate].
Qed.

Lemma feed_responsive (lines : list bytes) (st : State) :
  responsive_unique st ->
  responsive_unique (feed lines st)
  /\ (forall e, present st e -> present (feed lines st) e)
  /\ (forall e, In e (entries_of lines) -> present (feed lines st) e).
Proof.
  revert st. induction lines as [|line lines IH]; intros st R.
  - split; [exact R|]. split; [auto|intros e []].
  - change (feed (line :: lines) st) with (feed lines (parseAndStore line st)).
    destruct (parseAndStore_responsive line st R) as (R1 & K1 & N1).
    destruct (IH _ R1) as (R2 & K2 & N2).
    split; [exact R2|]. split; [auto|].
    intros e He. unfold entries_of in He. simpl in He. apply in_app_or in He.
    destruct He as [He|He]; [|now apply N2].
    destruct (parse_line line) as [e0|]; [|contradiction].
    destruct He as [<-|[]]. apply K2, N1. reflexivity.
Qed.

Lemma feed_all_present (lines : list bytes) (st : State) :
  responsive_unique st ->
  (forall e, In e (entries_of lines) -> present st e) ->
  committed_state (db (feed lines st)) = committed_state (db st).
Proof.
  revert st. induction lines as [|line lines IH]; intros st R H; [reflexivity|].
  change (feed (line :: lines) st) with (feed lines (parseAndStore line st)).
  destruct (parseAndStore_responsive line st R) as (R1 & K1 & _).
  assert (C : committed_state (db (parseAndStore line st)) = committed_state (db st)).
  { destruct (parse_line line) as [e|] eqn:Hp;
      [|unfold parseAndStore; now rewrite Hp].
    destruct R as [U F].
    destruct (parseAndStore_nofault line e st F Hp) as [C _]. rewrite C.
    apply insert_duplicate_same; [exact U|].
    apply H. unfold entries_of. simpl. rewrite Hp. now left. }
  rewrite IH; [exact C|exact R1|].
  intros e He. apply K1, H. unfold entries_of. simpl. apply in_or_app. now right.
Qed.

Lemma processSingleFile_db (fs : Fs.FS) (filePath : bytes) (st : State) :
  db (processSingleFile fs filePath st) = db (feed (file_lines fs filePath) st).
Proof.
  unfold processSingleFile, file_lines.
  destruct (Fs.Open fs filePath) as [f|err].
  - destruct (Fs.remaining fs f) as [data|]; [|reflexivity].
    destruct (Bufio.Scan data) as [[lines k] tooLong]. simpl.
    destruct tooLong; reflexivity.
  - destruct (negb (Fs.IsNotExist err)); reflexivity.
Qed.

(** X6: reading the same lines again stores no entry twice and changes
    no entry: with the unique index on [committed_state] and a store that
    answers every call, a second pass over the same lines, or over the
    same file, leaves [committed_state] exactly as the first pass left
    it. *)
Theorem X6_second_pass_changes_nothing (st : State) :
  responsive_unique st ->
  (forall lines,
     committed_state (db (feed lines (feed lines st)))
     = committed_state (db (feed lines st)))
  /\ (forall fs filePath,
        committed_state (db (processSingleFile fs filePath
                               (processSingleFile fs filePath st)))
        = committed_state (db (processSingleFile fs filePath st))).
Proof.
  intros R.
  assert (G : forall lines s1,
            db s1 = db (feed lines st) ->
            committed_state (db (feed lines s1)) = committed_state (db s1)).
  { intros lines s1 E. destruct (feed_responsive lines st R) as (R1 & _ & N1).
    apply feed_all_present.
    - unfold responsive_unique. rewrite E. exact R1.
    - intros e He. unfold present. rewrite E. now apply N1. }
  split.
  - intros lines. now apply G.
  - intros fs filePath. rewrite (processSingleFile_db fs filePath (processSingleFile _ _ st)).
    apply G. apply processSingleFile_db.
Qed.

Lemma X6_second_pass_changes_nothing_witness :
  committed_state (db (feed [line10; line11] (feed [line10; line11] initial_state)))
  = committed_state (db (feed [line10; line11] initial_state)).
Proof.
  apply (proj1 (X6_second_pass_changes_nothing initial_state (conj eq_refl eq_refl))).
Defined.

(** ** More on the repair and on [createUniqueIndex] *)
Section RepairMore.

Context {A : Type} (height : A -> Z).

Lemma no_dup_groups_small (l : list (nat * A)) (h : Z) :
  Mongo.has_dup (map (fun d => height (snd d)) l) = false ->
  (List.length (filter (has height h) l) <= 1)%nat.
Proof.
  induction l as [|d l IH]; simpl; intros H; [lia|].
  apply orb_false_iff in H. destruct H as [H1 H2]. specialize (IH H2).
  destruct (has height h d) eqn:E; [|exact IH].
  assert (N : filter (has height h) l = []).
  { apply filter_nothing. intros x Hx.
    destruct (has height h x) eqn:Ex; [|reflexivity]. exfalso.
    unfold has in E, Ex. apply Z.eqb_eq in E. apply Z.eqb_eq in Ex.
    assert (T : existsb (Z.eqb (height (snd d))) (map (fun d0 => height (snd d0)) l) = true).
    { apply existsb_exists. exists (height (snd x)). split.
      - apply in_map_iff. now exists x.
      - apply Z.eqb_eq. congruence. }
    congruence. }
  rewrite N. simpl. lia.
Qed.

Lemma no_dup_no_groups (c : Mongo.Collection A) :
  Mongo.has_dup (Mongo.heights height c) = false ->
  Mongo.aggregate_duplicates height c = [].
Proof.
  intros H. unfold Mongo.aggregate_duplicates. apply filter_nothing.
  intros [k ids] Hin. destruct (groups_spec height (Mongo.docs c)) as (_ & S & _).
  destruct (S _ _ Hin) as [-> _]. simpl. apply Nat.ltb_ge.
  unfold ids_of. rewrite length_map. now apply no_dup_groups_small.
Qed.

Lemma first_not_doomed (l : list (nat * A)) (h : Z) (d0 : nat * A) (rest : list (nat * A)) :
  NoDup (map fst l) -> filter (has height h) l = d0 :: rest ->
  ~ In (fst d0) (doomed height l).
Proof.
  intros N F Hin. apply doomed_spec in Hin. destruct Hin as (k & Hk).
  assert (Hd0 : In d0 (filter (has height h) l)) by (rewrite F; now left).
  apply filter_In in Hd0. destruct Hd0 as [Hl Hh].
  assert (Hin : In (fst d0) (ids_of height k l))
    by (destruct (ids_of height k l); [contradiction|now right]).
  unfold ids_of in Hin. apply in_map_iff in Hin. destruct Hin as (d' & E' & Hf).
  apply filter_In in Hf. destruct Hf as [Hl' Hk'].
  assert (d' = d0) by (apply (NoDup_ids_inj l); auto). subst d'.
  unfold has in Hh, Hk'. apply Z.eqb_eq in Hh. apply Z.eqb_eq in Hk'.
  rewrite Hk' in Hh. subst h.
  unfold ids_of in Hk. unfold has in F at 1.
  change (fun d : nat * A => height (snd d) =? k) with (has height k) in F.
  rewrite F in Hk. simpl in Hk.
  pose proof (NoDup_ids_filter (has height k) l N) as N'. rewrite F in N'.
  simpl in N'. inversion N'. contradiction.
Qed.

(** Deleting any of the doomed [_id]s leaves the first document of every
    height where it is. *)
Lemma first_survives (l : list (nat * A)) (ids : list nat) (h : Z) :
  NoDup (map fst l) -> incl ids (doomed height l) ->
  hd_error (filter (has height h) (delete_all ids l)) = hd_error (filter (has height h) l).
Proof.
  intros N I. rewrite delete_all_filter by exact N. rewrite filter_swap.
  destruct (filter (has height h) l) as [|d0 rest] eqn:F; [reflexivity|].
  simpl.
  destruct (existsb (Nat.eqb (fst d0)) ids) eqn:E; [|reflexivity].
  exfalso. apply existsb_exists in E. destruct E as (x & Hx & Hx').
  apply Nat.eqb_eq in Hx'. subst x.
  exact (first_not_doomed l h d0 rest N F (I _ Hx)).
Qed.

Lemma delete_ids_some (ids : list nat) (s : IndexState A) (n : nat) :
  exists ids',
    incl ids' ids
    /\ coll (fst (delete_ids ids (s, n)))
       = Mongo.mkCollection (delete_all ids' (Mongo.docs (coll s)))
           (Mongo.unique (coll s)) (Mongo.next_id (coll s)).
Proof.
  revert s n. induction ids as [|id ids IH]; intros [[l u nx] sc lg] n.
  - exists []. split; [intros x []|]. reflexivity.
  - unfold delete_ids in *. simpl fold_left.
    unfold DeleteOne at 2, take_fault. simpl script.
    destruct sc as [|[msg|] fs]; cbv beta iota; simpl coll; simpl ilog; simpl script;
      match goal with
      | |- context [fold_left _ ids (?s0, ?n0)] => destruct (IH s0 n0) as (ids' & I & E)
      end; simpl in E.
    + exists (id :: ids'). split; [intros x [->|Hx]; [now left|right; now apply I]|].
      rewrite E. reflexivity.
    + exists ids'. split; [now apply incl_tl|]. rewrite E. reflexivity.
    + exists (id :: ids'). split; [intros x [->|Hx]; [now left|right; now apply I]|].
      rewrite E. reflexivity.
Qed.

Lemma delete_all_app (a b : list nat) (l : list (nat * A)) :
  delete_all (a ++ b) l = delete_all b (delete_all a l).
Proof. unfold delete_all. apply fold_left_app. Qed.

Lemma delete_groups_some (gs : list (Z * list nat)) (s : IndexState A) (n : nat) :
  exists ids',
    incl ids' (flat_map tail_ids gs)
    /\ coll (fst (delete_groups gs (s, n)))
       = Mongo.mkCollection (delete_all ids' (Mongo.docs (coll s)))
           (Mongo.unique (coll s)) (Mongo.next_id (coll s)).
Proof.
  revert s n. induction gs as [|[k ids] gs IH]; intros s n.
  - exists []. split; [intros x []|]. simpl. now destruct (coll s).
  - unfold delete_groups in *. simpl fold_left.
    assert (E : (if (1 <? List.length ids)%nat then delete_ids (tl ids) (s, n) else (s, n))
                = delete_ids (tl ids) (s, n)).
    { destruct ids as [|i [|j ids]]; reflexivity. }
    rewrite E. destruct (delete_ids_some (tl ids) s n) as (a & Ia & Ea).
    destruct (delete_ids (tl ids) (s, n)) as [s1 n1]. simpl in Ea.
    destruct (IH s1 n1) as (b & Ib & Eb).
    exists (a ++ b). split.
    + simpl flat_map. unfold tail_ids at 1. simpl snd.
      apply incl_app; [now apply incl_appl|now apply incl_appr].
    + rewrite Eb, Ea. simpl. now rewrite delete_all_app.
Qed.

End RepairMore.

Lemma create_unique_ok {A : Type} (height : A -> Z) (c c' : Mongo.Collection A) :
  Mongo.create_unique height c = (c', None) ->
  Mongo.unique c' = true /\ Mongo.docs c' = Mongo.docs c.
Proof.
  unfold Mongo.create_unique. destruct (Mongo.unique c) eqn:U.
  - intros H. inversion H; subst. auto.
  - destruct (Mongo.has_dup (Mongo.heights height c)); intros H; inversion H; subst. auto.
Qed.

Lemma CreateOne_ok {A : Type} (height : A -> Z) (s s' : IndexState A) :
  CreateOne height s = (s', None) ->
  Mongo.unique (coll s') = true /\ Mongo.docs (coll s') = Mongo.docs (coll s).
Proof.
  unfold CreateOne, take_fault.
  destruct (script s) as [|[msg|] fs]; try discriminate;
    match goal with
    | |- context [Mongo.create_unique height ?c] =>
        destruct (Mongo.create_unique height c) as [c' [e|]] eqn:E
    end; try discriminate; intros H; inversion H; subst; simpl;
    exact (create_unique_ok height _ _ E).
Qed.

(** On a store that answers every call the index is always built. *)
Lemma index_established {A : Type} (height : A -> Z)
    (fieldName collectionName : bytes) (c : Mongo.Collection A) (lg : list LogEntry) :
  NoDup (map fst (Mongo.docs c)) ->
  (Mongo.unique c = true -> Mongo.has_dup (Mongo.heights height c) = false) ->
  exists s',
    createUniqueIndex height fieldName collectionName (mkIndexState c [] lg) = (s', None)
    /\ script s' = []
    /\ Mongo.unique (coll s') = true
    /\ Mongo.has_dup (Mongo.heights height (coll s')) = false
    /\ (forall h, filter (has height h) (Mongo.docs (coll s'))
                  = firstn 1 (filter (has height h) (Mongo.docs c)))
    /\ (Mongo.has_dup (Mongo.heights height c) = false ->
        Mongo.docs (coll s') = Mongo.docs c).
Proof.
  destruct c as [l u n]. simpl. intros N W.
  assert (Small : Mongo.has_dup (map (fun d => height (snd d)) l) = false ->
                  forall h, filter (has height h) l = firstn 1 (filter (has height h) l)).
  { intros D h. pose proof (no_dup_groups_small height l h D) as S.
    destruct (filter (has height h) l) as [|x [|y r]]; simpl in *; try reflexivity; lia. }
  unfold createUniqueIndex, CreateOne at 1, take_fault. simpl script. cbv beta iota.
  unfold Mongo.create_unique at 1. simpl coll. simpl Mongo.unique.
  destruct u.
  - specialize (W eq_refl). unfold Mongo.heights in W. simpl in W.
    eexists. split; [reflexivity|]. simpl. unfold Mongo.heights. simpl.
    split; [reflexivity|]. auto.
  - unfold Mongo.heights at 1. simpl Mongo.docs.
    destruct (Mongo.has_dup (map (fun d => height (snd d)) l)) eqn:D.
    + cbv beta iota. rewrite dup_key_message_found.
      set (final := delete_all (doomed height l) l).
      assert (K : forall h, filter (has height h) final = firstn 1 (filter (has height h) l))
        by (intros h; now apply repair_keeps_first).
      assert (ND : Mongo.has_dup (map (fun d => height (snd d)) final) = false).
      { apply has_dup_false. intros h. rewrite K.
        destruct (filter (has height h) l); simpl; lia. }
      destruct (removeDuplicates_no_fault height
                  (ilog_add (LogDuplicatesFound collectionName fieldName)
                     (mkIndexState (Mongo.mkCollection l false n) [] lg)))
        as (lg' & R); [reflexivity|exact N|].
      unfold ilog_add in R |- *. cbn [coll script ilog] in R |- *.
      fold final in R. rewrite R.
      unfold CreateOne, take_fault. simpl script. cbv beta iota.
      unfold Mongo.create_unique. simpl coll. simpl Mongo.unique. cbv iota.
      unfold Mongo.heights. simpl Mongo.docs. fold final. rewrite ND.
      eexists. split; [reflexivity|]. simpl. unfold Mongo.heights. simpl.
      split; [reflexivity|]. split; [reflexivity|]. split; [exact ND|]. split; [exact K|].
      intros X. congruence.
    + eexists. split; [reflexivity|]. simpl. unfold Mongo.heights. simpl.
    split; [reflexivity|]. auto.
Qed.

(** X7: on a store that answers every call, [createUniqueIndex] always
    returns nil with the unique index in place, and it leaves of every
    height exactly the first document: a collection without duplicate
    heights keeps all its documents, whether the index existed or not,
    and a collection with duplicates is repaired. *)
Theorem X7_index_always_established {A : Type} (height : A -> Z)
    (fieldName collectionName : bytes) (c : Mongo.Collection A) (lg : list LogEntry) :
  NoDup (map fst (Mongo.docs c)) ->
  (Mongo.unique c = true -> Mongo.has_dup (Mongo.heights height c) = false) ->
  exists s',
    createUniqueIndex height fieldName collectionName (mkIndexState c [] lg) = (s', None)
    /\ Mongo.unique (coll s') = true
    /\ Mongo.has_dup (Mongo.heights height (coll s')) = false
    /\ (forall h, filter (has height h) (Mongo.docs (coll s'))
                  = firstn 1 (filter (has height h) (Mongo.docs c)))
    /\ (Mongo.has_dup (Mongo.heights height c) = false ->
        Mongo.docs (coll s') = Mongo.docs c).
Proof.
  intros N W.
  destruct (index_established height fieldName collectionName c lg N W)
    as (s' & E & _ & H).
  exists s'. split; [exact E|exact H].
Qed.

Lemma X7_index_always_established_witness :
  exists s',
    createUniqueIndex Height (B "height") (B "committed_state")
      (mkIndexState (Mongo.mkCollection [(0%nat, doc100a); (1%nat, event10)] false 2) [] [])
    = (s', None)
    /\ Mongo.unique (coll s') = true.
Proof.
  destruct (X7_index_always_established Height (B "height") (B "committed_state")
              (Mongo.mkCollection [(0%nat, doc100a); (1%nat, event10)] false 2) [])
    as (s' & E & U & _).
  - simpl. repeat constructor; simpl; intuition discriminate.
  - discriminate.
  - exists s'. split; [exact E|exact U].
Defined.

(** X8: whatever calls of the store fail, [removeDuplicates] never takes
    the first document of a height away: after it every height still has
    the document it had first, every document left was there before, and
    the index flag is untouched.  When the aggregation itself fails
    nothing is deleted. *)
Theorem X8_repair_keeps_first_documents {A : Type} (height : A -> Z) (s : IndexState A) :
  NoDup (map fst (Mongo.docs (coll s))) ->
  let r := removeDuplicates height s in
  Mongo.unique (coll (fst r)) = Mongo.unique (coll s)
  /\ (forall h, hd_error (filter (has height h) (Mongo.docs (coll (fst r))))
                = hd_error (filter (has height h) (Mongo.docs (coll s))))
  /\ incl (Mongo.docs (coll (fst r))) (Mongo.docs (coll s))
  /\ (snd r <> None -> coll (fst r) = coll s).
Proof.
  intros N r. subst r. destruct s as [[l u n] sc lg]. simpl in N.
  unfold removeDuplicates, Aggregate, take_fault. simpl script.
  assert (G : forall sc' lg',
            let r := delete_groups (Mongo.aggregate_duplicates height (Mongo.mkCollection l u n))
                       (mkIndexState (Mongo.mkCollection l u n) sc' lg', O) in
            exists ids', incl ids' (doomed height l)
                         /\ coll (fst r) = Mongo.mkCollection (delete_all ids' l) u n).
  { intros sc' lg'.
    destruct (delete_groups_some
                (Mongo.aggregate_duplicates height (Mongo.mkCollection l u n))
                (mkIndexState (Mongo.mkCollection l u n) sc' lg') O) as (ids' & I & E).
    exists ids'. split; [|exact E].
    unfold Mongo.aggregate_duplicates in I. rewrite flat_map_big in I. exact I. }
  assert (Fin : forall ids', incl ids' (doomed height l) ->
            (forall h, hd_error (filter (has height h) (delete_all ids' l))
                       = hd_error (filter (has height h) l))
            /\ incl (delete_all ids' l) l).
  { intros ids' I. split; [intros h; now apply first_survives|].
    rewrite delete_all_filter by exact N. intros x Hx. apply filter_In in Hx. tauto. }
  destruct sc as [|[msg|] fs]; cbv beta iota; simpl coll.
  - destruct (G [] lg) as (ids' & I & E). cbv zeta in E.
    destruct (delete_groups _ _) as [s2 cnt]. simpl in E.
    destruct (Fin ids' I) as [F1 F2].
    destruct (0 <? cnt)%nat; simpl; rewrite E; simpl;
      (split; [reflexivity|split; [exact F1|split; [exact F2|intros X; now contradiction X]]]).
  - simpl. split; [reflexivity|]. split; [reflexivity|]. split; [apply incl_refl|reflexivity].
  - destruct (G fs lg) as (ids' & I & E). cbv zeta in E.
    destruct (delete_groups _ _) as [s2 cnt]. simpl in E.
    destruct (Fin ids' I) as [F1 F2].
    destruct (0 <? cnt)%nat; simpl; rewrite E; simpl;
      (split; [reflexivity|split; [exact F1|split; [exact F2|intros X; now contradiction X]]]).
Qed.

Lemma X8_repair_keeps_first_documents_witness :
  hd_error (filter (has Height 100)
              (Mongo.docs (coll (fst (removeDuplicates Height
                 (mkIndexState (Mongo.mkCollection [(0%nat, doc100a); (1%nat, doc100b)] false 2)
                    [None; Some (B "timeout")] []))))))
  = Some (0%nat, doc100a).
Proof.
  rewrite (proj1 (proj2 (X8_repair_keeps_first_documents Height
             (mkIndexState (Mongo.mkCollection [(0%nat, doc100a); (1%nat, doc100b)] false 2)
                [None; Some (B "timeout")] [])
             ltac:(simpl; repeat constructor; simpl; intuition discriminate)))).
  reflexivity.
Defined.

(** X9: on a collection without a duplicate height [removeDuplicates]
    deletes nothing and logs nothing: it makes the one call of the
    aggregation and leaves the collection as it is. *)
Theorem X9_repair_without_duplicates {A : Type} (height : A -> Z) (s : IndexState A) :
  Mongo.has_dup (Mongo.heights height (coll s)) = false ->
  let r := removeDuplicates height s in
  coll (fst r) = coll s /\ ilog (fst r) = ilog s /\ script (fst r) = tl (script s).
Proof.
  intros D r. subst r. unfold removeDuplicates, Aggregate, take_fault.
  destruct s as [c sc lg]. simpl in D. simpl script.
  destruct sc as [|[msg|] fs]; cbv beta iota; simpl coll;
    try rewrite (no_dup_no_groups height c D); simpl; auto.
Qed.

Lemma X9_repair_without_duplicates_witness :
  coll (fst (removeDuplicates Height
               (mkIndexState (Mongo.mkCollection [(0%nat, event10); (1%nat, event11)] true 2)
                  [] [])))
  = Mongo.mkCollection [(0%nat, event10); (1%nat, event11)] true 2.
Proof.
  apply (X9_repair_without_duplicates Height
           (mkIndexState (Mongo.mkCollection [(0%nat, event10); (1%nat, event11)] true 2)
              [] [])).
  reflexivity.
Defined.

(** X10: a nil result of [createUniqueIndex] means that the unique index
    is in place, with one exception read off the code: when the first
    call fails with a message that names no duplicate key but contains
    IndexOptionsConflict or the words already exists, the function returns
    nil with the collection exactly as it was, unique index or not. *)
Theorem X10_nil_result_of_index_creation {A : Type} (height : A -> Z)
    (fieldName collectionName : bytes) (s s' : IndexState A) :
  createUniqueIndex height fieldName collectionName s = (s', None) ->
  Mongo.unique (coll s') = true
  \/ exists msg rest,
       script s = Some msg :: rest
       /\ Contains msg (B "E11000 duplicate key error") = false
       /\ (Contains msg (B "IndexOptionsConflict") || Contains msg (B "already exists")) = true
       /\ coll s' = coll s.
Proof.
  unfold createUniqueIndex.
  destruct (CreateOne height s) as [s1 [err|]] eqn:C1.
  - destruct (Contains err (B "E11000 duplicate key error")) eqn:E.
    + destruct (removeDuplicates height _) as [s3 [e|]]; [discriminate|].
      destruct (CreateOne height s3) as [s4 [e|]] eqn:C2; [discriminate|].
      intros H. inversion H; subst. left. simpl.
      exact (proj1 (CreateOne_ok height _ _ C2)).
    + destruct (Contains err (B "IndexOptionsConflict") || Contains err (B "already exists"))
        eqn:K; [|discriminate].
      intros H. inversion H; subst. right.
      unfold CreateOne, take_fault in C1.
      destruct (script s) as [|[msg|] fs] eqn:S.
      * unfold Mongo.create_unique in C1.
        destruct (Mongo.unique (coll s)); [discriminate|].
        destruct (Mongo.has_dup _); [|discriminate].
        inversion C1; subst. rewrite dup_key_message_found in E. discriminate.
      * inversion C1; subst. exists err, fs. simpl. auto.
      * simpl in C1. unfold Mongo.create_unique in C1.
        destruct (Mongo.unique (coll s)); [discriminate|].
        destruct (Mongo.has_dup _); [|discriminate].
        inversion C1; subst. rewrite dup_key_message_found in E. discriminate.
  - intros H. inversion H; subst. left. simpl.
    exact (proj1 (CreateOne_ok height _ _ C1)).
Qed.

Lemma X10_nil_result_of_index_creation_witness :
  Mongo.unique (Mongo.mkCollection [(0%nat, doc100a); (1%nat, doc100b)] false 2) = true
  \/ exists msg rest,
       [Some (B "index already exists with different options")] = Some msg :: rest
       /\ Contains msg (B "E11000 duplicate key error") = false
       /\ (Contains msg (B "IndexOptionsConflict") || Contains msg (B "already exists")) = true
       /\ Mongo.mkCollection [(0%nat, doc100a); (1%nat, doc100b)] false 2
          = Mongo.mkCollection [(0%nat, doc100a); (1%nat, doc100b)] false 2.
Proof.
  apply (X10_nil_result_of_index_creation Height (B "height") (B "committed_state")
           (mkIndexState (Mongo.mkCollection [(0%nat, doc100a); (1%nat, doc100b)] false 2)
              [Some (B "index already exists with different options")] [])
           (mkIndexState (Mongo.mkCollection [(0%nat, doc100a); (1%nat, doc100b)] false 2)
              [] [LogIndexExists (B "committed_state")])).
  vm_compute. reflexivity.
Defined.

(** ** Reading a growing file *)

Lemma split_lines_app (cur d1 d2 : bytes) :
  split_lines_from cur (d1 ++ d2)
  = (fst (split_lines_from cur d1)
       ++ fst (split_lines_from (rev (snd (split_lines_from cur d1))) d2),
     snd (split_lines_from (rev (snd (split_lines_from cur d1))) d2)).
Proof.
  revert cur. induction d1 as [|c d1 IH]; intros cur.
  - simpl. rewrite rev_involutive. now destruct (split_lines_from cur d2).
  - simpl. destruct (Regexp.is_newline c).
    + rewrite IH. destruct (split_lines_from [] d1) as [ls fr]. reflexivity.
    + apply IH.
Qed.

(** After a part that ends on a line boundary the lines of the rest
    follow as they are. *)
Lemma lines_app (d1 d2 : bytes) :
  fragment d1 = [] ->
  complete_lines (d1 ++ d2) = complete_lines d1 ++ complete_lines d2
  /\ fragment (d1 ++ d2) = fragment d2.
Proof.
  unfold fragment, complete_lines. intros F.
  rewrite split_lines_app, F. simpl. auto.
Qed.

Lemma Scan_nil : Bufio.Scan [] = ([], 0, false).
Proof. reflexivity. Qed.

Lemma feed_app (l1 l2 : list bytes) (st : State) :
  feed (l1 ++ l2) st = feed l2 (feed l1 st).
Proof. unfold feed. apply fold_left_app. Qed.

Lemma scan_lines_short (data : bytes) :
  Forall short (complete_lines data ++ [fragment data]) ->
  scan_lines data = map Bufio.dropCR (complete_lines data) ++ fragment_tokens (fragment data)
  /\ scanned data = Z.of_nat (List.length data)
  /\ snd (Bufio.Scan data) = false.
Proof.
  intros H. unfold scan_lines, scanned. rewrite (Scan_short data H). auto.
Qed.

Lemma after_scan_short (data : bytes) (st : State) :
  snd (Bufio.Scan data) = false -> after_scan data st = feed (scan_lines data) st.
Proof.
  unfold after_scan, scan_lines. destruct (Bufio.Scan data) as [[lines k] e]. simpl.
  now intros ->.
Qed.

(** Two scans, one of a part that ends on a line boundary and one of the
    rest, yield the tokens of one scan of the whole. *)
Lemma scan_app (d1 d2 : bytes) :
  fragment d1 = [] ->
  Forall short (complete_lines (d1 ++ d2) ++ [fragment (d1 ++ d2)]) ->
  Forall short (complete_lines d1 ++ [fragment d1])
  /\ Forall short (complete_lines d2 ++ [fragment d2])
  /\ scan_lines (d1 ++ d2) = scan_lines d1 ++ scan_lines d2.
Proof.
  intros F H. destruct (lines_app d1 d2 F) as [L R]. rewrite L, R in H.
  rewrite <- app_assoc in H. apply Forall_app in H. destruct H as [H1 H2].
  assert (S1 : Forall short (complete_lines d1 ++ [fragment d1])).
  { apply Forall_app. split; [exact H1|]. rewrite F. constructor; [|constructor].
    unfold short. simpl. unfold Bufio.MaxScanTokenSize. lia. }
  split; [exact S1|]. split; [exact H2|].
  assert (S12 : Forall short (complete_lines (d1 ++ d2) ++ [fragment (d1 ++ d2)])).
  { rewrite L, R, <- app_assoc. apply Forall_app. now split. }
  rewrite (proj1 (scan_lines_short _ S12)), (proj1 (scan_lines_short _ S1)),
    (proj1 (scan_lines_short _ H2)), L, R, F, map_app.
  simpl. now rewrite app_nil_r, app_assoc.
Qed.

Lemma write_unfold (fs : Fs.FS) (filePath : bytes) (t : Tailer) (st : State)
    (node : Fs.Node) :
  tailing t node ->
  handle_event fs filePath (write_event filePath) (t, st)
  = (mkTailer (Some (Fs.mkFile node (currentPos t + scanned (unread fs node (currentPos t)))))
       (currentPos t + scanned (unread fs node (currentPos t))) (closed t),
     after_scan (unread fs node (currentPos t)) st).
Proof.
  intros [Hf Hd]. unfold handle_event, write_event. cbn [Fsnotify.Name Fsnotify.Op].
  rewrite name_same.
  change (Fsnotify.Has Fsnotify.Write Fsnotify.Create) with false.
  change (Fsnotify.Has Fsnotify.Write Fsnotify.Write) with true.
  cbv iota. unfold on_write. cbn [fst]. rewrite Hf. cbn [fst]. rewrite Hf.
  now rewrite read_new_unfold by exact Hd.
Qed.

Lemma skipn_app_le {X : Type} (n : nat) (a b : list X) :
  (n <= List.length a)%nat -> skipn n (a ++ b) = skipn n a ++ b.
Proof.
  intros H. rewrite skipn_app. replace (n - List.length a)%nat with O by lia. reflexivity.
Qed.

(** X11: while the file only grows, it does not matter how the written
    bytes are spread over write notifications, as long as a notification
    finds the file ended on a line boundary: a write notification that
    reads up to a line boundary followed by one after more bytes were
    appended leaves the tailer and the state exactly as one notification
    for all the bytes does; no line is parsed twice and none is left
    out. *)
Theorem X11_two_writes_as_one (fs1 fs2 : Fs.FS) (filePath : bytes) (t : Tailer)
    (st : State) (node : Fs.Node) (more : bytes) :
  tailing t node ->
  0 <= currentPos t <= Z.of_nat (List.length (bytes_of fs1 node)) ->
  bytes_of fs2 node = bytes_of fs1 node ++ more ->
  fragment (unread fs1 node (currentPos t)) = [] ->
  Forall short (complete_lines (unread fs2 node (currentPos t))
                ++ [fragment (unread fs2 node (currentPos t))]) ->
  handle_event fs2 filePath (write_event filePath)
    (handle_event fs1 filePath (write_event filePath) (t, st))
  = handle_event fs2 filePath (write_event filePath) (t, st).
Proof.
  intros T Hpos Happ F S.
  assert (U2 : unread fs2 node (currentPos t) = unread fs1 node (currentPos t) ++ more).
  { unfold unread. fold (bytes_of fs2 node). fold (bytes_of fs1 node). rewrite Happ.
    apply skipn_app_le. lia. }
  rewrite U2 in S. destruct (scan_app _ _ F S) as (S1 & S2 & E).
  destruct (scan_lines_short _ S1) as (_ & K1 & T1).
  destruct (scan_lines_short _ S2) as (_ & K2 & T2).
  destruct (scan_lines_short _ S) as (_ & K & T12).
  assert (L1 : Z.of_nat (List.length (unread fs1 node (currentPos t)))
               = Z.of_nat (List.length (bytes_of fs1 node)) - currentPos t).
  { unfold unread. fold (bytes_of fs1 node). rewrite length_skipn. lia. }
  rewrite (write_unfold fs1 filePath t st node T).
  assert (T' : tailing
                 (mkTailer
                    (Some (Fs.mkFile node
                             (currentPos t + scanned (unread fs1 node (currentPos t)))))
                    (currentPos t + scanned (unread fs1 node (currentPos t))) (closed t))
                 node)
    by (split; [reflexivity|exact (proj2 T)]).
  rewrite (write_unfold fs2 filePath _ _ node T').
  rewrite (write_unfold fs2 filePath t st node T).
  cbn [currentPos closed].
  assert (U' : unread fs2 node (currentPos t + scanned (unread fs1 node (currentPos t)))
               = more).
  { rewrite K1, L1. unfold unread. fold (bytes_of fs2 node). rewrite Happ.
    replace (currentPos t + (Z.of_nat (List.length (bytes_of fs1 node)) - currentPos t))
      with (Z.of_nat (List.length (bytes_of fs1 node))) by lia.
    rewrite Nat2Z.id, skipn_app, skipn_all, Nat.sub_diag. reflexivity. }
  rewrite U', U2, K1, K2, K, length_app.
  rewrite !after_scan_short by assumption. rewrite E, feed_app.
  f_equal. f_equal; [f_equal; f_equal; lia|lia].
Qed.

Lemma X11_two_writes_as_one_witness :
  handle_event (grown_fs (line11 ++ [ascii_of_nat 10])) (B "logs/stdout-xx.txt")
    (write_event (B "logs/stdout-xx.txt"))
    (handle_event (grown_fs []) (B "logs/stdout-xx.txt")
       (write_event (B "logs/stdout-xx.txt"))
       (mkTailer (Some (Fs.mkFile live_node 0)) 0 [], initial_state))
  = handle_event (grown_fs (line11 ++ [ascii_of_nat 10])) (B "logs/stdout-xx.txt")
      (write_event (B "logs/stdout-xx.txt"))
      (mkTailer (Some (Fs.mkFile live_node 0)) 0 [], initial_state).
Proof.
  apply (X11_two_writes_as_one (grown_fs []) (grown_fs (line11 ++ [ascii_of_nat 10]))
           (B "logs/stdout-xx.txt") (mkTailer (Some (Fs.mkFile live_node 0)) 0 [])
           initial_state live_node (line11 ++ [ascii_of_nat 10])).
  - split; reflexivity.
  - vm_compute. split; discriminate.
  - vm_compute. reflexivity.
  - vm_compute. reflexivity.
  - repeat (constructor; [vm_compute; reflexivity|]). constructor.
Defined.

(** ** The log does not steer the store *)

Lemma same_store_refl (a : State) : same_store a a.
Proof. split; reflexivity. Qed.

Lemma same_store_trans (a b c : State) : same_store a b -> same_store b c -> same_store a c.
Proof. intros [H1 H2] [H3 H4]. split; congruence. Qed.

Lemma same_store_log (e : LogEntry) (a b : State) :
  same_store a b -> same_store (add_log e a) b.
Proof. intros H. exact H. Qed.

Lemma parseAndStore_same (line : bytes) (a b : State) :
  same_store a b -> same_store (parseAndStore line a) (parseAndStore line b).
Proof.
  intros [D L]. unfold parseAndStore. destruct (parse_line line) as [e|]; [|now split].
  unfold process_entry. split; [|reflexivity].
  simpl db. rewrite !check_gap_unfold.
  rewrite (proj1 (store_committed_keeps e a)), (proj1 (store_committed_keeps e b)).
  rewrite !store_committed_db, D, L. reflexivity.
Qed.

Lemma feed_same (lines : list bytes) (a b : State) :
  same_store a b -> same_store (feed lines a) (feed lines b).
Proof.
  revert a b. induction lines as [|l lines IH]; intros a b H; [exact H|].
  simpl. apply IH. now apply parseAndStore_same.
Qed.

Lemma after_scan_same (data : bytes) (a b : State) :
  same_store a b -> same_store (after_scan data a) (feed (scan_lines data) b).
Proof.
  intros H. unfold after_scan, scan_lines.
  destruct (Bufio.Scan data) as [[lines k] e]. simpl.
  destruct e; [apply same_store_log|]; now apply feed_same.
Qed.

Lemma processSingleFile_same (fs : Fs.FS) (filePath : bytes) (node : Fs.Node) (st : State) :
  regular_at fs filePath node ->
  same_store (processSingleFile fs filePath st) (feed (scan_lines (bytes_of fs node)) st).
Proof.
  intros (L & R & D). unfold processSingleFile, Fs.Open. rewrite L, R.
  unfold Fs.remaining. cbn [Fs.f_node Fs.f_pos]. rewrite D. simpl skipn.
  fold (bytes_of fs node). unfold scan_lines.
  destruct (Bufio.Scan (bytes_of fs node)) as [[lines k] e]. simpl.
  destruct e; [apply same_store_log|]; apply same_store_refl.
Qed.

Lemma watch_init_regular (fs : Fs.FS) (filePath : bytes) (node : Fs.Node) (st : State) :
  regular_at fs filePath node ->
  watch_init fs filePath st
  = (mkTailer (Some (Fs.mkFile node (Z.of_nat (List.length (bytes_of fs node)))))
       (Z.of_nat (List.length (bytes_of fs node))) [],
     add_log (LogWatchStart filePath) st).
Proof.
  intros (L & R & D). unfold watch_init, Fs.Size, openAndSeek, Fs.Open. rewrite L, R.
  reflexivity.
Qed.

(** X12: the hand-over from the first pass to the tailer.  When the live
    file is read by [processSingleFile] and then watched, the tailer
    starts at the size the file has when the watch begins: the bytes
    written between the two ([mid]) are never parsed, and the first write
    notification parses what was appended after the watch began.  When
    nothing was written in between, the first pass ended on a line
    boundary and no line reaches the token limit, the store is the one a
    single pass over the whole file gives. *)
Theorem X12_startup_handoff (fs1 fs1' fs2 : Fs.FS) (filePath : bytes) (node : Fs.Node)
    (st : State) (mid more : bytes) :
  regular_at fs1 filePath node ->
  regular_at fs1' filePath node ->
  bytes_of fs1' node = bytes_of fs1 node ++ mid ->
  bytes_of fs2 node = bytes_of fs1' node ++ more ->
  let r := watchLogFile fs1' filePath [EventMsg fs2 (write_event filePath)]
             (processSingleFile fs1 filePath st) in
  same_store (snd r) (feed (scan_lines more) (feed (scan_lines (bytes_of fs1 node)) st))
  /\ currentPos (fst r) = Z.of_nat (List.length (bytes_of fs1' node)) + scanned more
  /\ (mid = [] -> fragment (bytes_of fs1 node) = [] ->
      Forall short (complete_lines (bytes_of fs2 node) ++ [fragment (bytes_of fs2 node)]) ->
      same_store (snd r) (feed (scan_lines (bytes_of fs2 node)) st)).
Proof.
  intros R1 R1' A1 A2 r.
  assert (Er : r = (mkTailer
                      (Some (Fs.mkFile node
                               (Z.of_nat (List.length (bytes_of fs1' node)) + scanned more)))
                      (Z.of_nat (List.length (bytes_of fs1' node)) + scanned more) [],
                    after_scan more
                      (add_log (LogWatchStart filePath) (processSingleFile fs1 filePath st)))).
  { subst r. unfold watchLogFile. rewrite (watch_init_regular fs1' filePath node _ R1').
    cbn [fold_left handle_message].
    rewrite (write_unfold fs2 filePath _ _ node)
      by (split; [reflexivity|exact (proj2 (proj2 R1'))]).
    cbn [currentPos closed].
    replace (unread fs2 node (Z.of_nat (List.length (bytes_of fs1' node)))) with more;
      [reflexivity|].
    unfold unread. fold (bytes_of fs2 node).
    rewrite A2, Nat2Z.id, skipn_app, skipn_all, Nat.sub_diag. reflexivity. }
  assert (S : same_store (snd r)
                (feed (scan_lines more) (feed (scan_lines (bytes_of fs1 node)) st))).
  { rewrite Er. cbn [snd]. apply after_scan_same, same_store_log.
    now apply processSingleFile_same. }
  split; [exact S|]. split; [rewrite Er; reflexivity|].
  intros M F Sh. rewrite A2, A1, M, app_nil_r in Sh |- *.
  destruct (scan_app _ _ F Sh) as (_ & _ & E).
  rewrite E, feed_app. exact S.
Qed.

Lemma X12_startup_handoff_witness :
  same_store
    (snd (watchLogFile (grown_fs []) (B "logs/stdout-xx.txt")
            [EventMsg (grown_fs (line11 ++ [ascii_of_nat 10]))
               (write_event (B "logs/stdout-xx.txt"))]
            (processSingleFile (grown_fs []) (B "logs/stdout-xx.txt") initial_state)))
    (feed (scan_lines (line11 ++ [ascii_of_nat 10]))
       (feed (scan_lines (bytes_of (grown_fs []) live_node)) initial_state)).
Proof.
  assert (R : regular_at (grown_fs []) (B "logs/stdout-xx.txt") live_node)
    by (repeat split; reflexivity).
  exact (proj1 (X12_startup_handoff (grown_fs []) (grown_fs [])
                  (grown_fs (line11 ++ [ascii_of_nat 10])) (B "logs/stdout-xx.txt")
                  live_node initial_state [] (line11 ++ [ascii_of_nat 10])
                  R R eq_refl eq_refl)).
Defined.

(** X13: a write notification that finds the offset at or beyond the end
    of the file (nothing was appended, or the file was cut short) reads
    nothing and changes nothing: the offset is not moved back, so bytes
    written below it after a truncation are not read. *)
Theorem X13_write_without_new_bytes (fs : Fs.FS) (filePath : bytes) (t : Tailer)
    (st : State) (node : Fs.Node) :
  tailing t node ->
  Z.of_nat (List.length (bytes_of fs node)) <= currentPos t ->
  handle_event fs filePath (write_event filePath) (t, st) = (t, st).
Proof.
  intros T H. rewrite (write_unfold fs filePath t st node T).
  assert (U : unread fs node (currentPos t) = []).
  { unfold unread. fold (bytes_of fs node). apply skipn_all2. lia. }
  rewrite U. unfold scanned, after_scan. rewrite Scan_nil. cbn [fst snd feed fold_left].
  rewrite Z.add_0_r. destruct T as [Hf _]. destruct t as [f p c]. simpl in *.
  now rewrite Hf.
Qed.

Lemma X13_write_without_new_bytes_witness :
  handle_event partial_fs (B "logs/stdout-xx.txt") (write_event (B "logs/stdout-xx.txt"))
    (mkTailer (Some (Fs.mkFile live_node 200)) 200 [], initial_state)
  = (mkTailer (Some (Fs.mkFile live_node 200)) 200 [], initial_state).
Proof.
  apply (X13_write_without_new_bytes partial_fs (B "logs/stdout-xx.txt")
           (mkTailer (Some (Fs.mkFile live_node 200)) 200 []) initial_state live_node).
  - split; reflexivity.
  - vm_compute. discriminate.
Defined.

Lemma create_unfold (fs : Fs.FS) (filePath : bytes) (t : Tailer) (st : State)
    (node : Fs.Node) :
  regular_at fs filePath node ->
  handle_event fs filePath (create_event filePath) (t, st)
  = (mkTailer (Some (Fs.mkFile node 0)) 0
       (closed t ++ match file t with Some f => [f] | None => [] end),
     add_log LogRotation st).
Proof.
  intros (L & R & D). unfold handle_event, create_event. cbn [Fsnotify.Name Fsnotify.Op].
  rewrite name_same.
  change (Fsnotify.Has Fsnotify.Create Fsnotify.Create) with true.
  change (Fsnotify.Has Fsnotify.Create Fsnotify.Write) with false.
  cbv iota. unfold on_create, openAndSeek, Fs.Open. rewrite L, R. cbn [currentPos closed Fs.f_node].
  destruct (file t); [reflexivity|now rewrite app_nil_r].
Qed.

(** X14: rotation.  After a create notification for the watched path the
    next write notification reads the file that is at the path now from
    its first byte, whatever file and offset the tailer held before: the
    old file is closed and what was left unread in it is not parsed.  One
    notification that carries both the create and the write flag does the
    same in one step. *)
Theorem X14_rotation_restarts_at_zero (fs_c fs_w : Fs.FS) (filePath : bytes) (t : Tailer)
    (st : State) (node : Fs.Node) :
  regular_at fs_c filePath node ->
  handle_event fs_w filePath (write_event filePath)
    (handle_event fs_c filePath (create_event filePath) (t, st))
  = (mkTailer (Some (Fs.mkFile node (scanned (bytes_of fs_w node))))
       (scanned (bytes_of fs_w node))
       (closed t ++ match file t with Some f => [f] | None => [] end),
     after_scan (bytes_of fs_w node) (add_log LogRotation st))
  /\ handle_event fs_c filePath
       (Fsnotify.mkEvent filePath (Z.lor Fsnotify.Create Fsnotify.Write)) (t, st)
     = handle_event fs_c filePath (write_event filePath)
         (handle_event fs_c filePath (create_event filePath) (t, st)).
Proof.
  intros R. split.
  - rewrite (create_unfold fs_c filePath t st node R).
    rewrite (write_unfold fs_w filePath _ _ node)
      by (split; [reflexivity|exact (proj2 (proj2 R))]).
    reflexivity.
  - unfold handle_event at 1 2 3, write_event, create_event.
    cbn [Fsnotify.Name Fsnotify.Op]. rewrite name_same.
    change (Fsnotify.Has (Z.lor Fsnotify.Create Fsnotify.Write) Fsnotify.Create) with true.
    change (Fsnotify.Has (Z.lor Fsnotify.Create Fsnotify.Write) Fsnotify.Write) with true.
    change (Fsnotify.Has Fsnotify.Create Fsnotify.Create) with true.
    change (Fsnotify.Has Fsnotify.Create Fsnotify.Write) with false.
    change (Fsnotify.Has Fsnotify.Write Fsnotify.Create) with false.
    change (Fsnotify.Has Fsnotify.Write Fsnotify.Write) with true.
    reflexivity.
Qed.

Lemma X14_rotation_restarts_at_zero_witness :
  currentPos (fst (handle_event two_lines_fs (B "logs/stdout-xx.txt")
                     (write_event (B "logs/stdout-xx.txt"))
                     (handle_event two_lines_fs (B "logs/stdout-xx.txt")
                        (create_event (B "logs/stdout-xx.txt"))
                        (mkTailer (Some (Fs.mkFile live_node 5000)) 5000 [], initial_state))))
  = scanned (bytes_of two_lines_fs live_node).
Proof.
  rewrite (proj1 (X14_rotation_restarts_at_zero two_lines_fs two_lines_fs
                    (B "logs/stdout-xx.txt")
                    (mkTailer (Some (Fs.mkFile live_node 5000)) 5000 []) initial_state
                    live_node ltac:(repeat split; reflexivity))).
  reflexivity.
Defined.

Lemma scan_from_count (cur : bytes) (n : Z) (data : bytes) :
  0 <= snd (fst (Bufio.scan_from cur n data)).
Proof.
  revert cur n. induction data as [|c data IH]; intros cur n; cbn [Bufio.scan_from].
  - destruct (Bufio.MaxScanTokenSize <=? n); simpl; lia.
  - destruct (Bufio.MaxScanTokenSize <=? n); [simpl; lia|].
    destruct (Regexp.is_newline c).
    + specialize (IH [] 0). destruct (Bufio.scan_from [] 0 data) as [[ts k] e].
      simpl in *. lia.
    + specialize (IH (c :: cur) (n + 1)).
      destruct (Bufio.scan_from (c :: cur) (n + 1) data) as [[ts k] e]. simpl in *. lia.
Qed.

Lemma openAndSeek_pos (fs : Fs.FS) (filePath : bytes) (t : Tailer) (st : State) :
  currentPos (fst (openAndSeek fs filePath (t, st))) = currentPos t.
Proof. unfold openAndSeek. destruct (Fs.Open fs filePath); reflexivity. Qed.

Lemma read_new_pos (fs : Fs.FS) (f : Fs.File) (ts : Tailer * State) :
  0 <= Fs.f_pos f -> 0 <= currentPos (fst (read_new fs f ts)).
Proof.
  intros H. unfold read_new. destruct ts as [t st].
  destruct (Fs.remaining fs f) as [data|]; [|exact H].
  pose proof (scan_from_count [] 0 data) as K. unfold Bufio.Scan.
  destruct (Bufio.scan_from [] 0 data) as [[lines k] e]. simpl in *. lia.
Qed.

Lemma handle_event_pos (fs : Fs.FS) (filePath : bytes) (event : Fsnotify.Event)
    (ts : Tailer * State) :
  tailer_inv (fst ts) -> 0 <= currentPos (fst ts) ->
  0 <= currentPos (fst (handle_event fs filePath event ts)).
Proof.
  intros I H. unfold handle_event.
  destruct (negb (bytes_eqb (Fsnotify.Name event) filePath)); [exact H|].
  set (ts1 := if Fsnotify.Has (Fsnotify.Op event) Fsnotify.Create
              then on_create fs filePath ts else ts).
  assert (H1 : tailer_inv (fst ts1) /\ 0 <= currentPos (fst ts1)).
  { subst ts1. destruct (Fsnotify.Has (Fsnotify.Op event) Fsnotify.Create); [|now split].
    unfold on_create. destruct ts as [t st]. split; [apply openAndSeek_inv|].
    rewrite openAndSeek_pos. simpl. lia. }
  destruct H1 as [I1 H1].
  destruct (Fsnotify.Has (Fsnotify.Op event) Fsnotify.Write); [|exact H1].
  unfold on_write.
  set (ts2 := match file (fst ts1) with
              | None => openAndSeek fs filePath ts1
              | Some _ => ts1
              end).
  assert (H2 : tailer_inv (fst ts2) /\ 0 <= currentPos (fst ts2)).
  { subst ts2. destruct (file (fst ts1)); [now split|].
    destruct ts1 as [t1 st1]. split; [apply openAndSeek_inv|].
    now rewrite openAndSeek_pos. }
  destruct H2 as [I2 H2].
  destruct (file (fst ts2)) as [f|] eqn:F; [|exact H2].
  apply read_new_pos. rewrite (I2 f F). exact H2.
Qed.

(** X15: at every moment of [watchLogFile] the saved offset is not
    negative and, when a file is open, it is the offset of that file's
    descriptor: what the next read starts from is what [currentPos]
    says. *)
Theorem X15_offset_is_descriptor_offset (fs0 : Fs.FS) (filePath : bytes)
    (msgs : list Message) (st : State) :
  let t := fst (watchLogFile fs0 filePath msgs st) in
  0 <= currentPos t /\ tailer_inv t.
Proof.
  intros t. split; [|apply watchLogFile_inv].
  subst t. unfold watchLogFile.
  assert (H0 : tailer_inv (fst (watch_init fs0 filePath st))
               /\ 0 <= currentPos (fst (watch_init fs0 filePath st))).
  { unfold watch_init.
    pose proof (openAndSeek_inv fs0 filePath
                  (mkTailer None (or_zero 0 (Fs.Size fs0 filePath)) []) st) as I.
    pose proof (openAndSeek_pos fs0 filePath
                  (mkTailer None (or_zero 0 (Fs.Size fs0 filePath)) []) st) as P.
    destruct (openAndSeek fs0 filePath
                (mkTailer None (or_zero 0 (Fs.Size fs0 filePath)) [], st)).
    simpl in *. split; [exact I|]. rewrite P. unfold Fs.Size.
    destruct (Fs.lookup fs0 filePath); simpl; lia. }
  revert H0. generalize (watch_init fs0 filePath st).
  induction msgs as [|m msgs IH]; intros ts [I H]; [exact H|].
  simpl. apply IH. destruct m as [fs event|]; simpl.
  - split; [now apply handle_event_inv|now apply handle_event_pos].
  - now split.
Qed.

(** ** The names the historical pass takes *)

Lemma skip_rune_shorter (s s' : bytes) :
  Utf8.skip_rune s = Some s' -> (List.length s' < List.length s)%nat.
Proof.
  unfold Utf8.skip_rune. destruct s as [|c s]; [discriminate|].
  match goal with
  | |- match ?seq with _ => _ end = _ -> _ => destruct seq as [r|] eqn:E
  end.
  - intros H. inversion H; subst.
    assert (T : exists n lo hi, Utf8.tail n lo hi s = Some s').
    { repeat match type of E with
             | (if ?b then _ else _) = _ => destruct b
             end; try discriminate; eauto. }
    destruct T as (n & lo & hi & T). destruct (tail_suffix _ _ _ _ _ T) as (pre & ->).
    simpl. rewrite length_app. lia.
  - intros H. inversion H; subst. simpl. lia.
Qed.

Lemma strip_one (c : ascii) (s s' : bytes) :
  strip_prefix [c] s = Some s' -> s = c :: s'.
Proof.
  destruct s as [|y s]; simpl; [discriminate|].
  destruct (byte_eqb c y) eqn:E; [|discriminate].
  apply Ascii.eqb_eq in E. intros H. inversion H. now subst.
Qed.

(** Every node of the pasted name takes at least one byte. *)
Lemma match_name_consumes (name : bytes) (ns rest : list Regexp.node) (s : bytes)
    (r : Regexp.result) :
  name_nodes name = Some ns ->
  Regexp.match_here (ns ++ rest) s = Some r ->
  exists s', Regexp.match_here rest s' = Some r
             /\ (List.length s' + List.length name <= List.length s)%nat.
Proof.
  revert ns s. induction name as [|c name IH]; intros ns s Hn Hm.
  - simpl in Hn. inversion Hn; subst. exists s. split; [exact Hm|simpl; lia].
  - simpl in Hn. destruct (name_nodes name) as [ns'|]; [|discriminate].
    destruct (byte_eqb c ".").
    + inversion Hn; subst. cbn [app Regexp.match_here] in Hm.
      destruct s as [|x s]; [discriminate|].
      destruct (Regexp.is_newline x); [discriminate|].
      destruct (Utf8.skip_rune (x :: s)) as [s1|] eqn:K; [|discriminate].
      apply skip_rune_shorter in K.
      destruct (IH ns' s1 eq_refl Hm) as (s' & M & L).
      exists s'. split; [exact M|]. simpl in *. lia.
    + destruct (is_meta c || (128 <=? code c)); [discriminate|].
      inversion Hn; subst. cbn [app Regexp.match_here] in Hm.
      destruct (strip_prefix [c] s) as [s1|] eqn:K; [|discriminate].
      apply strip_one in K. subst s.
      destruct (IH ns' s1 eq_refl Hm) as (s' & M & L).
      exists s'. split; [exact M|]. simpl in *. lia.
Qed.

(** The pasted name matches the name itself. *)
Lemma match_name_self (name : bytes) (ns rest : list Regexp.node) (s : bytes) :
  name_nodes name = Some ns ->
  Regexp.match_here (ns ++ rest) (name ++ s) = Regexp.match_here rest s.
Proof.
  revert ns. induction name as [|c name IH]; intros ns Hn.
  - simpl in Hn. inversion Hn. reflexivity.
  - simpl in Hn. destruct (name_nodes name) as [ns'|]; [|discriminate].
    destruct (byte_eqb c ".") eqn:E.
    + apply Ascii.eqb_eq in E. subst c. inversion Hn; subst.
      cbn [app Regexp.match_here].
      change (Regexp.is_newline ".") with false. cbv iota.
      change (Utf8.skip_rune ("."%char :: name ++ s)) with (Some (name ++ s)).
      now apply IH.
    + destruct (is_meta c || (128 <=? code c)); [discriminate|].
      inversion Hn; subst. cbn [app Regexp.match_here strip_prefix].
      unfold byte_eqb. rewrite Ascii.eqb_refl. now apply IH.
Qed.

Lemma number_text_digits (ds : list Z) :
  Forall (fun d => 0 <= d <= 9) ds -> forallb isDigit (number_text ds) = true.
Proof.
  intros H. unfold number_text. induction H as [|d ds Hd _ IH]; [reflexivity|].
  simpl. rewrite (proj1 (digit_ok d Hd)). exact IH.
Qed.

Lemma match_suffix (ds : list Z) :
  decimal_digits ds ->
  Regexp.match_here [Regexp.Lit (B "."); Regexp.Digits; Regexp.Eol]
    (B "." ++ number_text ds)
  = Some ([number_text ds], []).
Proof.
  intros [Hne H]. destruct ds as [|d ds]; [contradiction|].
  inversion H as [|? ? Hd Hds]; subst.
  change (B "." ++ number_text (d :: ds)) with ("."%char :: digit d :: number_text ds).
  cbn [Regexp.match_here B list_ascii_of_string strip_prefix].
  change (byte_eqb "." ".") with true. cbv iota.
  rewrite (proj1 (digit_ok d Hd)).
  change (fun s : bytes => match s with [] => Some ([], s) | _ :: _ => None end)
    with (Regexp.match_here [Regexp.Eol]).
  rewrite greedy_digits_eol, (number_text_digits ds Hds). reflexivity.
Qed.

Lemma find_rotated (mainLogName : bytes) (re : Regexp.t) (ds : list Z) :
  historicalRegex mainLogName = Some re -> decimal_digits ds ->
  Regexp.find re (rotated_name mainLogName ds)
  = Some (rotated_name mainLogName ds, ([number_text ds], [])).
Proof.
  unfold historicalRegex. destruct (name_nodes mainLogName) as [ns|] eqn:N; [|discriminate].
  intros H Hd. inversion H; subst re. unfold Regexp.find. cbn [Regexp.bol Regexp.nodes].
  unfold rotated_name. rewrite (match_name_self _ _ _ _ N).
  change (Regexp.Lit ["."%char]) with (Regexp.Lit (B ".")).
  now rewrite (match_suffix ds Hd).
Qed.

Lemma live_name_not_taken (mainLogName : bytes) (re : Regexp.t) :
  historicalRegex mainLogName = Some re -> Regexp.MatchString re mainLogName = false.
Proof.
  unfold historicalRegex. destruct (name_nodes mainLogName) as [ns|] eqn:N; [|discriminate].
  intros H. inversion H; subst re. unfold Regexp.MatchString, Regexp.find.
  cbn [Regexp.bol Regexp.nodes].
  destruct (Regexp.match_here _ mainLogName) as [r|] eqn:M; [|reflexivity].
  destruct (match_name_consumes _ _ _ _ _ N M) as (s' & M' & L).
  destruct s' as [|x s']; [discriminate|]. simpl in L. lia.
Qed.

(** X16: whatever the live name is, every rotated segment (the live name,
    a period and a decimal number) is selected by the pattern of
    [processHistoricalLogs], and the number it is ordered by is the value
    of the digits when that fits an int; the live name itself is never
    selected, so the live file is not read by the historical pass. *)
Theorem X16_rotated_segments_selected (mainLogName : bytes) (re : Regexp.t) (ds : list Z) :
  historicalRegex mainLogName = Some re ->
  decimal_digits ds ->
  Regexp.MatchString re (rotated_name mainLogName ds) = true
  /\ (number_value ds <= Strconv.maxInt64 ->
      suffix_number re (rotated_name mainLogName ds) = number_value ds)
  /\ Regexp.MatchString re mainLogName = false.
Proof.
  intros H Hd. split; [|split].
  - unfold Regexp.MatchString. now rewrite (find_rotated _ _ _ H Hd).
  - intros Hv. unfold suffix_number, Regexp.FindStringSubmatch.
    rewrite (find_rotated _ _ _ H Hd). cbn [nth].
    now rewrite (Atoi_digits ds Hd Hv).
  - now apply live_name_not_taken.
Qed.

Lemma X16_rotated_segments_selected_witness :
  exists re,
    historicalRegex (B "stdout-xx.txt") = Some re
    /\ suffix_number re (rotated_name (B "stdout-xx.txt") [1; 0]) = number_value [1; 0].
Proof.
  eexists. split; [reflexivity|].
  apply (X16_rotated_segments_selected (B "stdout-xx.txt") _ [1; 0] eq_refl).
  - split; [discriminate|]. repeat constructor; lia.
  - vm_compute. discriminate.
Defined.

(** Paths as [filepath.Join] builds them. *)
Example Join_examples :
  Fs.Join (B "./logs") (B "stdout-xx.txt.1") = B "logs/stdout-xx.txt.1"
  /\ Fs.Join (B "logs") (B "stdout-xx.txt") = B "logs/stdout-xx.txt"
  /\ Fs.Join (B "/var/log/") (B "a.1") = B "/var/log/a.1"
  /\ Fs.Join (B "") (B "a.1") = B "a.1"
  /\ Fs.Join (B ".") (B "a.1") = B "a.1"
  /\ Fs.Join (B "/") (B "a.1") = B "/a.1"
  /\ Fs.Join (B "logs/../data//x") (B "a.1") = B "data/x/a.1"
  /\ Fs.Join (B "../logs") (B "a.1") = B "../logs/a.1"
  /\ Fs.Join (B "a/../..") (B "b") = B "../b"
  /\ Fs.Join (B "/..") (B "b") = B "/b"
  /\ Fs.Clean (B "") = B "."
  /\ Fs.Clean (B "a/..") = B "."
  /\ Fs.Clean (B "/") = B "/".
Proof. vm_compute. repeat split; reflexivity. Qed.

Section SortedOnce.

Context {X : Type} (key : X -> Z).

Lemma key_inj_in (l : list X) (a b : X) :
  NoDup (map key l) -> In a l -> In b l -> key a = key b -> a = b.
Proof.
  induction l as [|x l IH]; simpl; intros N Ha Hb E; [contradiction|].
  inversion N as [|? ? Hn N']; subst.
  destruct Ha as [->|Ha], Hb as [->|Hb]; auto.
  - exfalso. apply Hn. rewrite E. now apply in_map.
  - exfalso. apply Hn. rewrite <- E. now apply in_map.
Qed.

Lemma sorted_head_least (x : X) (l : list X) (y : X) :
  Sorted (le_key key) (x :: l) -> In y (x :: l) -> key x <= key y.
Proof.
  intros S Hy. apply Sorted_StronglySorted in S.
  - inversion S as [|? ? _ F]; subst. destruct Hy as [->|Hy]; [lia|].
    rewrite Forall_forall in F. exact (F y Hy).
  - intros a b c H1 H2. unfold le_key in *. lia.
Qed.

(** With keys that are all different there is one sorted order. *)
Lemma sorted_perm_unique (l1 l2 : list X) :
  NoDup (map key l1) -> Permutation l1 l2 ->
  Sorted (le_key key) l1 -> Sorted (le_key key) l2 -> l1 = l2.
Proof.
  revert l2. induction l1 as [|x l1 IH]; intros l2 N P S1 S2.
  - apply Permutation_nil in P. now subst.
  - destruct l2 as [|y l2]; [apply Permutation_sym, Permutation_nil in P; discriminate|].
    assert (Hy : In y (x :: l1))
      by (apply (Permutation_in _ (Permutation_sym P)); now left).
    assert (Hx : In x (y :: l2)) by (apply (Permutation_in _ P); now left).
    assert (E : x = y).
    { apply (key_inj_in (x :: l1)); [exact N|now left|exact Hy|].
      pose proof (sorted_head_least x l1 y S1 Hy).
      pose proof (sorted_head_least y l2 x S2 Hx). lia. }
    subst y. f_equal. apply IH.
    + now inversion N.
    + now apply Permutation_cons_inv in P.
    + now inversion S1.
    + now inversion S2.
Qed.

End SortedOnce.

(** X17: the historical pass, for a live name whose pattern the embedding
    covers.  When the directory cannot be listed the pass logs it and
    returns with the store untouched.  Otherwise it is the pass, between
    the two lines of its log, over the selected names in one of the
    orders the sort may leave them in: each selected name once, at the
    path [filepath.Join] gives it, in ascending order of the number of
    its suffix (2 before 10).  In every such order what is processed is
    never a directory and never the live file; and when no two selected
    names have the same number there is only one such order. *)
Theorem X17_historical_pass (fs : Fs.FS) (logDir mainLogName : bytes) (re : Regexp.t)
    (st : State) :
  historicalRegex mainLogName = Some re ->
  (Fs.ReadDir fs logDir = None ->
   processHistoricalLogs fs logDir mainLogName st
   = Some (add_log (LogReadDirError logDir) (add_log LogHistoricalStart st)))
  /\ (forall files, Fs.ReadDir fs logDir = Some files ->
      (exists names,
         admissible_order re files names
         /\ processHistoricalLogs fs logDir mainLogName st
            = Some (historical_pass fs logDir names st))
      /\ (forall names, admissible_order re files names ->
            Forall (segment_of mainLogName files) names)
      /\ (NoDup (map (suffix_number re) (historicalLogs re files)) ->
          forall names names',
            admissible_order re files names -> admissible_order re files names' ->
            names = names')).
Proof.
  intros H. unfold processHistoricalLogs. rewrite H. unfold processHistoricalLogs_re. split.
  - intros ->. reflexivity.
  - intros files ->. split; [|split].
    + exists (sort_Slice (less_suffix re) (historicalLogs re files)).
      split; [exact (historical_order re files)|reflexivity].
    + intros names [P _]. apply Forall_forall. intros n Hn.
      apply (Permutation_in _ (Permutation_sym P)) in Hn.
      unfold historicalLogs in Hn. apply in_map_iff in Hn. destruct Hn as (node & <- & Hn).
      apply filter_In in Hn. destruct Hn as [Hin Hsel].
      apply andb_true_iff in Hsel. destruct Hsel as [Hd Hm]. split.
      * intros E. rewrite E, (live_name_not_taken _ _ H) in Hm. discriminate.
      * exists node. split; [exact Hin|]. split; [reflexivity|].
        now destruct (Fs.IsDir node).
    + intros N names names' [P S] [P' S'].
      apply (sorted_perm_unique (suffix_number re)); [| |exact S|exact S'].
      * apply (Permutation_NoDup (Permutation_map (suffix_number re) P) N).
      * exact (Permutation_trans (Permutation_sym P) P').
Qed.

Lemma X17_historical_pass_witness :
  exists re names,
    historicalRegex (B "stdout-xx.txt") = Some re
    /\ admissible_order re (Fs.entries stray_fs) names
    /\ processHistoricalLogs stray_fs (B "logs") (B "stdout-xx.txt") initial_state
       = Some (historical_pass stray_fs (B "logs") names initial_state).
Proof.
  eexists.
  destruct (proj1 (proj2 (X17_historical_pass stray_fs (B "logs") (B "stdout-xx.txt") _
                            initial_state eq_refl) _ eq_refl)) as (names & A & E).
  exists names. split; [reflexivity|]. split; [exact A|exact E].
Defined.

(** X18: when the live name has no period (and no other operator of the
    pattern syntax) the historical pass selects exactly the regular files
    whose name is the live name, a period and one or more digits. *)
Theorem X18_exact_selection_without_period (mainLogName : bytes) (re : Regexp.t)
    (files : list Fs.Node) :
  historicalRegex mainLogName = Some re ->
  Forall (fun c => byte_eqb c "." = false) mainLogName ->
  historicalLogs re files
  = map Fs.Name
      (filter (fun f => negb (Fs.IsDir f) && is_rotated_name mainLogName (Fs.Name f)) files).
Proof.
  intros H Hp. unfold historicalLogs. f_equal. apply filter_ext. intros f.
  now rewrite (historical_selection_without_period mainLogName (Fs.Name f) re H Hp).
Qed.

Lemma X18_exact_selection_without_period_witness :
  exists re,
    historicalRegex (B "stdout-xx") = Some re
    /\ historicalLogs re (Fs.entries stray_fs) = [].
Proof.
  eexists. split; [reflexivity|].
  rewrite (X18_exact_selection_without_period (B "stdout-xx") _ (Fs.entries stray_fs) eq_refl).
  - reflexivity.
  - repeat (constructor; [reflexivity|]). constructor.
Defined.

(** ** The indexes at startup *)

Section IndexMore.

Context {A : Type} (height : A -> Z).

Lemma has_dup_delete_all (ids : list nat) (l : list (nat * A)) :
  NoDup (map fst l) ->
  Mongo.has_dup (map (fun d => height (snd d)) l) = false ->
  Mongo.has_dup (map (fun d => height (snd d)) (delete_all ids l)) = false.
Proof.
  intros N D. apply has_dup_false. intros h.
  rewrite delete_all_filter by exact N. rewrite filter_swap.
  pose proof (no_dup_groups_small height l h D) as S.
  pose proof (filter_length_le (fun d => negb (existsb (Nat.eqb (fst d)) ids))
                (filter (has height h) l)) as L.
  lia.
Qed.

Lemma well_kept_delete_all (ids : list nat) (l : list (nat * A)) (u : bool) (n : nat) :
  well_kept height (Mongo.mkCollection l u n) ->
  well_kept height (Mongo.mkCollection (delete_all ids l) u n).
Proof.
  intros [N W]. simpl in *. split; simpl.
  - rewrite delete_all_filter by exact N. now apply NoDup_ids_filter.
  - intros U. unfold Mongo.heights in *. simpl in *. apply has_dup_delete_all; auto.
Qed.

Lemma removeDuplicates_shape (s : IndexState A) :
  exists ids',
    incl ids' (doomed height (Mongo.docs (coll s)))
    /\ coll (fst (removeDuplicates height s))
       = Mongo.mkCollection (delete_all ids' (Mongo.docs (coll s)))
           (Mongo.unique (coll s)) (Mongo.next_id (coll s)).
Proof.
  destruct s as [[l u n] sc lg]. unfold removeDuplicates, Aggregate, take_fault.
  simpl script. simpl coll.
  assert (G : forall sc' lg',
            exists ids', incl ids' (doomed height l)
              /\ coll (fst (delete_groups
                              (Mongo.aggregate_duplicates height (Mongo.mkCollection l u n))
                              (mkIndexState (Mongo.mkCollection l u n) sc' lg', O)))
                 = Mongo.mkCollection (delete_all ids' l) u n).
  { intros sc' lg'.
    destruct (delete_groups_some
                (Mongo.aggregate_duplicates height (Mongo.mkCollection l u n))
                (mkIndexState (Mongo.mkCollection l u n) sc' lg') O) as (ids' & I & E).
    exists ids'. split; [|exact E].
    unfold Mongo.aggregate_duplicates in I. rewrite flat_map_big in I. exact I. }
  destruct sc as [|[msg|] fs]; cbv beta iota; simpl coll.
  - destruct (G [] lg) as (ids' & I & E).
    destruct (delete_groups _ _) as [s2 cnt]. simpl in E.
    exists ids'. split; [exact I|]. destruct (0 <? cnt)%nat; simpl; exact E.
  - exists []. split; [intros x []|]. reflexivity.
  - destruct (G fs lg) as (ids' & I & E).
    destruct (delete_groups _ _) as [s2 cnt]. simpl in E.
    exists ids'. split; [exact I|]. destruct (0 <? cnt)%nat; simpl; exact E.
Qed.

Lemma CreateOne_kept (s s' : IndexState A) :
  well_kept height (coll s) -> CreateOne height s = (s', None) ->
  well_kept height (coll s') /\ Mongo.unique (coll s') = true.
Proof.
  intros [N W] C. unfold CreateOne, take_fault in C.
  assert (K : forall c', Mongo.create_unique height (coll s) = (c', None) ->
                         well_kept height c' /\ Mongo.unique c' = true).
  { unfold Mongo.create_unique. intros c'. destruct (Mongo.unique (coll s)) eqn:U.
    - intros H. inversion H; subst. split; [split|]; auto.
    - destruct (Mongo.has_dup (Mongo.heights height (coll s))) eqn:D; [discriminate|].
      intros H. inversion H; subst. split; [split|]; simpl; auto. }
  destruct (script s) as [|[msg|] fs]; try discriminate; simpl in C;
    destruct (Mongo.create_unique height (coll s)) as [c' [e|]] eqn:E; try discriminate;
    inversion C; subst; simpl; now apply K.
Qed.

Lemma CreateOne_docs (s : IndexState A) :
  Mongo.docs (coll (fst (CreateOne height s))) = Mongo.docs (coll s)
  /\ (forall err, snd (CreateOne height s) = Some err -> coll (fst (CreateOne height s)) = coll s).
Proof.
  unfold CreateOne, take_fault.
  assert (K : Mongo.docs (fst (Mongo.create_unique height (coll s))) = Mongo.docs (coll s)
              /\ (forall err, snd (Mongo.create_unique height (coll s)) = Some err ->
                              fst (Mongo.create_unique height (coll s)) = coll s)).
  { unfold Mongo.create_unique. destruct (Mongo.unique (coll s));
      [|destruct (Mongo.has_dup _)]; simpl; split; auto; discriminate. }
  destruct (script s) as [|[msg|] fs]; simpl;
    try (destruct (Mongo.create_unique height (coll s)) as [c' e]; simpl in *; exact K).
  split; auto.
Qed.

(** What [createUniqueIndex] leaves of the documents, whatever it
    returns: it deletes [_id]s that the repair may delete and no other. *)
Lemma createUniqueIndex_docs (fieldName collectionName : bytes) (s : IndexState A) :
  exists ids',
    incl ids' (doomed height (Mongo.docs (coll s)))
    /\ Mongo.docs (coll (fst (createUniqueIndex height fieldName collectionName s)))
       = delete_all ids' (Mongo.docs (coll s)).
Proof.
  unfold createUniqueIndex.
  destruct (CreateOne_docs s) as [D1 _].
  destruct (CreateOne height s) as [s1 [err|]]; simpl in D1.
  - destruct (Contains err (B "E11000 duplicate key error")).
    + destruct (removeDuplicates_shape
                  (ilog_add (LogDuplicatesFound collectionName fieldName) s1))
        as (ids' & I & E).
      simpl coll in I, E. rewrite D1 in I, E.
      destruct (removeDuplicates height _) as [s3 [e|]]; simpl in E.
      * exists ids'. split; [exact I|]. simpl. now rewrite E.
      * destruct (CreateOne_docs s3) as [D3 _].
        destruct (CreateOne height s3) as [s4 [e|]]; simpl in D3;
          exists ids'; (split; [exact I|]); simpl; rewrite D3, E; reflexivity.
    + destruct (Contains err (B "IndexOptionsConflict") || Contains err (B "already exists"));
        exists []; (split; [intros x []|]); simpl; exact D1.
  - exists []. split; [intros x []|]. simpl. exact D1.
Qed.

(** A nil result on a collection the server keeps: the collection is
    still one, and it is under the unique index unless the log says the
    index existed. *)
Lemma createUniqueIndex_nil (fieldName collectionName : bytes) (s s' : IndexState A) :
  well_kept height (coll s) ->
  createUniqueIndex height fieldName collectionName s = (s', None) ->
  well_kept height (coll s')
  /\ (Mongo.unique (coll s') = true \/ In (LogIndexExists collectionName) (ilog s')).
Proof.
  intros W. unfold createUniqueIndex.
  destruct (CreateOne_docs s) as [_ D1].
  destruct (CreateOne height s) as [s1 [err|]] eqn:C1; simpl in D1.
  - specialize (D1 err eq_refl).
    destruct (Contains err (B "E11000 duplicate key error")).
    + destruct (removeDuplicates_shape
                  (ilog_add (LogDuplicatesFound collectionName fieldName) s1))
        as (ids' & I & E).
      simpl coll in I, E. rewrite D1 in I, E.
      destruct (removeDuplicates height _) as [s3 [e|]]; [discriminate|]. simpl in E.
      destruct (CreateOne height s3) as [s4 [e|]] eqn:C2; [discriminate|].
      intros H. inversion H; subst s'. simpl coll.
      assert (W3 : well_kept height (coll s3)).
      { rewrite E. apply well_kept_delete_all. now destruct (coll s). }
      destruct (CreateOne_kept s3 s4 W3 C2). split; [|left]; assumption.
    + destruct (Contains err (B "IndexOptionsConflict") || Contains err (B "already exists"));
        [|discriminate].
      intros H. inversion H; subst s'. simpl. rewrite D1. split; [exact W|right].
      apply in_or_app. right. now left.
  - intros H. inversion H; subst s'. simpl coll.
    destruct (CreateOne_kept s s1 W C1). split; [|left]; assumption.
Qed.

End IndexMore.

(** X19: [ensureIndexes].  On a store that answers every call it never
    ends the program and leaves both collections under the unique index
    with no height twice, whatever duplicates they held.  Under any
    failures: when it returns and the log reports of neither collection
    that its index existed already, both collections are under the unique
    index with no height twice; it never deletes the first document of a
    height in either collection; and when it ends the program at
    [committed_state], [block_time_gap] has not been touched. *)
Theorem X19_indexes_ensured (d : DB) :
  well_kept Height (committed_state d) ->
  well_kept gHeight (block_time_gap d) ->
  let r := ensureIndexes d in
  (faults d = [] ->
   s_fatal r = None /\ faults (s_db r) = [] /\ store_unique (mkState (s_db r) None []))
  /\ (s_fatal r = None -> none_reported_existing (s_log r) ->
      store_unique (mkState (s_db r) None []))
  /\ (forall h,
        hd_error (filter (has Height h) (Mongo.docs (committed_state (s_db r))))
        = hd_error (filter (has Height h) (Mongo.docs (committed_state d))))
  /\ (forall h,
        hd_error (filter (has gHeight h) (Mongo.docs (block_time_gap (s_db r))))
        = hd_error (filter (has gHeight h) (Mongo.docs (block_time_gap d))))
  /\ (forall err, s_fatal r = Some (IndexFatal (B "committed_state") err) ->
        block_time_gap (s_db r) = block_time_gap d).
Proof.
  intros W1 W2 r. split; [|split; [|split; [|split]]].
  - intros F. subst r. unfold ensureIndexes. rewrite F.
    destruct (index_established Height (B "height") (B "committed_state")
                (committed_state d) [] (proj1 W1) (proj2 W1))
      as (s1 & E1 & S1 & U1 & D1 & _).
    rewrite E1. cbv zeta. rewrite S1.
    destruct (index_established gHeight (B "height") (B "block_time_gap")
                (block_time_gap d) [] (proj1 W2) (proj2 W2))
      as (t1 & E2 & S2 & U2 & D2 & _).
    rewrite E2. simpl. repeat split; assumption.
  - subst r. unfold ensureIndexes.
    destruct (createUniqueIndex Height _ _ _) as [s1 [e1|]] eqn:E1; [discriminate|].
    destruct (createUniqueIndex_nil Height _ _
                (mkIndexState (committed_state d) (faults d) []) _ W1 E1) as [K1 L1].
    cbv zeta.
    destruct (createUniqueIndex gHeight _ _ _) as [t1 [e2|]] eqn:E2; [discriminate|].
    destruct (createUniqueIndex_nil gHeight _ _
                (mkIndexState (block_time_gap d) (script s1) []) _ W2 E2) as [K2 L2].
    simpl. intros _ R.
    assert (U1 : Mongo.unique (coll s1) = true).
    { destruct L1 as [U|L]; [exact U|]. exfalso. apply (R (B "committed_state")).
      right. apply in_or_app. left. apply in_map. apply in_or_app. now left. }
    assert (U2 : Mongo.unique (coll t1) = true).
    { destruct L2 as [U|L]; [exact U|]. exfalso. apply (R (B "block_time_gap")).
      right. apply in_or_app. left. apply in_map. apply in_or_app. now right. }
    split; (split; [assumption|]); [apply (proj2 K1)|apply (proj2 K2)]; assumption.
  - intros h. subst r. unfold ensureIndexes.
    destruct (createUniqueIndex_docs Height (B "height") (B "committed_state")
                (mkIndexState (committed_state d) (faults d) [])) as (ids' & I & E).
    cbn [coll] in I, E.
    assert (G : hd_error (filter (has Height h)
                  (Mongo.docs (coll (fst (createUniqueIndex Height (B "height")
                     (B "committed_state")
                     (mkIndexState (committed_state d) (faults d) []))))))
                = hd_error (filter (has Height h) (Mongo.docs (committed_state d)))).
    { rewrite E. apply first_survives; [exact (proj1 W1)|exact I]. }
    destruct (createUniqueIndex Height _ _ _) as [s1 [e1|]]; [exact G|].
    cbv zeta. destruct (createUniqueIndex gHeight _ _ _) as [t1 [e2|]]; exact G.
  - intros h. subst r. unfold ensureIndexes.
    destruct (createUniqueIndex Height _ _ _) as [s1 [e1|]]; [reflexivity|].
    cbv zeta.
    destruct (createUniqueIndex_docs gHeight (B "height") (B "block_time_gap")
                (mkIndexState (block_time_gap d) (script s1) [])) as (ids' & I & E).
    cbn [coll] in I, E.
    assert (G : hd_error (filter (has gHeight h)
                  (Mongo.docs (coll (fst (createUniqueIndex gHeight (B "height")
                     (B "block_time_gap")
                     (mkIndexState (block_time_gap d) (script s1) []))))))
                = hd_error (filter (has gHeight h) (Mongo.docs (block_time_gap d)))).
    { rewrite E. apply first_survives; [exact (proj1 W2)|exact I]. }
    destruct (createUniqueIndex gHeight _ _ _) as [t1 [e2|]]; exact G.
  - intros err. subst r. unfold ensureIndexes.
    destruct (createUniqueIndex Height _ _ _) as [s1 [e1|]]; [reflexivity|].
    cbv zeta. destruct (createUniqueIndex gHeight _ _ _) as [t1 [e2|]]; simpl;
      intros H; [|discriminate].
    exfalso. inversion H.
Qed.

Lemma X19_indexes_ensured_witness :
  s_fatal (ensureIndexes unrepaired_db) = None
  /\ faults (s_db (ensureIndexes unrepaired_db)) = []
  /\ store_unique (mkState (s_db (ensureIndexes unrepaired_db)) None []).
Proof.
  apply (X19_indexes_ensured unrepaired_db).
  - split; [simpl; repeat constructor; simpl; intuition discriminate|discriminate].
  - split; [simpl; repeat constructor; simpl; intuition discriminate|discriminate].
  - reflexivity.
Defined.

(** ** A pass over lines on a store that answers *)

Lemma parseAndStore_step (line : bytes) (e : CommittedState) (st : State) :
  faults (db st) = [] -> parse_line line = Some e ->
  committed_state (db (parseAndStore line st))
  = fst (Mongo.insert Height (committed_state (db st)) e)
  /\ block_time_gap (db (parseAndStore line st))
     = insert_all gHeight (block_time_gap (db st)) (gap_after (lastCommittedState st) e)
  /\ faults (db (parseAndStore line st)) = []
  /\ lastCommittedState (parseAndStore line st) = Some e.
Proof.
  intros F Hp. destruct (parseAndStore_nofault line e st F Hp) as [C F'].
  split; [exact C|]. split; [|split; [exact F'|]].
  - rewrite (parseAndStore_entry _ _ _ Hp). unfold process_entry. simpl db.
    rewrite check_gap_unfold.
    destruct (store_committed_keeps e st) as (Hl & Hg & Hf). rewrite Hl, F in *.
    unfold gap_after. destruct (lastCommittedState st) as [prev|]; [|exact Hg].
    destruct (PrimFloat.leb 5 (timeDiff_of e prev)); [|exact Hg].
    unfold InsertGap, next_fault. rewrite Hf. simpl tl. cbv iota.
    unfold insert_all. simpl fold_left. rewrite <- Hg.
    now destruct (Mongo.insert gHeight (block_time_gap (db (store_committed e st)))
                    (gapEntry_of e prev)).
  - rewrite (parseAndStore_entry _ _ _ Hp). reflexivity.
Qed.

Lemma insert_all_app {A : Type} (height : A -> Z) (c : Mongo.Collection A) (l1 l2 : list A) :
  insert_all height c (l1 ++ l2) = insert_all height (insert_all height c l1) l2.
Proof. unfold insert_all. apply fold_left_app. Qed.

Lemma feed_folds (lines : list bytes) (st : State) :
  faults (db st) = [] ->
  committed_state (db (feed lines st))
  = insert_all Height (committed_state (db st)) (entries_of lines)
  /\ block_time_gap (db (feed lines st))
     = insert_all gHeight (block_time_gap (db st))
         (gaps_of (lastCommittedState st) (entries_of lines))
  /\ faults (db (feed lines st)) = []
  /\ lastCommittedState (feed lines st)
     = held_after (lastCommittedState st) (entries_of lines).
Proof.
  revert st. induction lines as [|line lines IH]; intros st F.
  - repeat split; auto.
  - change (feed (line :: lines) st) with (feed lines (parseAndStore line st)).
    unfold entries_of. simpl flat_map. fold (entries_of lines).
    destruct (parse_line line) as [e|] eqn:Hp.
    + destruct (parseAndStore_step line e st F Hp) as (C & G & F' & L).
      destruct (IH _ F') as (C2 & G2 & F2 & L2).
      rewrite C2, G2, L2, C, G, L. simpl app. cbn [gaps_of].
      rewrite insert_all_app. repeat split; auto.
    + assert (E : parseAndStore line st = st) by (unfold parseAndStore; now rewrite Hp).
      rewrite E. simpl app. now apply IH.
Qed.

(** X20: on a store that answers every call, what a pass over lines does
    to the store is fixed by the entries of the lines that match: the
    [committed_state] collection receives the inserts of the entries in
    order, the [block_time_gap] collection receives the inserts of the
    gaps between each entry and the one before it (the first against the
    entry held at the start), and the last entry is the one held after.
    The gaps do not depend on what [committed_state] holds or on whether
    an entry was a duplicate there. *)
Theorem X20_pass_is_inserts_of_entries (lines : list bytes) (st : State) :
  faults (db st) = [] ->
  committed_state (db (feed lines st))
  = insert_all Height (committed_state (db st)) (entries_of lines)
  /\ block_time_gap (db (feed lines st))
     = insert_all gHeight (block_time_gap (db st))
         (gaps_of (lastCommittedState st) (entries_of lines))
  /\ lastCommittedState (feed lines st)
     = held_after (lastCommittedState st) (entries_of lines)
  /\ faults (db (feed lines st)) = [].
Proof.
  intros F. destruct (feed_folds lines st F) as (C & G & F' & L). auto.
Qed.

Lemma X20_pass_is_inserts_of_entries_witness :
  block_time_gap (db (feed [line10; line11] initial_state))
  = insert_all gHeight (block_time_gap (db initial_state))
      (gaps_of None (entries_of [line10; line11])).
Proof.
  apply (X20_pass_is_inserts_of_entries [line10; line11] initial_state). reflexivity.
Defined.

Lemma insert_all_unique {A : Type} (height : A -> Z) (c : Mongo.Collection A) (l : list A) :
  Mongo.unique (insert_all height c l) = Mongo.unique c.
Proof.
  revert c. induction l as [|d l IH]; intros c; [reflexivity|].
  unfold insert_all in *. simpl. now rewrite IH, insert_keeps_unique.
Qed.

Lemma insert_all_keeps {A : Type} (height : A -> Z) (c : Mongo.Collection A) (l : list A)
    (h : Z) :
  Mongo.has_height height c h = true ->
  Mongo.has_height height (insert_all height c l) h = true.
Proof.
  revert c. induction l as [|d l IH]; intros c H; [exact H|].
  unfold insert_all in *. simpl. apply IH.
  destruct (insert_extends height c d) as (more & E & _).
  exact (has_height_app height c _ more h E H).
Qed.

Lemma insert_all_present {A : Type} (height : A -> Z) (c : Mongo.Collection A) (l : list A) :
  Mongo.unique c = true ->
  forall d, In d l -> Mongo.has_height height (insert_all height c l) (height d) = true.
Proof.
  revert c. induction l as [|x l IH]; intros c U d Hd; [contradiction|].
  unfold insert_all in *. simpl. destruct Hd as [->|Hd].
  - apply (insert_all_keeps height). now apply insert_present.
  - apply IH; [now rewrite insert_keeps_unique|exact Hd].
Qed.

Lemma insert_all_same {A : Type} (height : A -> Z) (c : Mongo.Collection A) (l : list A) :
  Mongo.unique c = true ->
  (forall d, In d l -> Mongo.has_height height c (height d) = true) ->
  insert_all height c l = c.
Proof.
  intros U. induction l as [|x l IH]; intros H; [reflexivity|].
  unfold insert_all in *. simpl.
  rewrite (insert_duplicate_same height c x U) by (apply H; now left).
  apply IH. intros d Hd. apply H. now right.
Qed.

Lemma held_after_last (held : option CommittedState) (e : CommittedState)
    (rest : list CommittedState) :
  held_after held (e :: rest) = Some (last rest e).
Proof.
  unfold held_after. simpl. clear held. revert e.
  induction rest as [|x rest IH]; intros e; [reflexivity|].
  simpl fold_left. rewrite IH. now rewrite last_cons.
Qed.

(** X21: reading the same lines again does not add a gap.  On a store
    that answers every call, with the unique index on [block_time_gap], a
    second pass over the same lines leaves the collection as the first
    pass left it, provided the first entry of the lines is not five
    seconds or more after the last one (which is so for a log in the
    order of time). *)
Theorem X21_second_pass_adds_no_gap (lines : list bytes) (st : State) :
  faults (db st) = [] ->
  Mongo.unique (block_time_gap (db st)) = true ->
  (forall e rest, entries_of lines = e :: rest ->
     PrimFloat.leb 5%float (timeDiff_of e (last rest e)) = false) ->
  block_time_gap (db (feed lines (feed lines st))) = block_time_gap (db (feed lines st)).
Proof.
  intros F U H.
  destruct (feed_folds lines st F) as (_ & G1 & F1 & L1).
  destruct (feed_folds lines (feed lines st) F1) as (_ & G2 & _ & _).
  rewrite G2. destruct (entries_of lines) as [|e rest] eqn:E; [reflexivity|].
  rewrite L1, held_after_last. cbn [gaps_of gap_after].
  rewrite (H e rest eq_refl). simpl app.
  rewrite G1. cbn [gaps_of]. rewrite insert_all_app.
  apply insert_all_same.
  - now rewrite !insert_all_unique.
  - apply insert_all_present. now rewrite insert_all_unique.
Qed.

Lemma X21_second_pass_adds_no_gap_witness :
  block_time_gap (db (feed [line10; line11] (feed [line10; line11] initial_state)))
  = block_time_gap (db (feed [line10; line11] initial_state)).
Proof.
  apply (X21_second_pass_adds_no_gap [line10; line11] initial_state).
  - reflexivity.
  - reflexivity.
  - intros e rest E. vm_compute in E. inversion E; subst. vm_compute. reflexivity.
Defined.

(** ** A line that does not fit the buffer *)

Lemma scan_from_long (cur : bytes) (n : Z) (long rest : bytes) :
  n + Z.of_nat (List.length long) = Bufio.MaxScanTokenSize ->
  Forall (fun c => Regexp.is_newline c = false) long ->
  Bufio.scan_from cur n (long ++ rest) = ([], Z.of_nat (List.length long), true).
Proof.
  revert cur n. induction long as [|c long IH]; intros cur n Hn Hl.
  - simpl in Hn. rewrite Z.add_0_r in Hn. subst n. simpl app.
    destruct rest; reflexivity.
  - inversion Hl as [|? ? Hc Hl']; subst. simpl app. cbn [Bufio.scan_from].
    replace (Bufio.MaxScanTokenSize <=? n) with false
      by (symmetry; apply Z.leb_gt; simpl List.length in Hn; lia).
    rewrite Hc. rewrite (IH (c :: cur) (n + 1)); [|simpl List.length in Hn; lia|exact Hl'].
    simpl. f_equal. f_equal. lia.
Qed.

Lemma scan_from_prefix (cur : bytes) (n : Z) (pre rest : bytes) :
  n = Z.of_nat (List.length cur) ->
  snd (split_lines_from cur pre) = [] ->
  Forall short (fst (split_lines_from cur pre)) ->
  Bufio.scan_from cur n (pre ++ rest)
  = (map Bufio.dropCR (fst (split_lines_from cur pre)) ++ fst (fst (Bufio.Scan rest)),
     Z.of_nat (List.length pre) + snd (fst (Bufio.Scan rest)),
     snd (Bufio.Scan rest)).
Proof.
  revert cur n. induction pre as [|c pre IH]; intros cur n Hn Hf Hs.
  - simpl in Hf. apply (f_equal (@rev ascii)) in Hf. rewrite rev_involutive in Hf.
    simpl in Hf. subst cur. simpl in Hn. subst n. simpl. unfold Bufio.Scan.
    now destruct (Bufio.scan_from [] 0 rest) as [[t k] e].
  - assert (Hlt : n < Bufio.MaxScanTokenSize).
    { destruct (split_first cur (c :: pre)) as (x & Hx). rewrite Hf in Hx.
      destruct (fst (split_lines_from cur (c :: pre))) as [|l0 ls0] eqn:E.
      - simpl in Hx. symmetry in Hx. apply app_eq_nil in Hx. destruct Hx as [Hx _].
        apply (f_equal (@rev ascii)) in Hx. rewrite rev_involutive in Hx. simpl in Hx.
        subst cur. simpl in Hn. subst n. unfold Bufio.MaxScanTokenSize. lia.
      - simpl in Hx. subst l0. inversion Hs as [|? ? Hc _]; subst.
        unfold short in Hc. rewrite length_app, length_rev in Hc. lia. }
    simpl app. cbn [Bufio.scan_from].
    replace (Bufio.MaxScanTokenSize <=? n) with false by (symmetry; apply Z.leb_gt; exact Hlt).
    cbn [split_lines_from] in Hf, Hs |- *.
    replace (Z.of_nat (List.length (c :: pre))) with (Z.of_nat (List.length pre) + 1)
      by (simpl List.length; lia).
    destruct (Regexp.is_newline c).
    + destruct (split_lines_from [] pre) as [ls fr] eqn:E. cbn [fst snd] in Hf, Hs |- *.
      inversion Hs as [|? ? _ Hs']; subst.
      rewrite (IH [] 0 eq_refl); rewrite E; [|reflexivity|exact Hs'].
      cbn [fst snd map app Bufio.emit]. f_equal. f_equal. lia.
    + rewrite (IH (c :: cur) (n + 1)); [|simpl List.length; lia|exact Hf|exact Hs].
      cbn [Bufio.read_one]. f_equal. f_equal. lia.
Qed.

Lemma Scan_too_long (pre long rest : bytes) :
  whole_short_lines pre -> too_long long ->
  Bufio.Scan (pre ++ long ++ rest)
  = (map Bufio.dropCR (complete_lines pre),
     Z.of_nat (List.length pre) + Bufio.MaxScanTokenSize, true).
Proof.
  intros [F S] [L N]. unfold Bufio.Scan.
  rewrite (scan_from_prefix [] 0 pre (long ++ rest) eq_refl F S).
  unfold Bufio.Scan. rewrite (scan_from_long [] 0 long rest) by (try exact N; lia).
  simpl. rewrite app_nil_r, L. reflexivity.
Qed.

(** X22: a line that does not fit the buffer of the scanner (65536 bytes
    without a newline) ends the reading of the file.  [processSingleFile]
    has parsed the lines before it, logs the read error and parses nothing
    of what follows in the file.  The tailer does the same on a write
    notification, but keeps the offset the scanner reached, 65536 bytes
    into the line: the next write notification goes on from there, so the
    rest of the long line is read as if a line began in its middle. *)
Theorem X22_line_beyond_the_buffer (fs : Fs.FS) (filePath : bytes) (node : Fs.Node)
    (st : State) (pre long rest : bytes) :
  regular_at fs filePath node ->
  bytes_of fs node = pre ++ long ++ rest ->
  whole_short_lines pre -> too_long long ->
  processSingleFile fs filePath st
  = add_log (LogReadError filePath) (feed (map Bufio.dropCR (complete_lines pre)) st)
  /\ (forall cl,
        let ts1 := handle_event fs filePath (write_event filePath)
                     (mkTailer (Some (Fs.mkFile node 0)) 0 cl, st) in
        ts1 = (mkTailer
                 (Some (Fs.mkFile node
                          (Z.of_nat (List.length pre) + Bufio.MaxScanTokenSize)))
                 (Z.of_nat (List.length pre) + Bufio.MaxScanTokenSize) cl,
               add_log LogWatchReadError
                 (feed (map Bufio.dropCR (complete_lines pre)) st))
        /\ snd (handle_event fs filePath (write_event filePath) ts1)
           = after_scan rest (snd ts1)).
Proof.
  intros R E W T.
  pose proof (Scan_too_long pre long rest W T) as S. split.
  - destruct R as (L & Rd & D). unfold processSingleFile, Fs.Open. rewrite L, Rd.
    unfold Fs.remaining. cbn [Fs.f_node Fs.f_pos]. rewrite D. simpl skipn.
    fold (bytes_of fs node). rewrite E, S. reflexivity.
  - intros cl ts1.
    assert (E1 : ts1 = (mkTailer
                          (Some (Fs.mkFile node
                                   (Z.of_nat (List.length pre) + Bufio.MaxScanTokenSize)))
                          (Z.of_nat (List.length pre) + Bufio.MaxScanTokenSize) cl,
                        add_log LogWatchReadError
                          (feed (map Bufio.dropCR (complete_lines pre)) st))).
    { subst ts1. rewrite (write_unfold fs filePath _ st node)
        by (split; [reflexivity|exact (proj2 (proj2 R))]).
      cbn [currentPos closed]. unfold unread. simpl skipn. fold (bytes_of fs node).
      unfold scanned, after_scan. rewrite E, S. reflexivity. }
    split; [exact E1|]. rewrite E1.
    rewrite (write_unfold fs filePath _ _ node)
      by (split; [reflexivity|exact (proj2 (proj2 R))]).
    cbn [currentPos closed snd]. f_equal.
    unfold unread. fold (bytes_of fs node). rewrite E.
    destruct T as [L _]. rewrite <- L, <- Nat2Z.inj_add, Nat2Z.id.
    rewrite app_assoc, skipn_app, length_app, Nat.sub_diag.
    rewrite <- length_app, skipn_all. reflexivity.
Qed.

Lemma X22_line_beyond_the_buffer_witness :
  processSingleFile long_fs (B "logs/stdout-xx.txt") initial_state
  = add_log (LogReadError (B "logs/stdout-xx.txt"))
      (feed (map Bufio.dropCR (complete_lines (line10 ++ [ascii_of_nat 10]))) initial_state).
Proof.
  assert (R : regular_at long_fs (B "logs/stdout-xx.txt") live_node)
    by (repeat split; reflexivity).
  assert (E : bytes_of long_fs live_node
              = (line10 ++ [ascii_of_nat 10]) ++ long_line ++ (line11 ++ [ascii_of_nat 10]))
    by reflexivity.
  assert (W : whole_short_lines (line10 ++ [ascii_of_nat 10])).
  { split; [vm_compute; reflexivity|].
    repeat (constructor; [vm_compute; reflexivity|]). constructor. }
  assert (T : too_long long_line).
  { split; [vm_compute; reflexivity|].
    apply Forall_forall. intros x Hx. apply repeat_spec in Hx. subst x. reflexivity. }
  exact (proj1 (X22_line_beyond_the_buffer long_fs (B "logs/stdout-xx.txt") live_node
                  initial_state (line10 ++ [ascii_of_nat 10]) long_line
                  (line11 ++ [ascii_of_nat 10]) R E W T)).
Defined.

(** X23: what one notification does.  A notification for another path
    leaves the tailer and the state as they are.  A create notification
    for the watched path (without the write flag) closes the open file, if
    any, sets the offset to 0 and opens the file that is at the path now,
    at its start, or holds no file and logs when it cannot be opened.  A
    write notification for the watched path (without the create flag)
    with a regular file open at the saved offset scans the bytes from the
    offset on: the state is the one the scan gives and the offset moves on
    by the bytes the scan read.  When no line among them has 65536 bytes
    or more, the scan feeds the parser every line up to its newline and
    then, when bytes follow the last newline, those bytes as a line of
    their own, and it reads to the end of the file. *)
Theorem X23_tailer_reads (fs : Fs.FS) (filePath : bytes) (event : Fsnotify.Event)
    (t : Tailer) (st : State) :
  (Fsnotify.Name event <> filePath -> handle_event fs filePath event (t, st) = (t, st))
  /\ (Fsnotify.Name event = filePath ->
      Fsnotify.Has (Fsnotify.Op event) Fsnotify.Create = true ->
      Fsnotify.Has (Fsnotify.Op event) Fsnotify.Write = false ->
      let r := handle_event fs filePath event (t, st) in
      currentPos (fst r) = 0
      /\ closed (fst r) = closed t ++ match file t with Some f => [f] | None => [] end
      /\ (forall f, Fs.Open fs filePath = inl f ->
            file (fst r) = Some (Fs.mkFile (Fs.f_node f) 0)
            /\ snd r = add_log LogRotation st)
      /\ (forall e, Fs.Open fs filePath = inr e ->
            file (fst r) = None
            /\ snd r = add_log (LogWatchOpenError filePath) (add_log LogRotation st)))
  /\ (Fsnotify.Name event = filePath ->
      Fsnotify.Has (Fsnotify.Op event) Fsnotify.Create = false ->
      Fsnotify.Has (Fsnotify.Op event) Fsnotify.Write = true ->
      forall f, file t = Some f -> Fs.f_pos f = currentPos t ->
        Fs.IsDir (Fs.f_node f) = false ->
        let data := unread fs (Fs.f_node f) (currentPos t) in
        handle_event fs filePath event (t, st)
        = (mkTailer (Some (Fs.mkFile (Fs.f_node f) (currentPos t + scanned data)))
             (currentPos t + scanned data) (closed t),
           after_scan data st)
        /\ (Forall short (complete_lines data ++ [fragment data]) ->
            after_scan data st
            = feed (map Bufio.dropCR (complete_lines data)
                      ++ fragment_tokens (fragment data)) st
            /\ scanned data = Z.of_nat (List.length data))).
Proof.
  split; [|split].
  - intros Hn. unfold handle_event. now rewrite (name_differs _ _ Hn).
  - intros Hn Hc Hw r. subst r. unfold handle_event.
    rewrite Hn, name_same, Hc, Hw. unfold on_create, openAndSeek.
    destruct (Fs.Open fs filePath) as [f|e]; simpl.
    + split; [reflexivity|]. split; [|split].
      * destruct (file t); [reflexivity|now rewrite app_nil_r].
      * intros f' Hf. inversion Hf. split; reflexivity.
      * intros e He. discriminate.
    + split; [reflexivity|]. split; [|split].
      * destruct (file t); [reflexivity|now rewrite app_nil_r].
      * intros f' Hf. discriminate.
      * intros e' He. split; reflexivity.
  - intros Hn Hc Hw f Hf Hpos Hd data. subst data.
    unfold handle_event. rewrite Hn, name_same, Hc, Hw.
    unfold on_write. cbn [fst]. rewrite Hf. cbn [fst]. rewrite Hf.
    rewrite (read_new_unfold fs f t st Hd), Hpos.
    split; [reflexivity|].
    intros Hs. unfold after_scan, scanned. rewrite (Scan_short _ Hs). auto.
Qed.

Lemma X23_tailer_reads_witness :
  handle_event two_lines_fs (B "logs/stdout-xx.txt")
    (Fsnotify.mkEvent (B "logs/other.txt") Fsnotify.Write)
    (mkTailer (Some (Fs.mkFile live_node 0)) 0 [], initial_state)
  = (mkTailer (Some (Fs.mkFile live_node 0)) 0 [], initial_state)
  /\ map (fun d => Height (snd d))
       (Mongo.docs (committed_state (db (snd
          (handle_event two_lines_fs (B "logs/stdout-xx.txt")
             (Fsnotify.mkEvent (B "logs/stdout-xx.txt") Fsnotify.Write)
             (mkTailer (Some (Fs.mkFile live_node 0)) 0 [], initial_state))))))
     = [10; 11].
Proof.
  split.
  - apply (proj1 (X23_tailer_reads two_lines_fs (B "logs/stdout-xx.txt")
                    (Fsnotify.mkEvent (B "logs/other.txt") Fsnotify.Write)
                    (mkTailer (Some (Fs.mkFile live_node 0)) 0 []) initial_state)).
    vm_compute. discriminate.
  - rewrite (proj1 (proj2 (proj2 (X23_tailer_reads two_lines_fs (B "logs/stdout-xx.txt")
                    (Fsnotify.mkEvent (B "logs/stdout-xx.txt") Fsnotify.Write)
                    (mkTailer (Some (Fs.mkFile live_node 0)) 0 []) initial_state))
                eq_refl eq_refl eq_refl (Fs.mkFile live_node 0) eq_refl eq_refl eq_refl)).
    vm_compute. reflexivity.
Defined.

(** ** The lines a write notification does not feed as they are *)

Lemma store_committed_log_kind (e : CommittedState) (st : State) :
  ~ In LogWatchReadError (log st) -> ~ In LogWatchReadError (log (store_committed e st)).
Proof.
  intros H. rewrite store_committed_unfold.
  destruct (snd (InsertCommitted (db st) e)) as [err|];
    [destruct (Mongo.IsDuplicateKeyError err)|]; simpl; try exact H.
  rewrite in_app_iff. intros [K|[K|[]]]; [now apply H|discriminate].
Qed.

Lemma parseAndStore_log_kind (line : bytes) (st : State) :
  ~ In LogWatchReadError (log st) -> ~ In LogWatchReadError (log (parseAndStore line st)).
Proof.
  intros H. unfold parseAndStore. destruct (parse_line line) as [e|]; [|exact H].
  unfold process_entry, set_last. simpl log.
  pose proof (store_committed_log_kind e st H) as H1.
  unfold check_gap. destruct (lastCommittedState (store_committed e st)) as [prev|]; [|exact H1].
  destruct (PrimFloat.leb 5 (timeDiff_of e prev)); [|exact H1].
  destruct (InsertGap (db (store_committed e st)) (gapEntry_of e prev)) as [d [w|]];
    [destruct (Mongo.IsDuplicateKeyError w)|]; simpl; try exact H1;
    rewrite in_app_iff; (intros [K|[K|[]]]; [now apply H1|discriminate]).
Qed.

Lemma feed_log_kind (lines : list bytes) (st : State) :
  ~ In LogWatchReadError (log st) -> ~ In LogWatchReadError (log (feed lines st)).
Proof.
  revert st. induction lines as [|l lines IH]; intros st H; [exact H|].
  simpl. apply IH. now apply parseAndStore_log_kind.
Qed.

(** A write notification at the start of a file that holds complete
    short lines and then 65536 bytes without a newline. *)
Lemma write_too_long (fs : Fs.FS) (filePath : bytes) (node : Fs.Node) (st : State)
    (pre long rest : bytes) (cl : list Fs.File) :
  Fs.IsDir node = false ->
  bytes_of fs node = pre ++ long ++ rest ->
  whole_short_lines pre -> too_long long ->
  handle_event fs filePath (write_event filePath)
    (mkTailer (Some (Fs.mkFile node 0)) 0 cl, st)
  = (mkTailer
       (Some (Fs.mkFile node (Z.of_nat (List.length pre) + Bufio.MaxScanTokenSize)))
       (Z.of_nat (List.length pre) + Bufio.MaxScanTokenSize) cl,
     add_log LogWatchReadError (feed (map Bufio.dropCR (complete_lines pre)) st)).
Proof.
  intros D E W T.
  rewrite (write_unfold fs filePath _ st node) by (split; [reflexivity|exact D]).
  cbn [currentPos closed]. unfold unread. simpl skipn. fold (bytes_of fs node).
  unfold scanned, after_scan. rewrite E, (Scan_too_long pre long rest W T). reflexivity.
Qed.

(** On such a file the lines fed are not the complete lines. *)
Lemma too_long_not_complete (fs : Fs.FS) (filePath : bytes) (node : Fs.Node) (st : State)
    (pre long rest : bytes) :
  Fs.IsDir node = false ->
  bytes_of fs node = pre ++ long ++ rest ->
  whole_short_lines pre -> too_long long ->
  ~ In LogWatchReadError (log st) ->
  ~ write_feeds_complete_lines fs filePath (Fs.mkFile node 0) st.
Proof.
  intros D E W T L H. unfold write_feeds_complete_lines in H.
  pose proof (write_too_long fs filePath node st pre long rest [] D E W T) as K.
  unfold write_event in K. cbn [Fs.f_pos Fs.f_node] in H. rewrite K in H. cbn [snd] in H.
  apply (feed_log_kind (map Bufio.dropCR (complete_lines (unread fs node 0))) st L).
  rewrite <- H. unfold add_log. cbn [log]. apply in_or_app. right. now left.
Qed.

(** C5, counterexample: the file holds the beginning of a line and no
    newline yet; the write notification feeds that fragment to the parser,
    which stores an entry with the appHash cut short, although no complete
    line is available.  And on a file whose second line has 65536 bytes
    before its newline the lines fed are not the complete lines either:
    the notification stops in that line with a read error. *)
Lemma C5_counterexample :
  ~ write_feeds_complete_lines partial_fs (B "logs/stdout-xx.txt")
      (Fs.mkFile live_node 0) initial_state
  /\ complete_lines partial_line = []
  /\ map (fun d => AppHash (snd d))
       (Mongo.docs (committed_state (db (snd
          (handle_event partial_fs (B "logs/stdout-xx.txt")
             (Fsnotify.mkEvent (B "logs/stdout-xx.txt") Fsnotify.Write)
             (mkTailer (Some (Fs.mkFile live_node 0)) 0 [], initial_state))))))
     = [B "ab"]
  /\ ~ write_feeds_complete_lines long_fs (B "logs/stdout-xx.txt")
        (Fs.mkFile live_node 0) initial_state.
Proof.
  assert (E : bytes_of long_fs live_node
              = (line10 ++ [ascii_of_nat 10]) ++ long_line ++ (line11 ++ [ascii_of_nat 10]))
    by reflexivity.
  assert (W : whole_short_lines (line10 ++ [ascii_of_nat 10])).
  { split; [vm_compute; reflexivity|].
    repeat (constructor; [vm_compute; reflexivity|]). constructor. }
  assert (T : too_long long_line).
  { split; [vm_compute; reflexivity|].
    apply Forall_forall. intros x Hx. apply repeat_spec in Hx. subst x. reflexivity. }
  split; [|split; [|split]]; [|vm_compute; reflexivity|vm_compute; reflexivity|].
  - unfold write_feeds_complete_lines. intros H.
    apply (f_equal (fun s => List.length (Mongo.docs (committed_state (db s))))) in H.
    vm_compute in H. discriminate.
  - exact (too_long_not_complete long_fs (B "logs/stdout-xx.txt") live_node initial_state
             (line10 ++ [ascii_of_nat 10]) long_line (line11 ++ [ascii_of_nat 10])
             eq_refl E W T (fun x => match x with end)).
Qed.

(** C5, amended: a notification for another path leaves the tailer and
    the state as they are.  A create notification for the watched path
    closes the open file, if any, sets the offset to 0 and opens the file
    that is at the path now, at its start (or holds no file when it
    cannot be opened).  A write notification for the watched path with a
    file open, when the bytes from the offset on end with a newline and
    no line among them has 65536 bytes or more, feeds the parser every one
    of these lines, in order and without its line end, and sets the offset
    to where the bytes end, which is the end of the file.  When instead a
    line of 65536 bytes or more is among them, the lines before it are
    fed, the reading ends there and the read error is logged. *)
Theorem C5_tailer_events (fs : Fs.FS) (filePath : bytes) (event : Fsnotify.Event)
    (t : Tailer) (st : State) :
  (Fsnotify.Name event <> filePath -> handle_event fs filePath event (t, st) = (t, st))
  /\ (Fsnotify.Name event = filePath ->
      Fsnotify.Has (Fsnotify.Op event) Fsnotify.Create = true ->
      Fsnotify.Has (Fsnotify.Op event) Fsnotify.Write = false ->
      let r := handle_event fs filePath event (t, st) in
      currentPos (fst r) = 0
      /\ closed (fst r) = closed t ++ match file t with Some f => [f] | None => [] end
      /\ (forall f, Fs.Open fs filePath = inl f ->
            file (fst r) = Some (Fs.mkFile (Fs.f_node f) 0)
            /\ snd r = add_log LogRotation st)
      /\ (forall e, Fs.Open fs filePath = inr e ->
            file (fst r) = None
            /\ snd r = add_log (LogWatchOpenError filePath) (add_log LogRotation st)))
  /\ (Fsnotify.Name event = filePath ->
      Fsnotify.Has (Fsnotify.Op event) Fsnotify.Create = false ->
      Fsnotify.Has (Fsnotify.Op event) Fsnotify.Write = true ->
      forall f, file t = Some f -> Fs.f_pos f = currentPos t ->
        Fs.IsDir (Fs.f_node f) = false ->
        let data := unread fs (Fs.f_node f) (currentPos t) in
        (whole_short_lines data ->
         handle_event fs filePath event (t, st)
         = (mkTailer
              (Some (Fs.mkFile (Fs.f_node f) (currentPos t + Z.of_nat (List.length data))))
              (currentPos t + Z.of_nat (List.length data)) (closed t),
            feed (map Bufio.dropCR (complete_lines data)) st)
         /\ (0 <= currentPos t <= Z.of_nat (List.length (bytes_of fs (Fs.f_node f))) ->
             currentPos t + Z.of_nat (List.length data)
             = Z.of_nat (List.length (bytes_of fs (Fs.f_node f)))))
        /\ (forall pre long rest,
              data = pre ++ long ++ rest -> whole_short_lines pre -> too_long long ->
              snd (handle_event fs filePath event (t, st))
              = add_log LogWatchReadError
                  (feed (map Bufio.dropCR (complete_lines pre)) st))).
Proof.
  split; [|split].
  - intros Hn. unfold handle_event. now rewrite (name_differs _ _ Hn).
  - intros Hn Hc Hw r. subst r. unfold handle_event.
    rewrite Hn, name_same, Hc, Hw. unfold on_create, openAndSeek.
    destruct (Fs.Open fs filePath) as [f|e]; simpl.
    + split; [reflexivity|]. split; [|split].
      * destruct (file t); [reflexivity|now rewrite app_nil_r].
      * intros f' Hf. inversion Hf. split; reflexivity.
      * intros e He. discriminate.
    + split; [reflexivity|]. split; [|split].
      * destruct (file t); [reflexivity|now rewrite app_nil_r].
      * intros f' Hf. discriminate.
      * intros e' He. split; reflexivity.
  - intros Hn Hc Hw f Hf Hpos Hd data.
    assert (U : handle_event fs filePath event (t, st)
                = (mkTailer
                     (Some (Fs.mkFile (Fs.f_node f) (currentPos t + scanned data)))
                     (currentPos t + scanned data) (closed t),
                   after_scan data st)).
    { unfold handle_event. rewrite Hn, name_same, Hc, Hw.
      unfold on_write. cbn [fst]. rewrite Hf. cbn [fst]. rewrite Hf.
      now rewrite (read_new_unfold fs f t st Hd), Hpos. }
    split.
    + intros [Fr Sh]. split.
      * rewrite U.
        assert (S : Forall short (complete_lines data ++ [fragment data])).
        { apply Forall_app. split; [exact Sh|]. rewrite Fr. constructor; [|constructor].
          unfold short. simpl. unfold Bufio.MaxScanTokenSize. lia. }
        unfold after_scan, scanned. rewrite (Scan_short _ S), Fr. simpl fragment_tokens.
        now rewrite app_nil_r.
      * intros Hr. subst data. unfold unread. fold (bytes_of fs (Fs.f_node f)).
        rewrite length_skipn. lia.
    + intros pre long rest E W T. rewrite U. cbn [snd].
      unfold after_scan. now rewrite E, (Scan_too_long pre long rest W T).
Qed.

Lemma C5_tailer_events_witness :
  handle_event two_lines_fs (B "logs/stdout-xx.txt")
    (Fsnotify.mkEvent (B "logs/other.txt") Fsnotify.Write)
    (mkTailer (Some (Fs.mkFile live_node 0)) 0 [], initial_state)
  = (mkTailer (Some (Fs.mkFile live_node 0)) 0 [], initial_state)
  /\ handle_event two_lines_fs (B "logs/stdout-xx.txt")
       (Fsnotify.mkEvent (B "logs/stdout-xx.txt") Fsnotify.Write)
       (mkTailer (Some (Fs.mkFile live_node 0)) 0 [], initial_state)
     = (mkTailer (Some (Fs.mkFile live_node 160)) 160 [],
        feed [line10; line11] initial_state).
Proof.
  split.
  - apply (proj1 (C5_tailer_events two_lines_fs (B "logs/stdout-xx.txt")
                    (Fsnotify.mkEvent (B "logs/other.txt") Fsnotify.Write)
                    (mkTailer (Some (Fs.mkFile live_node 0)) 0 []) initial_state)).
    vm_compute. discriminate.
  - assert (W : whole_short_lines (unread two_lines_fs live_node 0)).
    { split; [vm_compute; reflexivity|].
      repeat (constructor; [vm_compute; reflexivity|]). constructor. }
    rewrite (proj1 (proj1 (proj2 (proj2 (C5_tailer_events two_lines_fs
                    (B "logs/stdout-xx.txt")
                    (Fsnotify.mkEvent (B "logs/stdout-xx.txt") Fsnotify.Write)
                    (mkTailer (Some (Fs.mkFile live_node 0)) 0 []) initial_state))
                eq_refl eq_refl eq_refl (Fs.mkFile live_node 0) eq_refl eq_refl eq_refl) W)).
    vm_compute. reflexivity.
Defined.

(** ** The match anywhere in the line *)








